(** * RevTree: a shallow embedding of [Cpp/RevTree.cc]

    The revision tree of a document: the revision-ID codec, the node
    model, the tree operations (insert, insertHistory, prune, purge,
    compact, sort, hasConflict) and the binary codec (encode, decode).

    Conventions of the embedding.
    - A machine integer is a [Z]; every cast or operation that can wrap
      is written with its modulus.
    - A [slice] is the list of the bytes it spans.  A null slice is the
      empty list, except where the code tests [buf] itself (the
      [parentRevID] of [insert]), where it is an [option].
    - A [const RevNode*] into [_nodes] is the index it points at and
      [NULL] is [None].
    - An execution either returns ([Ok]) or stops with a [fault]: a
      thrown [FDB_RESULT_FILE_CORRUPTION], a failed [assert], an access
      outside a vector, an array or the input blob, a read of an array
      entry that was never written, a loop of the source that cannot
      exit, or a loop of the model that ran out of fuel. *)

From Stdlib Require Import String.
From Stdlib Require Import ZArith List Lia Bool Permutation.
From coqutil Require Import Byte.
Import ListNotations.
Local Open Scope Z_scope.

(** ** Outcomes *)

Inductive fault : Set :=
| FileCorruption
| AssertionFailure
| OutOfBounds
| UninitialisedRead
| Diverges
| OutOfFuel.

Inductive outcome (A : Type) : Type :=
| Ok (a : A)
| Stop (f : fault).

Arguments Ok {A} a.
Arguments Stop {A} f.

Definition bind {A B : Type} (m : outcome A) (k : A -> outcome B) : outcome B :=
  match m with
  | Ok a => k a
  | Stop f => Stop f
  end.

Notation "x <- m ;; k" := (bind m (fun x => k))
  (at level 61, m at next level, right associativity).
Notation "' p <- m ;; k" := (bind m (fun x => match x with p => k end))
  (at level 61, p pattern, m at next level, right associativity).

(** The two preprocessor switches the source depends on: [DEBUG] guards
    the duplicate check of the pointer overload of [insert], [NDEBUG]
    turns [assert] into nothing. *)
Record build : Set := mkBuild { DEBUG : bool; NDEBUG : bool }.

Definition assert (cfg : build) (c : bool) : outcome unit :=
  if NDEBUG cfg then Ok tt else if c then Ok tt else Stop AssertionFailure.

(** ** Bytes and slices *)

Definition slice : Type := list byte.

Definition bytes (s : String.string) : slice := String.list_byte_of_string s.

Arguments bytes s%_string_scope.

Definition size {A : Type} (l : list A) : Z := Z.of_nat (length l).

Definition slice_equal (a b : slice) : bool :=
  if list_eq_dec Byte.byte_eq_dec a b then true else false.

(** Modelled from the spec: [slice::compare] is declared in a header that
    is not among the sources; the spec has the fallback and the suffix
    tie-break compare "byte-lexicographically" with a result in
    {-1, 0, +1}. *)
Fixpoint slice_compare (a b : slice) : Z :=
  match a, b with
  | [], [] => 0
  | [], _ :: _ => -1
  | _ :: _, [] => 1
  | x :: a', y :: b' =>
      if byte.unsigned x <? byte.unsigned y then -1
      else if byte.unsigned y <? byte.unsigned x then 1
      else slice_compare a' b'
  end.

(** [memchr(buf, c, size)]: the position of the first [c], if any. *)
Fixpoint memchr (s : slice) (c : Z) : option nat :=
  match s with
  | [] => None
  | x :: s' =>
      if byte.unsigned x =? c then Some 0%nat
      else option_map S (memchr s' c)
  end.

Definition isdigit (c : Z) : bool := (48 <=? c) && (c <=? 57).

Definition read_u8 (b : slice) (pos : nat) : outcome Z :=
  match nth_error b pos with
  | Some x => Ok (byte.unsigned x)
  | None => Stop OutOfBounds
  end.

(** [ntohs] and [ntohl] of the field at [pos]. *)
Definition read_u16 (b : slice) (pos : nat) : outcome Z :=
  b0 <- read_u8 b pos ;;
  b1 <- read_u8 b (pos + 1) ;;
  Ok (b0 * 256 + b1).

Definition read_u32 (b : slice) (pos : nat) : outcome Z :=
  b0 <- read_u8 b pos ;;
  b1 <- read_u8 b (pos + 1) ;;
  b2 <- read_u8 b (pos + 2) ;;
  b3 <- read_u8 b (pos + 3) ;;
  Ok (((b0 * 256 + b1) * 256 + b2) * 256 + b3).

(** [htons] and [htonl] of an already truncated value. *)
Definition put_u16 (n : Z) : slice :=
  [byte.of_Z (n / 256); byte.of_Z n].

Definition put_u32 (n : Z) : slice :=
  [byte.of_Z (n / 16777216); byte.of_Z (n / 65536); byte.of_Z (n / 256); byte.of_Z n].

(** The bytes [[start, start + len)] of the blob. *)
Definition subslice (b : slice) (start len : nat) : outcome slice :=
  if (start + len <=? length b)%nat then Ok (firstn len (skipn start b))
  else Stop OutOfBounds.

(** ** Varints *)

(** Modelled from the spec: [varint.h] is not among the sources; the spec
    has varints as "unsigned LEB128 (7 data bits per byte, continuation
    bit in the MSB, little-endian group order)".  A 64-bit value takes at
    most ten groups. *)
Fixpoint PutUVarInt_groups (fuel : nat) (n : Z) : slice :=
  match fuel with
  | O => []
  | S fuel' =>
      if n <? 128 then [byte.of_Z n]
      else byte.of_Z (Z.lor (Z.land n 127) 128) :: PutUVarInt_groups fuel' (Z.shiftr n 7)
  end.

Definition PutUVarInt (n : Z) : slice := PutUVarInt_groups 10 n.

Definition SizeOfVarInt (n : Z) : Z := size (PutUVarInt n).

(** Modelled from the spec: the reader of [varint.h].  It is handed the
    bytes it may read; [Some (nBytes, value)] when a byte without the
    continuation bit is met, [None] (the C function returns 0 and leaves
    its out-parameter alone) when the bytes run out first. *)
Fixpoint GetUVarInt_from (buf : slice) (shift : Z) (acc : Z) (nRead : nat)
  : option (nat * Z) :=
  match buf with
  | [] => None
  | x :: buf' =>
      let acc' := Z.lor acc (Z.shiftl (Z.land (byte.unsigned x) 127) shift) in
      if 128 <=? byte.unsigned x
      then GetUVarInt_from buf' (shift + 7) acc' (S nRead)
      else Some (S nRead, acc' mod 2 ^ 64)
  end.

Definition GetUVarInt (buf : slice) : option (nat * Z) :=
  GetUVarInt_from buf 0 0 0%nat.

(** ** Revision IDs *)

(** [parseDigits]: 0 as soon as a non-digit is met. *)
Fixpoint parseDigits_from (str : slice) (result : Z) : Z :=
  match str with
  | [] => result
  | x :: str' =>
      if isdigit (byte.unsigned x)
      then parseDigits_from str' ((10 * result + (byte.unsigned x - 48)) mod 2 ^ 32)
      else 0
  end.

Definition parseDigits (str : slice) : Z := parseDigits_from str 0.

(** [RevIDParse]: [None] for [false], otherwise the generation and the
    digest (the bytes after the dash). *)
Definition RevIDParse (rev : slice) : option (Z * slice) :=
  match memchr rev 45 with
  | None => None
  | Some O => None
  | Some dashPos =>
      if (8 <? Z.of_nat dashPos) || (size rev - 1 <=? Z.of_nat dashPos) then None
      else
        let generation := parseDigits (firstn dashPos rev) in
        if generation =? 0 then None
        else Some (generation, skipn (S dashPos) rev)
  end.

(** [RevIDParseCompacted] reads the first byte without looking at the
    size. *)
Definition RevIDParseCompacted (rev : slice) : outcome (option (Z * slice)) :=
  match rev with
  | [] => Stop OutOfBounds
  | b0 :: tail =>
      let gen := byte.unsigned b0 in
      if isdigit gen then Ok (RevIDParse rev)
      else
        let gen := if 57 <? gen then gen - 10 else gen in
        Ok (Some (gen, tail))
  end.

Definition compareRevIDs (rev1 rev2 : slice) : Z :=
  match RevIDParse rev1, RevIDParse rev2 with
  | Some (gen1, digest1), Some (gen2, digest2) =>
      if gen2 <? gen1 then 1
      else if gen1 <? gen2 then -1
      else slice_compare digest1 digest2
  | _, _ => slice_compare rev1 rev2
  end.

(** ** Nodes *)

(** Modelled from the spec: [RevTree.h] is not among the sources.  The
    spec gives [Leaf = 0x01], [Deleted = 0x02] and [kNoParent = 0xFFFF];
    [New] is a transient bit outside the persistent set, taken here as
    the next free one. *)
Definition kLeaf : Z := 1.
Definition kDeleted : Z := 2.
Definition kNew : Z := 4.
Definition kNoParent : Z := 65535.

Definition kRevNodePublicPersistentFlags : Z := Z.lor kLeaf kDeleted.
Definition kRevNodeHasData : Z := 128.
Definition kRevNodeHasBodyOffset : Z := 64.

Record RevNode : Type := mkRevNode {
  revID : slice;
  parentIndex : Z;
  flags : Z;
  sequence : Z;
  oldBodyOffset : Z;
  data : slice
}.

Definition has_flag (f bit : Z) : bool := negb (Z.land f bit =? 0).

Definition isLeaf (n : RevNode) : bool := has_flag (flags n) kLeaf.
Definition isDeleted (n : RevNode) : bool := has_flag (flags n) kDeleted.
Definition isNew (n : RevNode) : bool := has_flag (flags n) kNew.
Definition isActive (n : RevNode) : bool := isLeaf n && negb (isDeleted n).

Definition set_revID (n : RevNode) (r : slice) : RevNode :=
  mkRevNode r (parentIndex n) (flags n) (sequence n) (oldBodyOffset n) (data n).
Definition set_parentIndex (n : RevNode) (p : Z) : RevNode :=
  mkRevNode (revID n) p (flags n) (sequence n) (oldBodyOffset n) (data n).
Definition set_flags (n : RevNode) (f : Z) : RevNode :=
  mkRevNode (revID n) (parentIndex n) f (sequence n) (oldBodyOffset n) (data n).
Definition set_sequence (n : RevNode) (s : Z) : RevNode :=
  mkRevNode (revID n) (parentIndex n) (flags n) s (oldBodyOffset n) (data n).

Definition Z_of_bool (b : bool) : Z := if b then 1 else 0.

(** [RevNode::compare]. *)
Definition RevNode_compare (this rev2 : RevNode) : Z :=
  let delta := Z_of_bool (isLeaf rev2) - Z_of_bool (isLeaf this) in
  if negb (delta =? 0) then delta
  else
    let delta := Z_of_bool (isDeleted this) - Z_of_bool (isDeleted rev2) in
    if negb (delta =? 0) then delta
    else compareRevIDs (revID rev2) (revID this).

(** The [operator<] that [std::sort] uses. *)
Definition RevNode_lt (a b : RevNode) : bool := RevNode_compare a b <? 0.

(** ** The tree *)

Record RevTree : Type := mkRevTree {
  _nodes : list RevNode;
  _bodyOffset : Z;
  _sorted : bool;
  _changed : bool
}.

(** [RevTree::RevTree()]. *)
Definition empty_tree : RevTree := mkRevTree [] 0 true false.

Definition set_nodes (t : RevTree) (ns : list RevNode) : RevTree :=
  mkRevTree ns (_bodyOffset t) (_sorted t) (_changed t).

Definition at_index {A : Type} (l : list A) (i : Z) : outcome A :=
  if i <? 0 then Stop OutOfBounds
  else match nth_error l (Z.to_nat i) with
       | Some x => Ok x
       | None => Stop OutOfBounds
       end.

Fixpoint update {A : Type} (l : list A) (i : nat) (f : A -> A) : outcome (list A) :=
  match l, i with
  | [], _ => Stop OutOfBounds
  | x :: l', O => Ok (f x :: l')
  | x :: l', S i' => l'' <- update l' i' f ;; Ok (x :: l'')
  end.

(** [get(slice revID)]: a linear scan. *)
Fixpoint get_from (ns : list RevNode) (r : slice) (i : nat) : option nat :=
  match ns with
  | [] => None
  | n :: ns' => if slice_equal (revID n) r then Some i else get_from ns' r (S i)
  end.

Definition get (t : RevTree) (r : slice) : option nat := get_from (_nodes t) r 0.

(** [get(unsigned index)] is [&_nodes[index]]: no look at the size. *)
Definition get_index (index : Z) : nat := Z.to_nat index.

Definition indexOf (cfg : build) (t : RevTree) (node : nat) : outcome Z :=
  let index := Z.of_nat node in
  _ <- assert cfg ((0 <=? index) && (index <? size (_nodes t))) ;;
  Ok (index mod 2 ^ 32).

(** [hasConflict]: the linear scan of the unsorted branch. *)
Fixpoint scanActive (ns : list RevNode) (nActive : Z) : bool :=
  match ns with
  | [] => false
  | n :: ns' =>
      if isActive n
      then if 1 <? nActive + 1 then true else scanActive ns' (nActive + 1)
      else scanActive ns' nActive
  end.

Definition hasConflict (t : RevTree) : bool :=
  if size (_nodes t) <? 2 then false
  else if _sorted t then
    match nth_error (_nodes t) 1 with
    | Some n => isActive n
    | None => false
    end
  else scanActive (_nodes t) 0.

Definition currentNodes (t : RevTree) : list RevNode := filter isLeaf (_nodes t).

(** ** Insertion *)

Definition clearLeaf (n : RevNode) : RevNode :=
  set_flags n (Z.land (flags n) (Z.lnot kLeaf mod 256)).

Definition setLeaf (n : RevNode) : RevNode :=
  set_flags n (Z.lor (flags n) kLeaf).

(** [_insert]: returns the tree and [&_nodes.back()]. *)
Definition _insert (cfg : build) (t : RevTree) (rev body : slice)
    (parentNode : option nat) (deleted : bool) : outcome (RevTree * nat) :=
  let newFlags := Z.lor kLeaf kNew in
  let newFlags := if deleted then Z.lor newFlags kDeleted else newFlags in
  '(nodes, newParent) <-
      match parentNode with
      | None => Ok (_nodes t, kNoParent)
      | Some p =>
          index <- indexOf cfg t p ;;
          nodes <- update (_nodes t) p clearLeaf ;;
          Ok (nodes, index mod 2 ^ 16)
      end ;;
  let newNode := mkRevNode rev newParent newFlags 0 0 body in
  let nodes := nodes ++ [newNode] in
  Ok (mkRevTree nodes (_bodyOffset t) (if 1 <? size nodes then false else _sorted t) true,
      (length nodes - 1)%nat).

(** [insert] with the parent given as a node.  [None] in the result is
    the [NULL] return. *)
Definition insert_node (cfg : build) (t : RevTree) (rev body : slice) (deleted : bool)
    (parent : option nat) (allowConflict : bool) : outcome (RevTree * option nat) :=
  r <- RevIDParseCompacted rev ;;
  match r with
  | None => Ok (t, None)
  | Some (newGen, _) =>
      _ <- (if DEBUG cfg
            then assert cfg (match get t rev with None => true | Some _ => false end)
            else Ok tt) ;;
      pg <- match parent with
            | Some p =>
                pn <- at_index (_nodes t) (Z.of_nat p) ;;
                if negb allowConflict && negb (has_flag (flags pn) kLeaf) then Ok None
                else
                  r' <- RevIDParseCompacted (revID pn) ;;
                  match r' with
                  | None => Ok None
                  | Some (parentGen, _) => Ok (Some parentGen)
                  end
            | None =>
                if negb allowConflict && (0 <? size (_nodes t)) then Ok None
                else Ok (Some 0)
            end ;;
      match pg with
      | None => Ok (t, None)
      | Some parentGen =>
          if negb (newGen =? (parentGen + 1) mod 2 ^ 32) then Ok (t, None)
          else
            '(t', p) <- _insert cfg t rev body parent deleted ;;
            Ok (t', Some p)
      end
  end.

(** [insert] with the parent given by its revision ID; [parentRevID] is
    [None] when its [buf] is null. *)
Definition insert (cfg : build) (t : RevTree) (rev body : slice) (deleted : bool)
    (parentRevID : option slice) (allowConflict : bool) : outcome (RevTree * option nat) :=
  match get t rev with
  | Some _ => Ok (t, None)
  | None =>
      match parentRevID with
      | Some pr =>
          match get t pr with
          | None => Ok (t, None)
          | Some parent => insert_node cfg t rev body deleted (Some parent) allowConflict
          end
      | None => insert_node cfg t rev body deleted None allowConflict
      end
  end.

(** The first loop of [insertHistory]: [Some i] is the value of [i] when
    the loop is left, [None] the [return -1]. *)
Fixpoint findCommonAncestor (t : RevTree) (history : list slice) (i lastGen : Z)
  : outcome (option Z) :=
  match history with
  | [] => Ok (Some i)
  | h :: rest =>
      r <- RevIDParseCompacted h ;;
      match r with
      | None => Ok None
      | Some (gen, _) =>
          if (0 <? lastGen) && negb (gen =? lastGen - 1) then Ok None
          else
            match get t h with
            | Some _ => Ok (Some i)
            | None => findCommonAncestor t rest (i + 1) gen
            end
      end
  end.

(** The second loop, [while (--i >= 0)], entered with [i] entries left. *)
Fixpoint insertNewRevisions (cfg : build) (history : list slice) (body : slice)
    (deleted : bool) (i : nat) (parentIndex : Z) (t : RevTree) : outcome RevTree :=
  match i with
  | O => Ok t
  | S i' =>
      rev <- at_index history (Z.of_nat i') ;;
      '(t', parent) <- _insert cfg t rev
                         (if (i' =? 0)%nat then body else [])
                         (Some (get_index parentIndex))
                         ((i' =? 0)%nat && deleted) ;;
      parentIndex' <- indexOf cfg t' parent ;;
      insertNewRevisions cfg history body deleted i' parentIndex' t'
  end.

Definition insertHistory (cfg : build) (t : RevTree) (history : list slice)
    (body : slice) (deleted : bool) : outcome (RevTree * Z) :=
  _ <- assert cfg (0 <? size history) ;;
  r <- findCommonAncestor t history 0 0 ;;
  match r with
  | None => Ok (t, -1)
  | Some commonAncestorIndex =>
      if 0 <? commonAncestorIndex then
        t' <- insertNewRevisions cfg history body deleted
                (Z.to_nat commonAncestorIndex) commonAncestorIndex t ;;
        Ok (t', commonAncestorIndex)
      else Ok (t, commonAncestorIndex)
  end.

(** ** Compaction, pruning, purging *)

(** The first loop of [compact]: the table from old to new indexes. *)
Fixpoint compact_map (ns : list RevNode) (j : Z) : list Z :=
  match ns with
  | [] => []
  | n :: ns' =>
      if 0 <? size (revID n) then (j mod 2 ^ 16) :: compact_map ns' (j + 1)
      else kNoParent :: compact_map ns' j
  end.

(** The second loop: survivors slide down with [parentIndex] replaced by
    [map[parentIndex]]. *)
Fixpoint compact_slide (table : list Z) (ns : list RevNode) : outcome (list RevNode) :=
  match ns with
  | [] => Ok []
  | n :: ns' =>
      if 0 <? size (revID n) then
        p <- at_index table (parentIndex n) ;;
        rest <- compact_slide table ns' ;;
        Ok (set_parentIndex n p :: rest)
      else compact_slide table ns'
  end.

Definition compact (t : RevTree) : outcome RevTree :=
  let table := compact_map (_nodes t) 0 in
  ns <- compact_slide table (_nodes t) ;;
  Ok (mkRevTree ns (_bodyOffset t) (_sorted t) true).

Definition markNode (n : RevNode) : RevNode := set_revID n [].

(** The inner loop of [prune]: from [anc] up through the parents. *)
Fixpoint prune_walk (fuel : nat) (maxDepth : Z) (ns : list RevNode) (anc : Z)
    (depth numPruned : Z) : outcome (list RevNode * Z) :=
  match fuel with
  | O => Stop OutOfFuel
  | S fuel' =>
      n <- at_index ns anc ;;
      let depth := (depth + 1) mod 2 ^ 32 in
      '(ns, numPruned) <-
          (if maxDepth <? depth
           then ns' <- update ns (Z.to_nat anc) markNode ;; Ok (ns', numPruned + 1)
           else Ok (ns, numPruned)) ;;
      if parentIndex n =? kNoParent then Ok (ns, numPruned)
      else prune_walk fuel' maxDepth ns (parentIndex n) depth numPruned
  end.

(** The outer loop of [prune], with [i] counting up over [todo] nodes. *)
Fixpoint prune_scan (fuel : nat) (sorted : bool) (maxDepth : Z) (todo : nat) (i : Z)
    (ns : list RevNode) (numPruned : Z) : outcome (list RevNode * Z) :=
  match todo with
  | O => Ok (ns, numPruned)
  | S todo' =>
      n <- at_index ns i ;;
      if isLeaf n then
        '(ns', numPruned') <- prune_walk fuel maxDepth ns i 0 numPruned ;;
        prune_scan fuel sorted maxDepth todo' (i + 1) ns' numPruned'
      else if sorted then Ok (ns, numPruned)
      else prune_scan fuel sorted maxDepth todo' (i + 1) ns numPruned
  end.

Definition prune (fuel : nat) (t : RevTree) (maxDepth : Z) : outcome (RevTree * Z) :=
  if (maxDepth =? 0) || (size (_nodes t) <=? maxDepth) then Ok (t, 0)
  else
    '(ns, numPruned) <- prune_scan fuel (_sorted t) maxDepth (length (_nodes t)) 0 (_nodes t) 0 ;;
    let t := set_nodes t ns in
    if 0 <? numPruned then t' <- compact t ;; Ok (t', numPruned)
    else Ok (t, numPruned).

(** What one pass of [purge] carries along. *)
Record purge_state : Type := mkPurge {
  pNodes : list RevNode;
  numPurged : Z;
  madeProgress : bool;
  foundNonLeaf : bool
}.

(** One pass over [revIDs]; the entries come back with the used ones
    emptied. *)
Fixpoint purge_pass (revIDs : list slice) (st : purge_state)
  : outcome (list slice * purge_state) :=
  match revIDs with
  | [] => Ok ([], st)
  | r :: rest =>
      '(r', st') <-
          match get_from (pNodes st) r 0 with
          | None => Ok (r, st)
          | Some i =>
              n <- at_index (pNodes st) (Z.of_nat i) ;;
              if isLeaf n then
                ns <- update (pNodes st) i markNode ;;
                ns <- (if negb (parentIndex n =? kNoParent)
                       then update ns (Z.to_nat (parentIndex n)) setLeaf
                       else Ok ns) ;;
                Ok ([], mkPurge ns (numPurged st + 1) true (foundNonLeaf st))
              else Ok (r, mkPurge (pNodes st) (numPurged st) (madeProgress st) true)
          end ;;
      '(rest', st'') <- purge_pass rest st' ;;
      Ok (r' :: rest', st'')
  end.

(** The [do ... while (madeProgress && foundNonLeaf)] loop. *)
Fixpoint purge_loop (fuel : nat) (revIDs : list slice) (ns : list RevNode) (n : Z)
  : outcome (list RevNode * Z) :=
  match fuel with
  | O => Stop OutOfFuel
  | S fuel' =>
      '(revIDs', st) <- purge_pass revIDs (mkPurge ns n false false) ;;
      if madeProgress st && foundNonLeaf st
      then purge_loop fuel' revIDs' (pNodes st) (numPurged st)
      else Ok (pNodes st, numPurged st)
  end.

Definition purge (fuel : nat) (t : RevTree) (revIDs : list slice) : outcome (RevTree * Z) :=
  '(ns, n) <- purge_loop fuel revIDs (_nodes t) 0 ;;
  let t := set_nodes t ns in
  if 0 <? n then t' <- compact t ;; Ok (t', n)
  else Ok (t, n).

(** ** Sorting *)

Section Sorting.

(** [std::sort] with [operator<]: the library routine is a parameter of
    the model. *)
Variable std_sort : list RevNode -> list RevNode.

(** The first loop of [sort]: every node gets its own index as
    [parentIndex]; [oldParents] is [map parentIndex] of the nodes. *)
Fixpoint tagIndexes (ns : list RevNode) (i : Z) : list RevNode :=
  match ns with
  | [] => []
  | n :: ns' => set_parentIndex n i :: tagIndexes ns' (i + 1)
  end.

(** The second loop: [oldToNew[_nodes[i].parentIndex] = i]. *)
Fixpoint fillOldToNew (ns : list RevNode) (i : Z) (oldToNew : list (option Z))
  : outcome (list (option Z)) :=
  match ns with
  | [] => Ok oldToNew
  | n :: ns' =>
      if parentIndex n <? 0 then Stop OutOfBounds
      else
        o <- update oldToNew (Z.to_nat (parentIndex n)) (fun _ => Some i) ;;
        fillOldToNew ns' (i + 1) o
  end.

(** The third loop. *)
Fixpoint fixParents (oldParents : list Z) (oldToNew : list (option Z))
    (ns : list RevNode) : outcome (list RevNode) :=
  match ns with
  | [] => Ok []
  | n :: ns' =>
      parent <- at_index oldParents (parentIndex n) ;;
      parent <- (if negb (parent =? kNoParent)
                 then
                   o <- at_index oldToNew parent ;;
                   match o with
                   | Some p => Ok p
                   | None => Stop UninitialisedRead
                   end
                 else Ok parent) ;;
      rest <- fixParents oldParents oldToNew ns' ;;
      Ok (set_parentIndex n parent :: rest)
  end.

(** [sort].  The loops count with a [uint16_t], which never reaches a
    size above 65535. *)
Definition sort (t : RevTree) : outcome RevTree :=
  if _sorted t then Ok t
  else if 65535 <? size (_nodes t) then Stop Diverges
  else
    let oldParents := map parentIndex (_nodes t) in
    let ns := std_sort (tagIndexes (_nodes t) 0) in
    oldToNew <- fillOldToNew ns 0 (repeat None (length (_nodes t))) ;;
    ns <- fixParents oldParents oldToNew ns ;;
    Ok (mkRevTree ns (_bodyOffset t) true (_changed t)).

Definition currentNode (t : RevTree) : outcome (RevTree * RevNode) :=
  t' <- sort t ;;
  n <- at_index (_nodes t') 0 ;;
  Ok (t', n).

(** ** Encoding *)

(** The body of the first loop of [encode]. *)
Definition pruneBody (bodyOffset : Z) (n : RevNode) : RevNode :=
  if (0 <? size (data n)) && negb (isLeaf n || isNew n)
  then mkRevNode (revID n) (parentIndex n) (flags n) (sequence n) bodyOffset []
  else n.

(** [offsetof(RawRevNode, revID)] is 8: a 32-bit size, a 16-bit parent
    index, the flags and the length of the revision ID. *)
Definition sizeForRawNode (n : RevNode) : Z :=
  let sz := 8 + size (revID n) + SizeOfVarInt (sequence n) in
  if 0 <? size (data n) then sz + size (data n)
  else if 0 <? oldBodyOffset n then sz + SizeOfVarInt (oldBodyOffset n)
  else sz.

Definition rawFlags (n : RevNode) : Z :=
  let f := Z.land (flags n) kRevNodePublicPersistentFlags in
  if 0 <? size (data n) then Z.lor f kRevNodeHasData
  else if 0 <? oldBodyOffset n then Z.lor f kRevNodeHasBodyOffset
  else f.

(** The bytes the second loop of [encode] writes for one node. *)
Definition writeRawNode (bodyOffset : Z) (n : RevNode) : slice :=
  let nodeSize := sizeForRawNode n in
  let dflags := rawFlags n in
  put_u32 (nodeSize mod 2 ^ 32)
  ++ put_u16 (parentIndex n)
  ++ [byte.of_Z dflags; byte.of_Z (size (revID n) mod 2 ^ 8)]
  ++ revID n
  ++ PutUVarInt (sequence n)
  ++ (if has_flag dflags kRevNodeHasData then data n
      else if has_flag dflags kRevNodeHasBodyOffset
           then PutUVarInt (if oldBodyOffset n =? 0 then bodyOffset else oldBodyOffset n)
           else []).

(** [encode]: the tree as the call leaves it, and the blob. *)
Definition encode (t : RevTree) : outcome (RevTree * slice) :=
  t <- sort t ;;
  let ns := map (pruneBody (_bodyOffset t)) (_nodes t) in
  let result := concat (map (writeRawNode (_bodyOffset t)) ns) ++ put_u32 0 in
  Ok (set_nodes t ns, result).

End Sorting.

(** ** Decoding *)

(** A pointer into the blob is the part of the blob from the pointed
    byte on: [raw_tree.buf] is the whole blob, [raw_tree.end()] is [[]],
    and offsets are counted from the pointer. *)

(** [countRawNodes]: [validRawNode] reads the size under the pointer,
    [nextRawNode] moves on by it.  A record takes at least one byte, so
    as many steps as the blob has bytes, and one, are enough. *)
Fixpoint countRawNodes_from (fuel : nat) (node : slice) (count : Z) : outcome Z :=
  match fuel with
  | O => Stop OutOfFuel
  | S fuel' =>
      sz <- read_u32 node 0 ;;
      if 0 <? sz then countRawNodes_from fuel' (skipn (Z.to_nat sz) node) ((count + 1) mod 2 ^ 32)
      else Ok count
  end.

Definition countRawNodes (tree : slice) : outcome Z :=
  countRawNodes_from (S (length tree)) tree 0.

(** The slice [{data, (size_t)(end - data)}] that [nodeFromRawNode]
    makes of what is left of the record: the bytes from [data] up to
    [end].  When [data] is past [end], the record being too small for
    what was read of it, the subtraction wraps around and the slice runs
    on from [data] with no end inside the blob: it is given as the bytes
    that the blob holds from [data] on, marked [true]. *)
Definition upToEnd (src : slice) (data_ end_ : nat) : outcome (slice * bool) :=
  if (end_ <? data_)%nat then Ok (skipn data_ src, true)
  else buf <- subslice src data_ (end_ - data_) ;; Ok (buf, false).

(** [GetUVarInt] on such a slice.  When the bytes run out it returns 0
    and leaves its out-parameter alone ([None]); on a slice that runs on
    past the blob the bytes do not run out, and the reads leave the
    blob. *)
Definition getVarInt (buf : slice * bool) : outcome (option (nat * Z)) :=
  match GetUVarInt (fst buf) with
  | Some r => Ok (Some r)
  | None => if snd buf then Stop OutOfBounds else Ok None
  end.

(** [nodeFromRawNode] for the record at [src], into [dst].  There is no
    check that the record is large enough for its header and revision
    ID: the varints are then read from the bytes after the revision ID
    all the same. *)
Definition nodeFromRawNode (src : slice) (dst : RevNode) : outcome RevNode :=
  sz <- read_u32 src 0 ;;
  let end_ := Z.to_nat sz in
  revIDLen <- read_u8 src 7 ;;
  rev <- subslice src 8 (Z.to_nat revIDLen) ;;
  srcFlags <- read_u8 src 6 ;;
  parent <- read_u16 src 4 ;;
  let data_ := (8 + Z.to_nat revIDLen)%nat in
  buf <- upToEnd src data_ end_ ;;
  r <- getVarInt buf ;;
  let '(nBytes, seq) :=
    match r with
    | Some (nBytes, v) => (nBytes, v)
    | None => (0%nat, sequence dst)
    end in
  let data_ := (data_ + nBytes)%nat in
  let dflags := Z.land srcFlags kRevNodePublicPersistentFlags in
  if has_flag srcFlags kRevNodeHasData then
    body <- upToEnd src data_ end_ ;;
    Ok (mkRevNode rev parent dflags seq 0 (fst body))
  else if has_flag srcFlags kRevNodeHasBodyOffset then
    buf <- upToEnd src data_ end_ ;;
    r <- getVarInt buf ;;
    let off := match r with
               | Some (_, v) => v
               | None => 0
               end in
    Ok (mkRevNode rev parent dflags seq off [])
  else Ok (mkRevNode rev parent dflags seq 0 []).

(** The loop of [decode]: the nodes as filled in, and the pointer the
    walk stopped at. *)
Fixpoint decode_nodes (fuel : nat) (rawNode : slice) (seq : Z) (dsts : list RevNode)
  : outcome (list RevNode * slice) :=
  match fuel with
  | O => Stop OutOfFuel
  | S fuel' =>
      sz <- read_u32 rawNode 0 ;;
      if 0 <? sz then
        match dsts with
        | [] => Stop OutOfBounds
        | dst :: dsts' =>
            n <- nodeFromRawNode rawNode dst ;;
            let n := if sequence n =? 0 then set_sequence n seq else n in
            '(ns, e) <- decode_nodes fuel' (skipn (Z.to_nat sz) rawNode) seq dsts' ;;
            Ok (n :: ns, e)
        end
      else Ok (dsts, rawNode)
  end.

(** Modelled from the spec: the declaration of [RevNode] is not among
    the sources; [_nodes.resize(count)] appends value-initialised nodes,
    all of whose fields are zero. *)
Definition zeroNode : RevNode := mkRevNode [] 0 0 0 0 [].

Definition resize (ns : list RevNode) (count : nat) : list RevNode :=
  firstn count ns ++ repeat zeroNode (count - length ns).

Definition decode (t : RevTree) (raw_tree : slice) (seq docOffset : Z) : outcome RevTree :=
  count <- countRawNodes raw_tree ;;
  if 65535 <? count then Stop FileCorruption
  else
    let ns := resize (_nodes t) (Z.to_nat count) in
    '(ns, rawNode) <- decode_nodes (S (length raw_tree)) raw_tree seq ns ;;
    if negb (size rawNode =? 4) then Stop FileCorruption
    else Ok (set_nodes t ns).

(** [RevTree::RevTree(slice, sequence, uint64_t)]. *)
Definition RevTree_of (raw_tree : slice) (seq docOffset : Z) : outcome RevTree :=
  decode empty_tree raw_tree seq docOffset.

(** ** A sorting routine to run the model with *)

Fixpoint sorted_insert (x : RevNode) (l : list RevNode) : list RevNode :=
  match l with
  | [] => [x]
  | y :: l' => if RevNode_lt y x then y :: sorted_insert x l' else x :: y :: l'
  end.

Definition insertion_sort (l : list RevNode) : list RevNode :=
  fold_right sorted_insert [] l.

(** ** Trees the scenarios run on *)

(** What the run-time switches are when nothing is said. *)
Definition release : build := mkBuild false true.
Definition checked : build := mkBuild false false.

Definition tree_of (r : outcome (RevTree * option nat)) : RevTree :=
  match r with
  | Ok (t, _) => t
  | Stop _ => empty_tree
  end.

(** The tree holding exactly "1-aa". *)
Definition tree_1aa : RevTree :=
  tree_of (insert checked empty_tree (bytes "1-aa") (bytes "body") false None false).

(** "1-aa" with the child "2-bb", both inserted with a body and not yet
    saved. *)
Definition tree_2bb : RevTree :=
  tree_of (insert checked tree_1aa (bytes "2-bb") (bytes "y") false (Some (bytes "1-aa")) false).

(** "1-aa" with the children "2-bb" and "2-cc". *)
Definition tree_fork : RevTree :=
  tree_of (insert checked tree_2bb (bytes "2-cc") (bytes "z") false (Some (bytes "1-aa")) true).

(** [tree_fork] with "3-dd" and "3-ee" below "2-cc". *)
Definition tree_two_forks : RevTree :=
  let t := tree_of (insert checked tree_fork (bytes "3-dd") (bytes "d") false
                      (Some (bytes "2-cc")) false) in
  tree_of (insert checked t (bytes "3-ee") (bytes "e") false (Some (bytes "2-cc")) true).

(** A chain of ten revisions, "1-a" up to the leaf "10-j". *)
Definition tree_chain10 : RevTree :=
  let child t r p := tree_of (insert checked t r (bytes "b") false (Some p) false) in
  let t := tree_of (insert checked empty_tree (bytes "1-a") (bytes "b") false None false) in
  let t := child t (bytes "2-b") (bytes "1-a") in
  let t := child t (bytes "3-c") (bytes "2-b") in
  let t := child t (bytes "4-d") (bytes "3-c") in
  let t := child t (bytes "5-e") (bytes "4-d") in
  let t := child t (bytes "6-f") (bytes "5-e") in
  let t := child t (bytes "7-g") (bytes "6-f") in
  let t := child t (bytes "8-h") (bytes "7-g") in
  let t := child t (bytes "9-i") (bytes "8-h") in
  child t (bytes "10-j") (bytes "9-i").

(** [tree_fork] as [currentNode] leaves it: sorted. *)
Definition sorted_fork : list RevNode :=
  match currentNode insertion_sort tree_fork with
  | Ok (t, _) => _nodes t
  | Stop _ => []
  end.

(** ** Properties the claims speak of *)

(** Whether [RevIDParse] accepts the ID. *)
Definition proper (rev : slice) : bool :=
  match RevIDParse rev with
  | Some _ => true
  | None => false
  end.

(** The vector is in the order [std::sort] establishes: no node is
    [operator<] its predecessor. *)
Fixpoint is_sorted (ns : list RevNode) : bool :=
  match ns with
  | [] => true
  | x :: rest =>
      match rest with
      | [] => true
      | y :: _ => negb (RevNode_lt y x) && is_sorted rest
      end
  end.

(** The number of active nodes: leaves that are not deleted. *)
Definition countActive (ns : list RevNode) : Z := size (filter isActive ns).

(** Whether some node names index [i] as its parent. *)
Definition hasChild (ns : list RevNode) (i : Z) : bool :=
  existsb (fun m => parentIndex m =? i) ns.

Fixpoint leafFlags_from (all ns : list RevNode) (i : Z) : bool :=
  match ns with
  | [] => true
  | n :: ns' => Bool.eqb (isLeaf n) (negb (hasChild all i)) && leafFlags_from all ns' (i + 1)
  end.

(** Exactly the nodes flagged [Leaf] are nobody's parent. *)
Definition leafFlagsExact (t : RevTree) : bool := leafFlags_from (_nodes t) (_nodes t) 0.

(** Every [parentIndex] is [kNoParent] or an index into the vector. *)
Definition parentsValid (t : RevTree) : bool :=
  forallb (fun n => (parentIndex n =? kNoParent)
                    || ((0 <=? parentIndex n) && (parentIndex n <? size (_nodes t))))
          (_nodes t).

(** The record walk of [countRawNodes] and [decode]: from the pointer
    [p] it crosses the records that start at the pointers [recs] and
    meets a zero size at the pointer [e]. *)
Inductive record_walk : slice -> list slice -> slice -> Prop :=
| walk_end (p : slice) :
    read_u32 p 0 = Ok 0 -> record_walk p [] p
| walk_step (p : slice) (sz : Z) (recs : list slice) (e : slice) :
    read_u32 p 0 = Ok sz -> 0 < sz ->
    record_walk (skipn (Z.to_nat sz) p) recs e ->
    record_walk p (p :: recs) e.

(** The record at [p] is large enough for its header and its revision
    ID. *)
Definition record_fits (p : slice) : bool :=
  match read_u32 p 0, read_u8 p 7 with
  | Ok sz, Ok len => 8 + len <=? sz
  | _, _ => false
  end.

(** The varints that [nodeFromRawNode] reads for the record at [p] end
    in the blob when they are read from the bytes after the revision
    ID without regard to the end of the record. *)
Definition varints_end (p : slice) : bool :=
  match read_u8 p 7, read_u8 p 6 with
  | Ok len, Ok fl =>
      match GetUVarInt (skipn (8 + Z.to_nat len) p) with
      | Some (nBytes, _) =>
          has_flag fl kRevNodeHasData
          || negb (has_flag fl kRevNodeHasBodyOffset)
          || match GetUVarInt (skipn (8 + Z.to_nat len + nBytes) p) with
             | Some _ => true
             | None => false
             end
      | None => false
      end
  | _, _ => false
  end.

(** No read for the record at [p] leaves the blob: the record is large
    enough for its header and its revision ID, or it is not and the
    varints read past its end end in the blob. *)
Definition reads_inside (p : slice) : bool := record_fits p || varints_end p.

(** The eight bytes [encode] puts before the revision ID. *)
Definition header (sz par fl len : Z) : slice :=
  put_u32 sz ++ put_u16 par ++ [byte.of_Z fl; byte.of_Z len].

(** A node whose record [decode] reads back as [encode] wrote it, and
    [encode] then writes again unchanged: the machine integers are in
    range, the revision ID fits the one-byte length, the record fits the
    32-bit size, an inline body stays only on a leaf, and a zero
    sequence is only decoded with a zero default. *)
Definition roundTrips (seq : Z) (n : RevNode) : bool :=
  (size (revID n) <=? 255)
  && ((0 <=? parentIndex n) && (parentIndex n <? 2 ^ 16))
  && ((0 <=? sequence n) && (sequence n <? 2 ^ 64))
  && ((0 <=? oldBodyOffset n) && (oldBodyOffset n <? 2 ^ 64))
  && (sizeForRawNode n <? 2 ^ 32)
  && implb (0 <? size (data n)) (isLeaf n)
  && implb (sequence n =? 0) (seq =? 0).

(** The node [decode] makes of the record of [n]. *)
Definition decoded (seq : Z) (n : RevNode) : RevNode :=
  mkRevNode (revID n) (parentIndex n)
    (Z.land (flags n) kRevNodePublicPersistentFlags)
    (if sequence n =? 0 then seq else sequence n)
    (if 0 <? size (data n) then 0 else oldBodyOffset n)
    (data n).

(** What follows the sequence in the record of [n]. *)
Definition payload (n : RevNode) : slice :=
  if 0 <? size (data n) then data n
  else if 0 <? oldBodyOffset n then PutUVarInt (oldBodyOffset n)
  else [].

(** [encode] of the tree [decode] makes of the blob. *)
Definition reencode (std_sort : list RevNode -> list RevNode) (b : slice)
    (seq docOffset : Z) : outcome slice :=
  t <- RevTree_of b seq docOffset ;;
  '(_, b') <- encode std_sort t ;;
  Ok b'.

(** What [encode] returns for the trees of the scenarios. *)
Definition encoded_1aa : RevTree * slice :=
  match encode insertion_sort tree_1aa with
  | Ok r => r
  | Stop _ => (empty_tree, [])
  end.

(** The blob a second [encode] gives, the empty one if there is none. *)
Definition reencoded (b : slice) (seq : Z) : slice :=
  match reencode insertion_sort b seq 0 with
  | Ok b' => b'
  | Stop _ => []
  end.

Definition encoded_2bb : RevTree * slice :=
  match encode insertion_sort tree_2bb with
  | Ok r => r
  | Stop _ => (empty_tree, [])
  end.

(** [tree_2bb] saved with sequence 7 and loaded again. *)
Definition reloaded_2bb : RevTree :=
  match RevTree_of (snd encoded_2bb) 7 0 with
  | Ok t => t
  | Stop _ => empty_tree
  end.

Definition encoded_reloaded_2bb : RevTree * slice :=
  match encode insertion_sort reloaded_2bb with
  | Ok r => r
  | Stop _ => (empty_tree, [])
  end.

(** ** Further properties *)

(** The bytes are all ASCII digits. *)
Definition all_digits (s : slice) : bool :=
  forallb (fun x => isdigit (byte.unsigned x)) s.

(** The number a string of digits denotes. *)
Fixpoint decimal_from (s : slice) (acc : Z) : Z :=
  match s with
  | [] => acc
  | x :: s' => decimal_from s' (10 * acc + (byte.unsigned x - 48))
  end.

Definition decimal (s : slice) : Z := decimal_from s 0.

(** The dash between generation and digest. *)
Definition dash : byte := Byte.x2d.

(** [tree_2bb] with the deleted leaf "3-cc" below "2-bb". *)
Definition tree_3cc : RevTree :=
  tree_of (insert checked tree_2bb (bytes "3-cc") (bytes "c") true (Some (bytes "2-bb")) false).

(** A node that [compact] keeps: its revision ID has not been emptied. *)
Definition survives (n : RevNode) : bool := 0 <? size (revID n).

(** The node with its parent link left out of the comparison. *)
Definition unlinked (n : RevNode) : RevNode := set_parentIndex n 0.

(** [tree_2bb] with its root marked, as [prune] marks nodes. *)
Definition tree_2bb_marked : RevTree :=
  set_nodes tree_2bb
    (match update (_nodes tree_2bb) 0 markNode with
     | Ok ns => ns
     | Stop _ => []
     end).

Definition tree_2bb_compacted : RevTree :=
  match compact tree_2bb_marked with
  | Ok t => t
  | Stop _ => empty_tree
  end.

(** An ID that [purge] passes over: it is not in the tree, or names a
    node that is no leaf. *)
Definition notPurgeable (ns : list RevNode) (r : slice) : bool :=
  match get_from ns r 0 with
  | None => true
  | Some i =>
      match nth_error ns i with
      | Some n => negb (isLeaf n)
      | None => true
      end
  end.

(** The sizes of the records of the nodes, added up. *)
Definition sumSizes (ns : list RevNode) : Z :=
  fold_right (fun n acc => sizeForRawNode n + acc) 0 ns.

(** A node whose record holds it in full: the revision ID fits the
    one-byte length, the record the 32-bit size, and the integers are in
    their machine ranges. *)
Definition encodable (n : RevNode) : bool :=
  (size (revID n) <=? 255)
  && ((0 <=? parentIndex n) && (parentIndex n <? 2 ^ 16))
  && ((0 <=? sequence n) && (sequence n <? 2 ^ 64))
  && ((0 <=? oldBodyOffset n) && (oldBodyOffset n <? 2 ^ 64))
  && (sizeForRawNode n <? 2 ^ 32).

(** What every node that [decode] filled in looks like: only the
    persistent flags, a 16-bit parent index, a revision ID of at most
    255 bytes, an inline body or a body offset but not both, and a zero
    sequence only when the default is zero. *)
Definition decodedShape (seq : Z) (n : RevNode) : bool :=
  ((0 <=? flags n) && (flags n <=? 3))
  && negb (isNew n)
  && ((0 <=? parentIndex n) && (parentIndex n <? 2 ^ 16))
  && (size (revID n) <=? 255)
  && ((size (data n) =? 0) || (oldBodyOffset n =? 0))
  && implb (sequence n =? 0) (seq =? 0).

(** ** The replicator's use of the history ([DBActor.cc]) *)

(** [DBActor::_sendRevision], the loop that writes the revision history.
    The document is taken as the revision IDs that successive calls of
    [c4doc_selectParentRevision] select, in order, the call after the
    last of them returning false; [n] counts the rounds and
    [historyStream] is what has been written so far. *)
Fixpoint sendRevision_history (parents ancestors : list string) (maxHistory n : Z)
    (historyStream : string) : string :=
  if n <? maxHistory then
    match parents with
    | [] => historyStream
    | revID :: parents' =>
        let historyStream :=
          if 0 <? n then String.append historyStream "," else historyStream in
        let historyStream := String.append historyStream revID in
        if existsb (String.eqb revID) ancestors then historyStream
        else sendRevision_history parents' ancestors maxHistory (n + 1) historyStream
    end
  else historyStream.

(** The revisions from the parent on, up to and with the first one the
    peer is known to have. *)
Fixpoint uptoKnown (parents ancestors : list string) : list string :=
  match parents with
  | [] => []
  | revID :: parents' =>
      revID :: (if existsb (String.eqb revID) ancestors then []
                else uptoKnown parents' ancestors)
  end.

(** [DBActor::handleChanges], the loop over the entries of a "changes"
    message.  An entry is taken as what the loop learns of it: it has no
    document or revision ID, or [findAncestors] found the revision, or
    it did not and left these known ancestors. *)
Inductive change : Type :=
| InvalidEntry
| KnownRev
| UnknownRev (ancestors : list slice).

(** What the JSON encoder of the response is given. *)
Inductive written : Type :=
| WriteInt0
| WriteArray (ancestors : list slice).

(** What a handler does about the response to its request: an error,
    the checkpoint ("rev" property and body), the answer to a "changes"
    message ("maxRevs" property and the JSON array of the body), or
    nothing. *)
Inductive reply : Type :=
| RespondError (domain : string) (code : Z)
| Respond (rev body : slice)
| RespondChanges (maxRevs : Z) (jsonBody : list written)
| NoReply.

(** [while (++itemsWritten < i) encoder.writeInt(0);] *)
Fixpoint writeZeros (fuel : nat) (itemsWritten i : Z) (encoder : list written)
  : outcome (Z * list written) :=
  match fuel with
  | O => Stop OutOfFuel
  | S fuel' =>
      let itemsWritten := (itemsWritten + 1) mod 2 ^ 32 in
      if itemsWritten <? i then writeZeros fuel' itemsWritten i (encoder ++ [WriteInt0])
      else Ok (itemsWritten, encoder)
  end.

(** The loop over the entries; [None] is the [return] at an invalid
    entry, and otherwise what the encoder was given comes back with the
    count [requested]. *)
Fixpoint handleChanges_loop (fuel : nat) (changes : list change)
    (i itemsWritten requested : Z) (encoder : list written)
  : outcome (option (list written * Z)) :=
  match changes with
  | [] => Ok (Some (encoder, requested))
  | InvalidEntry :: _ => Ok None
  | KnownRev :: rest =>
      handleChanges_loop fuel rest ((i + 1) mod 2 ^ 32) itemsWritten requested encoder
  | UnknownRev ancestors :: rest =>
      let requested := (requested + 1) mod 2 ^ 32 in
      '(itemsWritten, encoder) <- writeZeros fuel itemsWritten i encoder ;;
      handleChanges_loop fuel rest ((i + 1) mod 2 ^ 32) itemsWritten requested
        (encoder ++ [WriteArray ancestors])
  end.

(** [handleChanges]: [changes] is the body of the request as a JSON
    array, if it is one, [noReply] the flag of the request and
    [maxRevTreeDepth] what [c4db_getMaxRevTreeDepth] gives.  The count
    [requested] goes to the log only. *)
Definition handleChanges (fuel : nat) (changes : option (list change)) (noReply : bool)
    (maxRevTreeDepth : Z) : outcome reply :=
  match changes with
  | None => Ok (RespondError "BLIP" 400)
  | Some changes =>
      if noReply then Ok NoReply
      else
        r <- handleChanges_loop fuel changes 0 0 0 [] ;;
        match r with
        | None => Ok NoReply
        | Some (encoder, requested) => Ok (RespondChanges maxRevTreeDepth encoder)
        end
  end.

(** The entry of the response that belongs at the place of a change:
    the known ancestors of a revision that is asked for, 0 for one that
    is not. *)
Definition entryFor (c : change) : written :=
  match c with
  | UnknownRev ancestors => WriteArray ancestors
  | _ => WriteInt0
  end.

(** The list without the zeros at its end. *)
Fixpoint trimZeros (l : list written) : list written :=
  match l with
  | [] => []
  | x :: l' =>
      match x, trimZeros l' with
      | WriteInt0, [] => []
      | _, t => x :: t
      end
  end.

(** The list without its first zero. *)
Fixpoint dropFirstZero (l : list written) : list written :=
  match l with
  | [] => []
  | WriteInt0 :: l' => l'
  | x :: l' => x :: dropFirstZero l'
  end.

Definition isInvalid (c : change) : bool :=
  match c with
  | InvalidEntry => true
  | _ => false
  end.

Definition isUnknown (c : change) : bool :=
  match c with
  | UnknownRev _ => true
  | _ => false
  end.

(** A node that [compact] drops. *)
Definition gone (n : RevNode) : bool := negb (survives n).

(** The entries of [l] at the places where [kept] is true. *)
Definition select {A : Type} (kept : list bool) (l : list A) : list A :=
  map snd (filter fst (combine kept l)).

(** [ns'] is [ns] with some nodes marked as [prune] marks them. *)
Definition marks (ns ns' : list RevNode) : Prop :=
  Forall2 (fun n n' => n' = n \/ n' = markNode n) ns ns'.

(** [tree_two_forks] pruned to depth 2: the root "1-aa" goes. *)
Definition tree_two_forks_pruned : RevTree :=
  match prune 5 tree_two_forks 2 with
  | Ok (t, _) => t
  | Stop _ => empty_tree
  end.

(** [DBActor::_getChanges], the loop
    [while (c4enum_next(e, &error) && limit-- > 0)] over the changes
    that the enumerator yields before [c4enum_next] returns false.  It
    gives the changes collected, what is left in the enumerator and the
    counter. *)
Fixpoint getChanges_loop {Rev : Type} (e : list Rev) (limit : Z) (changes : list Rev)
  : list Rev * list Rev * Z :=
  match e with
  | [] => (changes, [], limit)
  | info :: e' =>
      let more := 0 <? limit in
      let limit := (limit - 1) mod 2 ^ 32 in
      if more then getChanges_loop e' limit (changes ++ [info])
      else (changes, e', limit)
  end.

(** [_getChanges] with the enumerator that [c4db_enumerateChanges]
    returned, if any: the changes passed to [gotChanges], and whether
    there is a change observer afterwards. *)
Definition _getChanges {Rev : Type} (e : option (list Rev)) (limit : Z) (continuous : bool)
    (_changeObserver : bool) : list Rev * bool :=
  let changes :=
    match e with
    | Some e => fst (fst (getChanges_loop e limit []))
    | None => []
    end in
  let _changeObserver :=
    if continuous && (match changes with [] => true | _ => false end)
       && negb _changeObserver
    then true else _changeObserver in
  (changes, _changeObserver).

Record C4RawDocument : Type := mkRawDocument { meta : slice; body : slice }.

Record C4Error : Type := mkError { domain : Z; code : Z }.

Section Checkpoints.

(** The constants of the C API. *)
Variables LiteCoreDomain kC4ErrorNotFound : Z.

Definition isNotFoundError (err : C4Error) : bool :=
  (domain err =? LiteCoreDomain) && (code err =? kC4ErrorNotFound).

(** [DBActor::handleGetCheckpoint], with the "client" property of the
    request, if it has one, and the outcome of [c4raw_get]. *)
Definition handleGetCheckpoint (client : option slice)
    (c4raw_get : slice -> C4RawDocument + C4Error) : reply :=
  match client with
  | None => RespondError "BLIP" 400
  | Some checkpointID =>
      match c4raw_get checkpointID with
      | inl doc => Respond (meta doc) (body doc)
      | inr err =>
          if isNotFoundError err
          then RespondError "HTTP" (if isNotFoundError err then 404 else 502)
          else NoReply
      end
  end.

End Checkpoints.

(** ** Revision IDs: proofs *)

Lemma slice_compare_antisym (a b : slice) : slice_compare a b = - slice_compare b a.
Proof.
  revert b; induction a as [|x a IH]; intros [|y b]; simpl; try reflexivity.
  destruct (Z.ltb_spec (byte.unsigned x) (byte.unsigned y));
    destruct (Z.ltb_spec (byte.unsigned y) (byte.unsigned x)); try lia.
  apply IH.
Qed.

Lemma slice_compare_range (a b : slice) :
  slice_compare a b = -1 \/ slice_compare a b = 0 \/ slice_compare a b = 1.
Proof.
  revert b; induction a as [|x a IH]; intros [|y b]; simpl; auto.
  destruct (byte.unsigned x <? byte.unsigned y); auto.
  destruct (byte.unsigned y <? byte.unsigned x); auto.
Qed.

Lemma slice_compare_trans (a b c : slice) :
  slice_compare a b <= 0 -> slice_compare b c <= 0 -> slice_compare a c <= 0.
Proof.
  revert b c; induction a as [|x a IH]; intros [|y b] [|z c]; simpl; try lia.
  destruct (Z.ltb_spec (byte.unsigned x) (byte.unsigned y));
    destruct (Z.ltb_spec (byte.unsigned y) (byte.unsigned x));
    destruct (Z.ltb_spec (byte.unsigned y) (byte.unsigned z));
    destruct (Z.ltb_spec (byte.unsigned z) (byte.unsigned y));
    destruct (Z.ltb_spec (byte.unsigned x) (byte.unsigned z));
    destruct (Z.ltb_spec (byte.unsigned z) (byte.unsigned x));
    try lia.
  apply IH.
Qed.

Lemma compareRevIDs_antisym (a b : slice) : compareRevIDs a b = - compareRevIDs b a.
Proof.
  unfold compareRevIDs.
  destruct (RevIDParse a) as [[g1 d1]|], (RevIDParse b) as [[g2 d2]|];
    try apply slice_compare_antisym.
  destruct (Z.ltb_spec g2 g1), (Z.ltb_spec g1 g2); try lia.
  apply slice_compare_antisym.
Qed.

Lemma compareRevIDs_range (a b : slice) :
  compareRevIDs a b = -1 \/ compareRevIDs a b = 0 \/ compareRevIDs a b = 1.
Proof.
  unfold compareRevIDs.
  destruct (RevIDParse a) as [[g1 d1]|], (RevIDParse b) as [[g2 d2]|];
    try apply slice_compare_range.
  destruct (g2 <? g1); auto. destruct (g1 <? g2); auto.
  apply slice_compare_range.
Qed.

Lemma compareRevIDs_trans_same_kind (a b c : slice) :
  proper a = proper b -> proper b = proper c ->
  compareRevIDs a b <= 0 -> compareRevIDs b c <= 0 -> compareRevIDs a c <= 0.
Proof.
  unfold proper, compareRevIDs.
  destruct (RevIDParse a) as [[g1 d1]|], (RevIDParse b) as [[g2 d2]|],
    (RevIDParse c) as [[g3 d3]|]; try discriminate; intros _ _;
    try apply slice_compare_trans.
  destruct (Z.ltb_spec g2 g1), (Z.ltb_spec g1 g2), (Z.ltb_spec g3 g2),
    (Z.ltb_spec g2 g3), (Z.ltb_spec g3 g1), (Z.ltb_spec g1 g3); try lia.
  apply slice_compare_trans.
Qed.

(** C9, as stated, fails: "10-a" sorts before "5" and "5" before "9-a",
    both as plain text because "5" is no proper revision ID, while
    "10-a" sorts after "9-a" by generation. *)
Lemma compareRevIDs_not_transitive :
  compareRevIDs (bytes "10-a") (bytes "5") <= 0 /\
  compareRevIDs (bytes "5") (bytes "9-a") <= 0 /\
  ~ compareRevIDs (bytes "10-a") (bytes "9-a") <= 0.
Proof. vm_compute. repeat split; discriminate || (intros H; apply H; reflexivity). Qed.

(** C9, amended: [compareRevIDs a b = - compareRevIDs b a], the result is
    -1, 0 or +1, any two IDs are comparable, and the order is transitive
    over IDs that are all proper revision IDs or all improper. *)
Theorem compareRevIDs_order (a b c : slice) :
  compareRevIDs a b = - compareRevIDs b a /\
  (compareRevIDs a b = -1 \/ compareRevIDs a b = 0 \/ compareRevIDs a b = 1) /\
  (compareRevIDs a b <= 0 \/ compareRevIDs b a <= 0) /\
  (proper a = proper b -> proper b = proper c ->
   compareRevIDs a b <= 0 -> compareRevIDs b c <= 0 -> compareRevIDs a c <= 0).
Proof.
  split; [apply compareRevIDs_antisym|].
  split; [apply compareRevIDs_range|].
  split; [|apply compareRevIDs_trans_same_kind].
  rewrite (compareRevIDs_antisym b a). lia.
Qed.

(** The order on three proper IDs: "1-a", "2-b", "10-a". *)
Lemma compareRevIDs_order_witness :
  proper (bytes "1-a") = proper (bytes "2-b") /\
  proper (bytes "2-b") = proper (bytes "10-a") /\
  compareRevIDs (bytes "1-a") (bytes "2-b") <= 0 /\
  compareRevIDs (bytes "2-b") (bytes "10-a") <= 0 /\
  compareRevIDs (bytes "1-a") (bytes "10-a") <= 0.
Proof.
  split; [reflexivity|]. split; [reflexivity|].
  split; [vm_compute; discriminate|]. split; [vm_compute; discriminate|].
  apply (proj2 (proj2 (proj2 (compareRevIDs_order (bytes "1-a") (bytes "2-b") (bytes "10-a")))));
    vm_compute; reflexivity || discriminate.
Defined.

(** C6, as stated, fails: "1" is not empty and is rejected, through the
    textual parse its leading digit selects. *)
Lemma RevIDParseCompacted_rejects_digit_only :
  bytes "1" <> [] /\ RevIDParseCompacted (bytes "1") = Ok None.
Proof. split; [discriminate | reflexivity]. Qed.

(** C6, amended: on a non-empty input whose first byte is a digit the
    result is that of [RevIDParse], which may be a failure; on any other
    non-empty input the parse succeeds with generation [b] (below '0') or
    [b - 10] (above '9') and the remaining bytes as suffix. *)
Theorem RevIDParseCompacted_spec (b0 : byte) (tail : slice) :
  RevIDParseCompacted (b0 :: tail) =
  Ok (if isdigit (byte.unsigned b0) then RevIDParse (b0 :: tail)
      else Some (if byte.unsigned b0 <? 48 then byte.unsigned b0
                 else byte.unsigned b0 - 10, tail)).
Proof.
  unfold RevIDParseCompacted, isdigit.
  destruct (Z.leb_spec 48 (byte.unsigned b0)), (Z.leb_spec (byte.unsigned b0) 57);
    simpl; try reflexivity.
  all: destruct (Z.ltb_spec 57 (byte.unsigned b0)), (Z.ltb_spec (byte.unsigned b0) 48);
    try lia; reflexivity.
Qed.

(** ** Tree operations: proofs *)

(** Scenarios of the specification the model is run on: a parent of
    the wrong generation is refused and the tree stays as it was; of two
    active leaves of one generation the higher ID is current; pruning a
    chain of ten to depth 3 removes seven nodes and leaves a chain of
    three that ends without a parent. *)
Example insert_generation_mismatch :
  insert checked tree_1aa (bytes "3-cc") (bytes "c") false (Some (bytes "1-aa")) true
  = Ok (tree_1aa, None).
Proof. vm_compute. reflexivity. Qed.

Example conflict_current_revision :
  hasConflict tree_fork = true /\
  map revID (currentNodes tree_fork) = [bytes "2-bb"; bytes "2-cc"] /\
  ('(_, n) <- currentNode insertion_sort tree_fork ;; Ok (revID n)) = Ok (bytes "2-cc").
Proof. vm_compute. repeat split. Qed.

Example prune_chain_of_ten :
  ('(t, n) <- prune 10 tree_chain10 3 ;;
   Ok (n, map (fun n => (revID n, parentIndex n)) (_nodes t)))
  = Ok (7, [(bytes "8-h", kNoParent); (bytes "9-i", 0); (bytes "10-j", 1)]).
Proof. vm_compute. reflexivity. Qed.

(** C1: the scenario does not return 3.  [insertHistory] takes the
    position of the common ancestor in [history], 3, for its position in
    the tree, which has one node: [indexOf] fails its assertion, and
    without assertions [_insert] clears the leaf flag of a node that is
    not there. *)
Theorem insertHistory_scenario_faults (cfg : build) (body : slice) :
  insertHistory cfg tree_1aa
    [bytes "4-dd"; bytes "3-cc"; bytes "2-bb"; bytes "1-aa"] body false
  = Stop (if NDEBUG cfg then OutOfBounds else AssertionFailure).
Proof. destruct cfg as [d [|]]; reflexivity. Qed.

Lemma at_index_kNoParent (table : list Z) :
  size table <= 65535 -> at_index table kNoParent = Stop OutOfBounds.
Proof.
  unfold at_index, size; intros H.
  change (kNoParent <? 0) with false; cbv iota.
  assert (nth_error table (Z.to_nat kNoParent) = None) as ->; [|reflexivity].
  apply nth_error_None. unfold kNoParent. lia.
Qed.

Lemma at_index_faults {A : Type} (l : list A) (i : Z) (f : fault) :
  at_index l i = Stop f -> f = OutOfBounds.
Proof.
  unfold at_index. destruct (i <? 0); [congruence|].
  destruct (nth_error l (Z.to_nat i)); congruence.
Qed.

Lemma compact_map_length (ns : list RevNode) (j : Z) :
  length (compact_map ns j) = length ns.
Proof.
  revert j; induction ns as [|n ns IH]; intros j; simpl; [reflexivity|].
  destruct (0 <? size (revID n)); simpl; rewrite IH; reflexivity.
Qed.

Lemma compact_slide_root (table : list Z) (ns : list RevNode) (n : RevNode) :
  size table <= 65535 -> In n ns -> 0 < size (revID n) -> parentIndex n = kNoParent ->
  compact_slide table ns = Stop OutOfBounds.
Proof.
  intros Ht Hin Hs Hp. induction ns as [|m ns IH]; [destruct Hin|].
  simpl. destruct Hin as [->|Hin].
  - apply Z.ltb_lt in Hs. rewrite Hs, Hp, at_index_kNoParent by assumption. reflexivity.
  - specialize (IH Hin). rewrite IH.
    destruct (0 <? size (revID m)); [|reflexivity].
    destruct (at_index table (parentIndex m)) as [p|f] eqn:E; simpl; [reflexivity|].
    apply at_index_faults in E. congruence.
Qed.

(** C2: [compact] looks the sentinel up like any index.  On a tree of at
    most 65535 nodes, one surviving node without a parent makes it read
    entry 65535 of a table that has as many entries as the tree has
    nodes. *)
Theorem compact_reads_past_table (t : RevTree) (n : RevNode) :
  size (_nodes t) <= 65535 ->
  In n (_nodes t) -> 0 < size (revID n) -> parentIndex n = kNoParent ->
  compact t = Stop OutOfBounds.
Proof.
  intros Hsz Hin Hs Hp. unfold compact.
  erewrite compact_slide_root; eauto.
  unfold size in *. rewrite compact_map_length. assumption.
Qed.

(** The tree holding "1-aa" alone: its parent indexes are valid and
    [compact] reads past the table. *)
Lemma compact_reads_past_table_witness :
  parentsValid tree_1aa = true /\ compact tree_1aa = Stop OutOfBounds.
Proof.
  split; [reflexivity|].
  apply (compact_reads_past_table tree_1aa
           (mkRevNode (bytes "1-aa") kNoParent 5 0 0 (bytes "body"))).
  - vm_compute; discriminate.
  - left; reflexivity.
  - reflexivity.
  - reflexivity.
Defined.

(** C3: purging "2-bb", "1-aa" and "3-dd" from the tree with the forks
    1-aa <- {2-bb, 2-cc} and 2-cc <- {3-dd, 3-ee} leaves "2-cc" flagged
    [Leaf] and "3-ee" naming it as parent: purging "3-dd" promoted its
    parent without a look at the other child. *)
Theorem purge_promotes_parent_with_child :
  leafFlagsExact tree_two_forks = true /\
  purge 1 tree_two_forks [bytes "2-bb"; bytes "1-aa"; bytes "3-dd"] =
    Ok (mkRevTree [mkRevNode (bytes "2-cc") kNoParent (Z.lor kLeaf kNew) 0 0 (bytes "z");
                   mkRevNode (bytes "3-ee") 0 (Z.lor kLeaf kNew) 0 0 (bytes "e")]
                  0 false true, 3) /\
  leafFlagsExact
    (mkRevTree [mkRevNode (bytes "2-cc") kNoParent (Z.lor kLeaf kNew) 0 0 (bytes "z");
                mkRevNode (bytes "3-ee") 0 (Z.lor kLeaf kNew) 0 0 (bytes "e")]
               0 false true) = false.
Proof. repeat split. Qed.

(** C7, as stated, fails for the overload that takes the parent as a
    node: "1-aa" is in the tree and is inserted a second time, whether
    assertions are compiled in or not; a [DEBUG] build stops at its
    assertion instead of returning. *)
Lemma insert_node_accepts_duplicate :
  get tree_1aa (bytes "1-aa") = Some 0%nat /\
  insert_node release tree_1aa (bytes "1-aa") (bytes "x") false None true
  = Ok (mkRevTree (_nodes tree_1aa
                   ++ [mkRevNode (bytes "1-aa") kNoParent (Z.lor kLeaf kNew) 0 0 (bytes "x")])
                  0 false true, Some 1%nat) /\
  insert_node checked tree_1aa (bytes "1-aa") (bytes "x") false None true
  = insert_node release tree_1aa (bytes "1-aa") (bytes "x") false None true /\
  insert_node (mkBuild true false) tree_1aa (bytes "1-aa") (bytes "x") false None true
  = Stop AssertionFailure.
Proof. repeat split. Qed.

(** C7, amended: the overload of [insert] that takes the parent by its
    revision ID returns null and leaves the tree as it is when the new
    ID is already in the tree. *)
Theorem insert_rejects_present (cfg : build) (t : RevTree) (rev body : slice)
    (deleted : bool) (parentRevID : option slice) (allowConflict : bool) :
  get t rev <> None ->
  insert cfg t rev body deleted parentRevID allowConflict = Ok (t, None).
Proof.
  intros H. unfold insert. destruct (get t rev); [reflexivity|congruence].
Qed.

(** "1-aa" is offered again, as a child of "2-bb". *)
Lemma insert_rejects_present_witness :
  get tree_2bb (bytes "1-aa") <> None /\
  insert checked tree_2bb (bytes "1-aa") (bytes "x") true (Some (bytes "2-bb")) true
  = Ok (tree_2bb, None).
Proof.
  split; [vm_compute; discriminate|].
  apply (insert_rejects_present checked tree_2bb (bytes "1-aa") (bytes "x") true
           (Some (bytes "2-bb")) true).
  vm_compute; discriminate.
Defined.

(** C10: [prune] returns 0 and the tree as it was when [maxDepth] is 0
    or is not below the number of nodes. *)
Theorem prune_within_depth (fuel : nat) (t : RevTree) (maxDepth : Z) :
  maxDepth = 0 \/ size (_nodes t) <= maxDepth ->
  prune fuel t maxDepth = Ok (t, 0).
Proof.
  intros H. unfold prune.
  assert ((maxDepth =? 0) || (size (_nodes t) <=? maxDepth) = true) as ->; [|reflexivity].
  apply orb_true_iff. destruct H as [H|H]; [left; apply Z.eqb_eq | right; apply Z.leb_le]; exact H.
Qed.

(** The tree of five nodes at depths 0 and 5. *)
Lemma prune_within_depth_witness :
  (0 = 0 \/ size (_nodes tree_two_forks) <= 0) /\
  (5 = 0 \/ size (_nodes tree_two_forks) <= 5) /\
  prune 0 tree_two_forks 0 = Ok (tree_two_forks, 0) /\
  prune 0 tree_two_forks 5 = Ok (tree_two_forks, 0).
Proof.
  split; [left; reflexivity|].
  split; [right; vm_compute; discriminate|].
  split.
  - apply (prune_within_depth 0 tree_two_forks 0). left; reflexivity.
  - apply (prune_within_depth 0 tree_two_forks 5). right; vm_compute; discriminate.
Defined.

Lemma not_lt_active (x y : RevNode) :
  RevNode_lt y x = false -> isActive y = true -> isActive x = true.
Proof.
  unfold RevNode_lt, RevNode_compare, isActive.
  destruct (isLeaf x), (isLeaf y), (isDeleted x), (isDeleted y); simpl;
    intros H1 H2; try discriminate; reflexivity.
Qed.

Lemma sorted_inactive_rest (x : RevNode) (ns : list RevNode) (k : Z) :
  is_sorted (x :: ns) = true -> isActive x = false -> scanActive ns k = false.
Proof.
  revert x; induction ns as [|y ns IH]; intros x Hs Hx; [reflexivity|].
  simpl in Hs. apply andb_true_iff in Hs as [Hxy Hs].
  apply negb_true_iff in Hxy.
  assert (isActive y = false) as Hy.
  { destruct (isActive y) eqn:E; [|reflexivity].
    rewrite (not_lt_active x y Hxy E) in Hx. discriminate. }
  simpl. rewrite Hy. apply (IH y Hs Hy).
Qed.

Lemma scanActive_count (ns : list RevNode) (k : Z) :
  0 <= k <= 1 -> scanActive ns k = (1 <? k + countActive ns).
Proof.
  revert k; induction ns as [|n ns IH]; intros k Hk; unfold countActive, size in *;
    cbn [scanActive filter].
  - cbn [length]. symmetry. apply Z.ltb_ge. lia.
  - destruct (isActive n); [|apply IH; exact Hk].
    cbn [length]. destruct (Z.ltb_spec 1 (k + 1)) as [L|L].
    + symmetry. apply Z.ltb_lt. lia.
    + rewrite IH by lia. f_equal. lia.
Qed.

(** C8: on a vector in sorted order the two branches of [hasConflict]
    give the same answer, which is whether two or more nodes are
    active. *)
Theorem hasConflict_branches_agree (ns : list RevNode) (bodyOffset : Z) (changed : bool) :
  is_sorted ns = true ->
  hasConflict (mkRevTree ns bodyOffset true changed)
  = hasConflict (mkRevTree ns bodyOffset false changed)
  /\ hasConflict (mkRevTree ns bodyOffset false changed) = (2 <=? countActive ns).
Proof.
  intros Hs. split.
  2:{ unfold hasConflict; cbn [_nodes _sorted].
      destruct (Z.ltb_spec (size ns) 2) as [L|L].
      - symmetry. apply Z.leb_gt. unfold countActive, size in *.
        pose proof (filter_length_le isActive ns). lia.
      - rewrite scanActive_count by lia.
        destruct (Z.ltb_spec 1 (0 + countActive ns)), (Z.leb_spec 2 (countActive ns));
          try lia; reflexivity. }
  unfold hasConflict; simpl.
  destruct ns as [|a [|b rest]]; try reflexivity.
  assert ((size (a :: b :: rest) <? 2) = false) as ->.
  { apply Z.ltb_ge. unfold size. simpl length. lia. }
  cbn [nth_error].
  change (scanActive (a :: b :: rest) 0)
    with (if isActive a then scanActive (b :: rest) 1 else scanActive (b :: rest) 0).
  assert (is_sorted (a :: b :: rest) = true) as Hs' by exact Hs.
  simpl in Hs. apply andb_true_iff in Hs as [Hab Hs]. apply negb_true_iff in Hab.
  destruct (isActive a) eqn:Ea.
  - simpl. destruct (isActive b) eqn:Eb; [reflexivity|].
    symmetry. apply (sorted_inactive_rest b rest _ Hs Eb).
  - rewrite (sorted_inactive_rest a (b :: rest) 0 Hs' Ea).
    destruct (isActive b) eqn:Eb; [|reflexivity].
    rewrite (not_lt_active a b Hab Eb) in Ea. discriminate.
Qed.

(** The fork "1-aa" <- {"2-bb", "2-cc"} once sorted: two active leaves. *)
Lemma hasConflict_branches_agree_witness :
  is_sorted sorted_fork = true /\
  hasConflict (mkRevTree sorted_fork 0 true true) = true /\
  hasConflict (mkRevTree sorted_fork 0 false true) = true /\
  countActive sorted_fork = 2.
Proof.
  split; [reflexivity|].
  destruct (hasConflict_branches_agree sorted_fork 0 true eq_refl) as [E1 E2].
  rewrite E1, E2. repeat split.
Defined.

(** ** Decoding: proofs *)

Lemma read_u8_inv (p : slice) (i : nat) (v : Z) :
  read_u8 p i = Ok v -> (i < length p)%nat /\ 0 <= v < 256.
Proof.
  unfold read_u8. destruct (nth_error p i) as [x|] eqn:E; [|discriminate].
  intros [= <-]. split; [|apply byte.unsigned_range].
  apply nth_error_Some. congruence.
Qed.

Lemma read_u8_ok (p : slice) (i : nat) :
  (i < length p)%nat -> exists v, read_u8 p i = Ok v.
Proof.
  intros H. unfold read_u8. destruct (nth_error p i) as [x|] eqn:E; [eauto|].
  apply nth_error_None in E. lia.
Qed.

Lemma read_u8_fault (p : slice) (i : nat) (f : fault) :
  read_u8 p i = Stop f -> f = OutOfBounds.
Proof. unfold read_u8. destruct (nth_error p i); congruence. Qed.

Lemma read_u32_inv (p : slice) (sz : Z) :
  read_u32 p 0 = Ok sz -> (4 <= length p)%nat /\ 0 <= sz < 2 ^ 32.
Proof.
  unfold read_u32. simpl.
  destruct (read_u8 p 0) as [b0|] eqn:E0; [|discriminate].
  destruct (read_u8 p 1) as [b1|] eqn:E1; [|discriminate].
  destruct (read_u8 p 2) as [b2|] eqn:E2; [|discriminate].
  destruct (read_u8 p 3) as [b3|] eqn:E3; [|discriminate].
  simpl. intros [= <-].
  apply read_u8_inv in E0, E1, E2, E3. lia.
Qed.

Lemma read_u32_ok (p : slice) :
  (4 <= length p)%nat -> exists sz, read_u32 p 0 = Ok sz.
Proof.
  intros H. unfold read_u32. simpl.
  destruct (read_u8_ok p 0) as [b0 ->]; [lia|].
  destruct (read_u8_ok p 1) as [b1 ->]; [lia|].
  destruct (read_u8_ok p 2) as [b2 ->]; [lia|].
  destruct (read_u8_ok p 3) as [b3 ->]; [lia|].
  simpl. eauto.
Qed.

(** A fault of a composite read is the fault of one of its parts. *)
Ltac fault_of lem := intros [= <-]; eapply lem; eassumption.

Lemma read_u32_fault (p : slice) (i : nat) (f : fault) :
  read_u32 p i = Stop f -> f = OutOfBounds.
Proof.
  unfold read_u32.
  destruct (read_u8 p i) eqn:E0; simpl; [|fault_of read_u8_fault].
  destruct (read_u8 p (i + 1)) eqn:E1; simpl; [|fault_of read_u8_fault].
  destruct (read_u8 p (i + 2)) eqn:E2; simpl; [|fault_of read_u8_fault].
  destruct (read_u8 p (i + 3)) eqn:E3; simpl; [|fault_of read_u8_fault].
  discriminate.
Qed.

Lemma read_u16_fault (p : slice) (i : nat) (f : fault) :
  read_u16 p i = Stop f -> f = OutOfBounds.
Proof.
  unfold read_u16.
  destruct (read_u8 p i) eqn:E0; simpl; [|fault_of read_u8_fault].
  destruct (read_u8 p (i + 1)) eqn:E1; simpl; [|fault_of read_u8_fault].
  discriminate.
Qed.

Lemma read_u16_ok (p : slice) (i : nat) :
  (i + 2 <= length p)%nat -> exists v, read_u16 p i = Ok v.
Proof.
  intros H. unfold read_u16.
  destruct (read_u8_ok p i) as [b0 ->]; [lia|].
  destruct (read_u8_ok p (i + 1)) as [b1 ->]; [lia|].
  simpl. eauto.
Qed.

Lemma subslice_ok (p : slice) (start len : nat) :
  (start + len <= length p)%nat -> subslice p start len = Ok (firstn len (skipn start p)).
Proof.
  intros H. unfold subslice.
  destruct (Nat.leb_spec (start + len) (length p)); [reflexivity|lia].
Qed.

Lemma subslice_fault (p : slice) (start len : nat) (f : fault) :
  subslice p start len = Stop f -> f = OutOfBounds.
Proof. unfold subslice. destruct (start + len <=? length p)%nat; congruence. Qed.

Lemma GetUVarInt_from_bound (buf : slice) (shift acc : Z) (nRead n : nat) (v : Z) :
  GetUVarInt_from buf shift acc nRead = Some (n, v) -> (n <= nRead + length buf)%nat.
Proof.
  revert shift acc nRead; induction buf as [|x buf IH]; intros shift acc nRead; simpl;
    [discriminate|].
  destruct (128 <=? byte.unsigned x).
  - intros H. apply IH in H. lia.
  - intros [= <- _]. lia.
Qed.

Lemma record_walk_det (p : slice) (recs recs' : list slice) (e e' : slice) :
  record_walk p recs e -> record_walk p recs' e' -> recs = recs' /\ e = e'.
Proof.
  intros W; revert recs' e'; induction W as [p H|p sz recs e H Hsz W IH];
    intros recs' e' W'; inversion W' as [p' H'|p' sz' recs'' e'' H' Hsz' W'']; subst.
  - auto.
  - assert (sz' = 0) by congruence. lia.
  - assert (sz = 0) by congruence. lia.
  - assert (sz' = sz) by congruence. subst sz'.
    destruct (IH _ _ W'') as [-> ->]. auto.
Qed.

Lemma record_walk_bound (p : slice) (recs : list slice) (e : slice) :
  record_walk p recs e -> (length recs + 4 <= length p)%nat /\ (4 <= length e)%nat.
Proof.
  induction 1 as [p H|p sz recs e H Hsz W [IH1 IH2]].
  - apply read_u32_inv in H. simpl. lia.
  - split; [|assumption]. simpl.
    rewrite length_skipn in IH1. lia.
Qed.

Lemma count_of_walk (p : slice) (recs : list slice) (e : slice) :
  record_walk p recs e ->
  forall fuel c, (length recs < fuel)%nat -> 0 <= c < 2 ^ 32 ->
  countRawNodes_from fuel p c = Ok ((c + size recs) mod 2 ^ 32).
Proof.
  induction 1 as [p H|p sz recs e H Hsz W IH]; intros fuel c Hf Hc;
    (destruct fuel as [|fuel]; [simpl in Hf; lia|]); simpl; rewrite H; simpl.
  - unfold size; simpl. rewrite Z.add_0_r, Z.mod_small by lia. reflexivity.
  - assert ((0 <? sz) = true) as -> by (apply Z.ltb_lt; exact Hsz).
    rewrite IH.
    + f_equal. unfold size. simpl length. rewrite Zplus_mod_idemp_l. f_equal. lia.
    + simpl in Hf. lia.
    + apply Z.mod_pos_bound. lia.
Qed.

Lemma countRawNodes_of_walk (p : slice) (recs : list slice) (e : slice) :
  record_walk p recs e -> countRawNodes p = Ok (size recs mod 2 ^ 32).
Proof.
  intros W. unfold countRawNodes.
  rewrite (count_of_walk _ _ _ W) by (try apply record_walk_bound in W as [? ?]; lia).
  reflexivity.
Qed.

Lemma walk_of_count (fuel : nat) (p : slice) (c count : Z) :
  countRawNodes_from fuel p c = Ok count ->
  exists recs e, record_walk p recs e.
Proof.
  revert p c; induction fuel as [|fuel IH]; intros p c; simpl; [discriminate|].
  destruct (read_u32 p 0) as [sz|] eqn:H; simpl; [|discriminate].
  destruct (Z.ltb_spec 0 sz) as [Hsz|Hsz].
  - intros E. apply IH in E as (recs & e & W). exists (p :: recs), e.
    eapply walk_step; eauto.
  - intros _. exists [], p. apply walk_end.
    apply read_u32_inv in H as H'. replace sz with 0 in H by lia. exact H.
Qed.

Lemma countRawNodes_from_fault (fuel : nat) (p : slice) (c : Z) (f : fault) :
  countRawNodes_from fuel p c = Stop f -> f <> FileCorruption.
Proof.
  revert p c; induction fuel as [|fuel IH]; intros p c; simpl; [intros [= <-]; discriminate|].
  destruct (read_u32 p 0) as [sz|f'] eqn:H; simpl.
  - destruct (0 <? sz); [apply IH|discriminate].
  - intros [= <-]. apply read_u32_fault in H. subst; discriminate.
Qed.

Lemma upToEnd_fault (p : slice) (a b : nat) (f : fault) :
  upToEnd p a b = Stop f -> f = OutOfBounds.
Proof.
  unfold upToEnd. destruct (b <? a)%nat; [discriminate|].
  destruct (subslice p a (b - a)) as [buf|f'] eqn:E; cbn [bind];
    [discriminate|fault_of subslice_fault].
Qed.

Lemma getVarInt_fault (buf : slice * bool) (f : fault) :
  getVarInt buf = Stop f -> f = OutOfBounds.
Proof.
  unfold getVarInt. destruct (GetUVarInt (fst buf)); [discriminate|].
  destruct (snd buf); congruence.
Qed.

Lemma upToEnd_fitting (p : slice) (a b : nat) :
  (a <= b <= length p)%nat -> upToEnd p a b = Ok (firstn (b - a) (skipn a p), false).
Proof.
  intros H. unfold upToEnd. destruct (Nat.ltb_spec b a); [lia|].
  rewrite subslice_ok by lia. reflexivity.
Qed.

Lemma upToEnd_past (p : slice) (a b : nat) :
  (b < a)%nat -> upToEnd p a b = Ok (skipn a p, true).
Proof. intros H. unfold upToEnd. destruct (Nat.ltb_spec b a); [reflexivity|lia]. Qed.

Lemma getVarInt_bounded (buf : list byte) :
  exists r, getVarInt (buf, false) = Ok r /\
            match r with
            | Some (nBytes, _) => (nBytes <= length buf)%nat
            | None => True
            end.
Proof.
  unfold getVarInt, GetUVarInt. cbn [fst snd].
  destruct (GetUVarInt_from buf 0 0 0) as [[nb v]|] eqn:G.
  - exists (Some (nb, v)). split; [reflexivity|]. apply GetUVarInt_from_bound in G. lia.
  - exists None. auto.
Qed.

Lemma nodeFromRawNode_fault (p : slice) (dst : RevNode) (f : fault) :
  nodeFromRawNode p dst = Stop f -> f = OutOfBounds.
Proof.
  unfold nodeFromRawNode.
  destruct (read_u32 p 0) as [sz|f0] eqn:E0; cbn [bind];
    [|fault_of read_u32_fault].
  destruct (read_u8 p 7) as [len|f1] eqn:E1; cbn [bind];
    [|fault_of read_u8_fault].
  destruct (subslice p 8 (Z.to_nat len)) as [rev|f2] eqn:E2; cbn [bind];
    [|fault_of subslice_fault].
  destruct (read_u8 p 6) as [fl|f3] eqn:E3; cbn [bind];
    [|fault_of read_u8_fault].
  destruct (read_u16 p 4) as [par|f4] eqn:E4; cbn [bind].
  2:{ fault_of read_u16_fault. }
  destruct (upToEnd p (8 + Z.to_nat len) (Z.to_nat sz)) as [buf|f5] eqn:E5; cbn [bind];
    [|fault_of upToEnd_fault].
  destruct (getVarInt buf) as [r|f6] eqn:E6; cbn [bind]; [|fault_of getVarInt_fault].
  destruct (match r with
            | Some (nBytes, v) => (nBytes, v)
            | None => (0%nat, sequence dst)
            end) as [nBytes sq].
  destruct (has_flag fl kRevNodeHasData).
  - destruct (upToEnd p (8 + Z.to_nat len + nBytes) (Z.to_nat sz)) as [body|f7] eqn:E7;
      cbn [bind]; [discriminate|fault_of upToEnd_fault].
  - destruct (has_flag fl kRevNodeHasBodyOffset); [|discriminate].
    destruct (upToEnd p (8 + Z.to_nat len + nBytes) (Z.to_nat sz)) as [body|f7] eqn:E7;
      cbn [bind]; [|fault_of upToEnd_fault].
    destruct (getVarInt body) as [r'|f8] eqn:E8; cbn [bind];
      [discriminate|fault_of getVarInt_fault].
Qed.

Lemma nodeFromRawNode_inside (p : slice) (dst n : RevNode) :
  nodeFromRawNode p dst = Ok n -> reads_inside p = true.
Proof.
  unfold nodeFromRawNode, reads_inside, record_fits, varints_end.
  destruct (read_u32 p 0) as [sz|f0] eqn:E0; cbn [bind]; [|discriminate].
  destruct (read_u8 p 7) as [len|f1] eqn:E1; cbn [bind]; [|discriminate].
  destruct (subslice p 8 (Z.to_nat len)) as [rev|f2]; cbn [bind]; [|discriminate].
  destruct (read_u8 p 6) as [fl|f3]; cbn [bind]; [|discriminate].
  destruct (read_u16 p 4) as [par|f4]; cbn [bind]; [|discriminate].
  apply read_u32_inv in E0. apply read_u8_inv in E1.
  destruct (Z.leb_spec (8 + len) sz) as [L|L]; [reflexivity|]. cbn [orb].
  rewrite upToEnd_past by lia. cbn [bind]. unfold getVarInt at 1. cbn [fst snd].
  destruct (GetUVarInt (skipn (8 + Z.to_nat len) p)) as [[nBytes v]|]; [|discriminate].
  cbn [bind].
  destruct (has_flag fl kRevNodeHasData); [reflexivity|].
  destruct (has_flag fl kRevNodeHasBodyOffset); [|reflexivity]. cbn [orb negb].
  rewrite upToEnd_past by lia. cbn [bind]. unfold getVarInt. cbn [fst snd].
  destruct (GetUVarInt (skipn (8 + Z.to_nat len + nBytes) p)); [reflexivity|discriminate].
Qed.

Lemma GetUVarInt_nonempty (buf : slice) (r : nat * Z) :
  GetUVarInt buf = Some r -> (0 < length buf)%nat.
Proof. destruct buf; [discriminate|]. cbn [length]. lia. Qed.

Lemma nodeFromRawNode_ok (p : slice) (sz : Z) (dst : RevNode) :
  read_u32 p 0 = Ok sz -> (Z.to_nat sz <= length p)%nat -> reads_inside p = true ->
  exists n, nodeFromRawNode p dst = Ok n.
Proof.
  intros E0 Hin. unfold nodeFromRawNode, reads_inside, record_fits, varints_end.
  rewrite E0; cbn [bind].
  destruct (read_u8 p 7) as [len|f1] eqn:E1; cbn [bind]; [|discriminate].
  apply read_u32_inv in E0 as [_ Hsz]. apply read_u8_inv in E1 as [H8 Hlen].
  destruct (read_u8_ok p 6) as [fl ->]; [lia|]. cbn [bind].
  destruct (read_u16_ok p 4) as [par ->]; [lia|]. cbn [bind].
  destruct (Z.leb_spec (8 + len) sz) as [L|L]; cbn [orb].
  - intros _. rewrite subslice_ok by lia. cbn [bind].
    rewrite upToEnd_fitting by lia. cbn [bind].
    destruct (getVarInt_bounded
                (firstn (Z.to_nat sz - (8 + Z.to_nat len)) (skipn (8 + Z.to_nat len) p)))
      as (r & -> & Hr). cbn [bind].
    rewrite length_firstn, length_skipn in Hr.
    assert (exists nBytes sq,
               match r with
               | Some (nBytes, v) => (nBytes, v)
               | None => (0%nat, sequence dst)
               end = (nBytes, sq) /\
               (8 + Z.to_nat len + nBytes <= Z.to_nat sz)%nat) as (nBytes & sq & -> & Hn).
    { destruct r as [[nb v]|]; [exists nb, v|exists 0%nat, (sequence dst)];
        (split; [reflexivity|lia]). }
    destruct (has_flag fl kRevNodeHasData).
    + rewrite upToEnd_fitting by lia. cbn [bind]. eauto.
    + destruct (has_flag fl kRevNodeHasBodyOffset); [|eauto].
      rewrite upToEnd_fitting by lia. cbn [bind].
      destruct (getVarInt_bounded
                  (firstn (Z.to_nat sz - (8 + Z.to_nat len + nBytes))
                     (skipn (8 + Z.to_nat len + nBytes) p))) as (r' & -> & _).
      cbn [bind]. eauto.
  - rewrite upToEnd_past by lia. cbn [bind]. unfold getVarInt at 1. cbn [fst snd].
    destruct (GetUVarInt (skipn (8 + Z.to_nat len) p)) as [[nBytes v]|] eqn:G;
      [|discriminate].
    apply GetUVarInt_nonempty in G. rewrite length_skipn in G.
    rewrite subslice_ok by lia. cbn [bind].
    destruct (has_flag fl kRevNodeHasData).
    + intros _. rewrite upToEnd_past by lia. cbn [bind]. eauto.
    + destruct (has_flag fl kRevNodeHasBodyOffset); cbn [orb negb]; [|eauto].
      rewrite upToEnd_past by lia. cbn [bind]. unfold getVarInt. cbn [fst snd].
      destruct (GetUVarInt (skipn (8 + Z.to_nat len + nBytes) p)); [|discriminate].
      cbn [bind]. eauto.
Qed.

Lemma decode_nodes_fault (fuel : nat) (p : slice) (seq : Z) (dsts : list RevNode) (f : fault) :
  decode_nodes fuel p seq dsts = Stop f -> f <> FileCorruption.
Proof.
  revert p dsts; induction fuel as [|fuel IH]; intros p dsts; simpl;
    [intros [= <-]; discriminate|].
  destruct (read_u32 p 0) as [sz|f0] eqn:E0; simpl.
  2:{ intros [= <-]. apply read_u32_fault in E0. subst; discriminate. }
  destruct (0 <? sz); [|discriminate].
  destruct dsts as [|dst dsts]; [intros [= <-]; discriminate|].
  destruct (nodeFromRawNode p dst) as [n|f1] eqn:E1; simpl.
  2:{ intros [= <-]. apply nodeFromRawNode_fault in E1. subst; discriminate. }
  destruct (decode_nodes fuel (skipn (Z.to_nat sz) p) seq dsts) as [[ns e]|f2] eqn:E2; simpl;
    [discriminate|].
  intros [= <-]. eapply IH; eauto.
Qed.

Lemma walk_of_decode_nodes (fuel : nat) (p : slice) (seq : Z) (dsts ns : list RevNode)
    (e : slice) :
  decode_nodes fuel p seq dsts = Ok (ns, e) ->
  exists recs, record_walk p recs e /\ forallb reads_inside recs = true
               /\ (length recs <= length dsts)%nat.
Proof.
  revert p dsts ns; induction fuel as [|fuel IH]; intros p dsts ns; simpl; [discriminate|].
  destruct (read_u32 p 0) as [sz|f0] eqn:E0; simpl; [|discriminate].
  destruct (Z.ltb_spec 0 sz) as [Hsz|Hsz].
  - destruct dsts as [|dst dsts]; [discriminate|].
    destruct (nodeFromRawNode p dst) as [n|f1] eqn:E1; simpl; [|discriminate].
    destruct (decode_nodes fuel (skipn (Z.to_nat sz) p) seq dsts) as [[ns' e']|f2] eqn:E2;
      simpl; [|discriminate].
    intros [= <- <-]. apply IH in E2 as (recs & W & F & L).
    exists (p :: recs). split; [eapply walk_step; eauto|].
    split; [simpl; rewrite F, (nodeFromRawNode_inside _ _ _ E1); reflexivity|simpl; lia].
  - intros [= <- <-]. exists []. split; [|split; [reflexivity|simpl; lia]].
    apply walk_end. apply read_u32_inv in E0 as H'. replace sz with 0 in E0 by lia. exact E0.
Qed.

Lemma decode_nodes_of_walk (p : slice) (recs : list slice) (e : slice) :
  record_walk p recs e ->
  forall fuel seq dsts, forallb reads_inside recs = true ->
  (length recs < fuel)%nat -> (length recs <= length dsts)%nat ->
  exists ns, decode_nodes fuel p seq dsts = Ok (ns, e).
Proof.
  induction 1 as [p H|p sz recs e H Hsz W IH]; intros fuel seq dsts F Hf Hd;
    (destruct fuel as [|fuel]; [simpl in Hf; lia|]); simpl; rewrite H; simpl.
  - eauto.
  - assert ((0 <? sz) = true) as -> by (apply Z.ltb_lt; exact Hsz).
    destruct dsts as [|dst dsts]; [simpl in Hd; lia|].
    simpl in F. apply andb_true_iff in F as [F1 F2].
    destruct (nodeFromRawNode_ok p sz dst H) as [n ->]; [|exact F1|].
    { apply record_walk_bound in W as [W1 _]. rewrite length_skipn in W1. lia. }
    simpl.
    destruct (IH fuel seq dsts F2) as [ns ->]; [simpl in Hf; lia|simpl in Hd; lia|].
    simpl. eauto.
Qed.

Lemma resize_length (ns : list RevNode) (count : nat) : length (resize ns count) = count.
Proof.
  unfold resize. rewrite length_app, length_firstn, repeat_length. lia.
Qed.

(** C5, as stated, fails: in this blob the sequence varint of the one
    record is the single byte 0x80, which announces a byte that the
    record does not have; [decode] returns a tree all the same, with the
    default sequence in the node. *)
Lemma decode_accepts_unterminated_varint :
  GetUVarInt [byte.of_Z 128] = None /\
  decode empty_tree
    ([byte.of_Z 0; byte.of_Z 0; byte.of_Z 0; byte.of_Z 13;
      byte.of_Z 255; byte.of_Z 255; byte.of_Z 1; byte.of_Z 4]
     ++ bytes "1-aa" ++ [byte.of_Z 128]
     ++ [byte.of_Z 0; byte.of_Z 0; byte.of_Z 0; byte.of_Z 0]) 7 0
  = Ok (mkRevTree [mkRevNode (bytes "1-aa") kNoParent kLeaf 7 0 []] 0 true false).
Proof. split; reflexivity. Qed.

(** A record too small for its header and revision ID is not turned
    down either.  The first record here has size 8 and a revision ID of
    two bytes: the ID and the sequence are read from the bytes of the
    record that follows, and [decode] returns two nodes.  Left before
    five bytes instead of the four zero bytes, the same record has
    [decode] raise [FileCorruption], for the five bytes. *)
Lemma decode_reads_past_short_record :
  let short := map byte.of_Z [0; 0; 0; 8; 255; 255; 1; 2] in
  let record := map byte.of_Z [0; 0; 0; 13; 0; 0; 1; 4] ++ bytes "1-aa" ++ [byte.of_Z 5] in
  decode empty_tree (short ++ record ++ map byte.of_Z [0; 0; 0; 0]) 7 0
  = Ok (mkRevTree [mkRevNode (map byte.of_Z [0; 0]) kNoParent kLeaf 7 0 [];
                   mkRevNode (bytes "1-aa") 0 kLeaf 5 0 []] 0 true false) /\
  decode empty_tree (short ++ map byte.of_Z [0; 0; 0; 0; 9]) 7 0 = Stop FileCorruption.
Proof. split; vm_compute; reflexivity. Qed.

(** C5, amended: [decode] raises [FileCorruption] exactly when the
    record count exceeds 65535, or when the walk over the records does
    not stop exactly 4 bytes before the end of the blob and no read has
    left the blob before that is looked at ([reads_inside]: a record too
    small for its header and revision ID has its varints read from the
    bytes after it).  That a varint ends plays no part in it. *)
Theorem decode_FileCorruption_iff (t : RevTree) (raw_tree : slice) (seq docOffset : Z) :
  decode t raw_tree seq docOffset = Stop FileCorruption <->
  exists recs e, record_walk raw_tree recs e /\
    (65535 < size recs mod 2 ^ 32 \/
     (size recs <= 65535 /\ forallb reads_inside recs = true /\ size e <> 4)).
Proof.
  unfold decode. split.
  - destruct (countRawNodes raw_tree) as [count|f] eqn:C; cbn [bind].
    2:{ intros [= ->]. apply countRawNodes_from_fault in C. congruence. }
    destruct (walk_of_count _ _ _ _ C) as (recs & e & W).
    rewrite (countRawNodes_of_walk _ _ _ W) in C.
    assert (count = size recs mod 2 ^ 32) as -> by congruence. clear C.
    destruct (Z.ltb_spec 65535 (size recs mod 2 ^ 32)) as [Hc|Hc]; [eauto 6|].
    destruct (decode_nodes (S (length raw_tree)) raw_tree seq
                (resize (_nodes t) (Z.to_nat (size recs mod 2 ^ 32)))) as [[ns e']|f] eqn:D;
      cbn [bind].
    2:{ intros [= ->]. apply decode_nodes_fault in D. congruence. }
    destruct (Z.eqb_spec (size e') 4) as [He|He]; cbn [negb]; [discriminate|]. intros _.
    apply walk_of_decode_nodes in D as (recs' & W' & F & L).
    destruct (record_walk_det _ _ _ _ _ W W') as [<- <-].
    rewrite resize_length in L.
    exists recs, e. split; [exact W|right].
    assert (0 <= size recs mod 2 ^ 32 <= size recs).
    { split; [apply Z.mod_pos_bound; lia|apply Z.mod_le; unfold size; lia]. }
    unfold size in *. repeat split; try assumption; lia.
  - intros (recs & e & W & H).
    rewrite (countRawNodes_of_walk _ _ _ W). cbn [bind].
    destruct H as [H|(Hn & F & He)].
    + assert ((65535 <? size recs mod 2 ^ 32) = true) as -> by (apply Z.ltb_lt; exact H).
      reflexivity.
    + rewrite Z.mod_small by (unfold size in *; lia).
      assert ((65535 <? size recs) = false) as -> by (apply Z.ltb_ge; exact Hn).
      destruct (decode_nodes_of_walk _ _ _ W (S (length raw_tree)) seq
                  (resize (_nodes t) (Z.to_nat (size recs))) F) as [ns ->].
      * apply record_walk_bound in W as [? ?]; lia.
      * rewrite resize_length. unfold size. lia.
      * cbn [bind]. destruct (Z.eqb_spec (size e) 4); [contradiction|reflexivity].
Qed.

(** ** The codec: proofs *)

Lemma unsigned_of_Z_small (v : Z) : 0 <= v < 256 -> byte.unsigned (byte.of_Z v) = v.
Proof. intros H. rewrite byte.unsigned_of_Z. unfold byte.wrap. apply Z.mod_small. lia. Qed.

Lemma read_put_u32 (v : Z) (rest : slice) :
  0 <= v < 2 ^ 32 -> read_u32 (put_u32 v ++ rest) 0 = Ok v.
Proof.
  intros H. unfold read_u32, put_u32, read_u8. cbn [app nth_error Nat.add bind].
  rewrite !byte.unsigned_of_Z. unfold byte.wrap. f_equal.
  change (2 ^ 8) with 256.
  rewrite (Z.mod_small (v / 16777216)) by (split; [apply Z.div_pos; lia|apply Z.div_lt_upper_bound; lia]).
  Z.div_mod_to_equations. lia.
Qed.

Lemma read_put_u16 (a b c d : byte) (v : Z) (rest : slice) :
  0 <= v < 2 ^ 16 -> read_u16 (a :: b :: c :: d :: put_u16 v ++ rest) 4 = Ok v.
Proof.
  intros H. unfold read_u16, put_u16, read_u8. cbn [app nth_error Nat.add bind].
  rewrite !byte.unsigned_of_Z. unfold byte.wrap. f_equal.
  change (2 ^ 8) with 256.
  Z.div_mod_to_equations. lia.
Qed.

Lemma varint_bits (n shift : Z) :
  0 <= n -> 0 <= shift ->
  Z.lor (Z.shiftl (Z.land n 127) shift) (Z.shiftl (Z.shiftr n 7) (shift + 7))
  = Z.shiftl n shift.
Proof.
  intros Hn Hs. apply Z.bits_inj'. intros i Hi.
  rewrite Z.lor_spec, !Z.shiftl_spec by lia.
  destruct (Z.ltb_spec i shift) as [L|L].
  - rewrite !(Z.testbit_neg_r _ (i - _)) by lia. reflexivity.
  - rewrite Z.land_spec. change 127 with (Z.ones 7).
    destruct (Z.ltb_spec (i - shift) 7) as [M|M].
    + rewrite Z.ones_spec_low by lia.
      rewrite (Z.testbit_neg_r _ (i - (shift + 7))) by lia.
      rewrite andb_true_r, orb_false_r. reflexivity.
    + rewrite Z.ones_spec_high, Z.shiftr_spec by lia.
      replace (i - (shift + 7) + 7) with (i - shift) by lia.
      rewrite andb_false_r. reflexivity.
Qed.

Lemma land_127_small (n : Z) : 0 <= n < 128 -> Z.land n 127 = n.
Proof.
  intros H. change 127 with (Z.ones 7). rewrite Z.land_ones by lia.
  apply Z.mod_small. lia.
Qed.

Lemma lor_128_small (x : Z) : 0 <= x < 128 -> Z.lor x 128 = x + 128.
Proof.
  intros H.
  assert (Z.land x 128 = 0) as D.
  { apply Z.bits_inj'. intros i Hi.
    rewrite Z.land_spec, Z.bits_0. change 128 with (2 ^ 7).
    rewrite Z.pow2_bits_eqb by lia.
    destruct (Z.eqb_spec 7 i) as [<-|N]; [|apply andb_false_r].
    rewrite <- (Z.mod_small x (2 ^ 7)) by (change (2 ^ 7) with 128; lia).
    rewrite Z.mod_pow2_bits_high by lia. reflexivity. }
  rewrite <- Z.lxor_lor by exact D. symmetry. apply Z.add_nocarry_lxor. exact D.
Qed.

Lemma varint_group_byte (n : Z) :
  0 <= n ->
  byte.unsigned (byte.of_Z (Z.lor (Z.land n 127) 128)) = Z.land n 127 + 128 /\
  0 <= Z.land n 127 < 128.
Proof.
  intros H.
  assert (0 <= Z.land n 127 < 128) as B.
  { change 127 with (Z.ones 7). rewrite Z.land_ones by lia. apply Z.mod_pos_bound. lia. }
  split; [|exact B].
  rewrite lor_128_small by exact B.
  apply unsigned_of_Z_small. lia.
Qed.

Lemma PutUVarInt_groups_S (fuel : nat) (n : Z) :
  PutUVarInt_groups (S fuel) n
  = if n <? 128 then [byte.of_Z n]
    else byte.of_Z (Z.lor (Z.land n 127) 128) :: PutUVarInt_groups fuel (Z.shiftr n 7).
Proof. reflexivity. Qed.

Lemma GetUVarInt_from_Put (fuel : nat) :
  forall (n shift acc : Z) (nRead : nat) (tail : slice),
  0 <= n < 2 ^ (7 * Z.of_nat (S fuel)) -> 0 <= shift ->
  GetUVarInt_from (PutUVarInt_groups (S fuel) n ++ tail) shift acc nRead
  = Some ((nRead + length (PutUVarInt_groups (S fuel) n))%nat,
          Z.lor acc (Z.shiftl n shift) mod 2 ^ 64).
Proof.
  induction fuel as [|fuel IH]; intros n shift acc nRead tail Hn Hs.
  - change (7 * Z.of_nat 1) with 7 in Hn. change (2 ^ 7) with 128 in Hn.
    cbn [PutUVarInt_groups].
    assert ((n <? 128) = true) as -> by (apply Z.ltb_lt; lia).
    cbn [app GetUVarInt_from length]. rewrite unsigned_of_Z_small by lia.
    assert ((128 <=? n) = false) as -> by (apply Z.leb_gt; lia).
    rewrite land_127_small by lia. do 2 f_equal. lia.
  - rewrite PutUVarInt_groups_S. destruct (Z.ltb_spec n 128) as [L|L].
    + cbn [app GetUVarInt_from length]. rewrite unsigned_of_Z_small by lia.
      assert ((128 <=? n) = false) as -> by (apply Z.leb_gt; lia).
      rewrite land_127_small by lia. do 2 f_equal. lia.
    + destruct (varint_group_byte n) as [B1 B2]; [lia|].
      cbn [app GetUVarInt_from]. rewrite B1.
      assert ((128 <=? Z.land n 127 + 128) = true) as -> by (apply Z.leb_le; lia).
      assert (Z.land (Z.land n 127 + 128) 127 = Z.land n 127) as ->.
      { change 127 with (Z.ones 7). rewrite !Z.land_ones by lia.
        change (2 ^ 7) with 128. rewrite Zplus_mod, Z_mod_same_full, Z.add_0_r, !Zmod_mod.
        reflexivity. }
      rewrite IH.
      * f_equal. f_equal.
        -- cbn [length]. lia.
        -- rewrite <- Z.lor_assoc, varint_bits by lia. reflexivity.
      * rewrite Z.shiftr_div_pow2 by lia. split; [apply Z.div_pos; lia|].
        apply Z.div_lt_upper_bound; [lia|].
        rewrite <- Z.pow_add_r by lia.
        replace (7 + 7 * Z.of_nat (S fuel)) with (7 * Z.of_nat (S (S fuel))) by lia.
        lia.
      * lia.
Qed.

Lemma GetUVarInt_Put (n : Z) (tail : slice) :
  0 <= n < 2 ^ 64 ->
  GetUVarInt (PutUVarInt n ++ tail) = Some (length (PutUVarInt n), n).
Proof.
  intros H. unfold GetUVarInt, PutUVarInt. rewrite GetUVarInt_from_Put.
  - rewrite Z.lor_0_l, Z.shiftl_0_r, Z.mod_small by lia. reflexivity.
  - change (7 * Z.of_nat 10) with 70. split; [lia|].
    apply Z.lt_le_trans with (2 ^ 64); [lia|]. apply Z.pow_le_mono_r; lia.
  - lia.
Qed.

Lemma PutUVarInt_nonempty (n : Z) : (1 <= length (PutUVarInt n))%nat.
Proof.
  unfold PutUVarInt. cbn [PutUVarInt_groups]. destruct (n <? 128); cbn [length]; lia.
Qed.

Lemma firstn_length_app {A : Type} (a b : list A) : firstn (length a) (a ++ b) = a.
Proof. induction a as [|x a IH]; simpl; [destruct b|rewrite IH]; reflexivity. Qed.

Lemma skipn_length_app {A : Type} (a b : list A) : skipn (length a) (a ++ b) = b.
Proof. induction a as [|x a IH]; simpl; [reflexivity|exact IH]. Qed.

Lemma subslice_at (pre mid post : slice) (start len : nat) :
  start = length pre -> len = length mid ->
  subslice (pre ++ mid ++ post) start len = Ok mid.
Proof.
  intros -> ->. rewrite subslice_ok.
  - rewrite skipn_length_app, firstn_length_app. reflexivity.
  - rewrite !length_app. lia.
Qed.

Lemma header_length (sz par fl len : Z) : length (header sz par fl len) = 8%nat.
Proof. reflexivity. Qed.

Lemma header_reads (sz par fl len : Z) (tail : slice) :
  0 <= sz < 2 ^ 32 -> 0 <= par < 2 ^ 16 -> 0 <= fl < 256 -> 0 <= len < 256 ->
  read_u32 (header sz par fl len ++ tail) 0 = Ok sz /\
  read_u16 (header sz par fl len ++ tail) 4 = Ok par /\
  read_u8 (header sz par fl len ++ tail) 6 = Ok fl /\
  read_u8 (header sz par fl len ++ tail) 7 = Ok len.
Proof.
  intros Hsz Hpar Hfl Hlen. unfold header. rewrite <- !app_assoc.
  split; [apply read_put_u32; exact Hsz|].
  split; [unfold put_u32; cbn [app]; apply read_put_u16; exact Hpar|].
  unfold put_u32, put_u16, read_u8; cbn [app nth_error].
  rewrite !unsigned_of_Z_small by assumption. split; reflexivity.
Qed.

(** What [nodeFromRawNode] makes of a record laid out as [encode] lays
    it out. *)
Lemma nodeFromRawNode_record (sz par fl s : Z) (rev pay rest : slice) (dst : RevNode) :
  0 <= par < 2 ^ 16 -> 0 <= fl < 256 -> size rev <= 255 -> 0 <= s < 2 ^ 64 ->
  sz = 8 + size rev + size (PutUVarInt s) + size pay -> sz < 2 ^ 32 ->
  nodeFromRawNode (header sz par fl (size rev) ++ rev ++ PutUVarInt s ++ pay ++ rest) dst
  = Ok (mkRevNode rev par (Z.land fl kRevNodePublicPersistentFlags) s
          (if has_flag fl kRevNodeHasData then 0
           else if has_flag fl kRevNodeHasBodyOffset
                then match GetUVarInt pay with
                     | Some (_, v) => v
                     | None => 0
                     end
                else 0)
          (if has_flag fl kRevNodeHasData then pay else [])).
Proof.
  intros Hpar Hfl Hrev Hs Hsz Hlt. unfold size in *.
  destruct (header_reads sz par fl (Z.of_nat (length rev))
              (rev ++ PutUVarInt s ++ pay ++ rest)) as (R1 & R2 & R3 & R4); try lia.
  unfold nodeFromRawNode. rewrite R1, R4. cbn [bind].
  rewrite (subslice_at (header sz par fl (Z.of_nat (length rev))) rev
             (PutUVarInt s ++ pay ++ rest))
    by (rewrite ?header_length, ?Nat2Z.id; reflexivity).
  rewrite R3, R2. cbn [bind]. rewrite Nat2Z.id.
  unfold upToEnd.
  destruct (Nat.ltb_spec (Z.to_nat sz) (8 + length rev)) as [L|L]; [lia|].
  rewrite (app_assoc (header _ _ _ _) rev).
  rewrite (app_assoc (PutUVarInt s) pay rest).
  rewrite (subslice_at (header sz par fl (Z.of_nat (length rev)) ++ rev)
             (PutUVarInt s ++ pay) rest)
    by (rewrite !length_app, ?header_length; lia).
  cbn [bind]. unfold getVarInt at 1. cbn [fst snd]. rewrite GetUVarInt_Put by exact Hs.
  cbn [bind].
  destruct (Nat.ltb_spec (Z.to_nat sz) (8 + length rev + length (PutUVarInt s))) as [L'|L'];
    [lia|].
  rewrite <- (app_assoc (PutUVarInt s) pay rest).
  rewrite (app_assoc (header sz par fl (Z.of_nat (length rev)) ++ rev) (PutUVarInt s)).
  assert (subslice (((header sz par fl (Z.of_nat (length rev)) ++ rev) ++ PutUVarInt s)
                      ++ pay ++ rest)
            (8 + length rev + length (PutUVarInt s))
            (Z.to_nat sz - (8 + length rev + length (PutUVarInt s))) = Ok pay) as ->.
  { apply subslice_at; rewrite ?length_app, ?header_length; lia. }
  cbn [bind fst].
  destruct (has_flag fl kRevNodeHasData); [reflexivity|].
  destruct (has_flag fl kRevNodeHasBodyOffset); [|reflexivity].
  unfold getVarInt. cbn [fst snd].
  destruct (GetUVarInt pay) as [[nb v]|]; reflexivity.
Qed.

Lemma roundTrips_inv (seq : Z) (n : RevNode) :
  roundTrips seq n = true ->
  size (revID n) <= 255 /\ 0 <= parentIndex n < 2 ^ 16 /\ 0 <= sequence n < 2 ^ 64 /\
  0 <= oldBodyOffset n < 2 ^ 64 /\ sizeForRawNode n < 2 ^ 32 /\
  (0 < size (data n) -> isLeaf n = true) /\ (sequence n = 0 -> seq = 0).
Proof.
  unfold roundTrips. rewrite !andb_true_iff.
  intros ((((((H1 & H2 & H3) & H4 & H5) & H6 & H7) & H8) & H9) & H10).
  apply Z.leb_le in H1, H2, H4, H6. apply Z.ltb_lt in H3, H5, H7, H8.
  repeat split; try lia.
  intros H. apply Z.ltb_lt in H. rewrite H in H9. exact H9.
Qed.

Lemma land_persistent_cases (f : Z) :
  Z.land f kRevNodePublicPersistentFlags = 0 \/ Z.land f kRevNodePublicPersistentFlags = 1 \/
  Z.land f kRevNodePublicPersistentFlags = 2 \/ Z.land f kRevNodePublicPersistentFlags = 3.
Proof.
  change kRevNodePublicPersistentFlags with (Z.ones 2). rewrite Z.land_ones by lia.
  pose proof (Z.mod_pos_bound f (2 ^ 2) eq_refl). change (2 ^ 2) with 4 in *. lia.
Qed.

Lemma rawFlags_facts (n : RevNode) :
  0 <= rawFlags n < 256 /\
  has_flag (rawFlags n) kRevNodeHasData = (0 <? size (data n)) /\
  ((0 <? size (data n)) = false ->
   has_flag (rawFlags n) kRevNodeHasBodyOffset = (0 <? oldBodyOffset n)) /\
  Z.land (rawFlags n) kRevNodePublicPersistentFlags
  = Z.land (flags n) kRevNodePublicPersistentFlags.
Proof.
  unfold rawFlags.
  destruct (land_persistent_cases (flags n)) as [E|[E|[E|E]]];
    rewrite E; destruct (0 <? size (data n)); destruct (0 <? oldBodyOffset n);
    repeat split; intros; try discriminate; try reflexivity.
Qed.

Lemma isLeaf_persistent (n : RevNode) (f : Z) :
  f = Z.land (flags n) kRevNodePublicPersistentFlags ->
  has_flag f kLeaf = isLeaf n.
Proof.
  intros ->. unfold isLeaf, has_flag. rewrite <- Z.land_assoc. reflexivity.
Qed.

Section Written.

(** The records of one blob: written with the tree's [bodyOffset], read
    with the default sequence [seq]. *)
Variables bodyOffset seq : Z.

Lemma writeRawNode_layout (n : RevNode) :
  roundTrips seq n = true ->
  writeRawNode bodyOffset n
  = header (sizeForRawNode n) (parentIndex n) (rawFlags n) (size (revID n))
    ++ revID n ++ PutUVarInt (sequence n) ++ payload n.
Proof.
  intros H. apply roundTrips_inv in H as (H1 & H2 & H3 & H4 & H5 & H6 & H7).
  destruct (rawFlags_facts n) as (F1 & F2 & F3 & F4).
  unfold writeRawNode, header, payload. rewrite <- !app_assoc.
  assert (0 <= sizeForRawNode n).
  { unfold sizeForRawNode, SizeOfVarInt, size.
    destruct (0 <? _); [|destruct (0 <? _)]; lia. }
  rewrite !Z.mod_small by (unfold size in *; lia).
  rewrite F2. do 5 f_equal.
  destruct (0 <? size (data n)) eqn:D; [reflexivity|].
  rewrite (F3 eq_refl).
  destruct (Z.ltb_spec 0 (oldBodyOffset n)) as [O|O]; [|reflexivity].
  destruct (Z.eqb_spec (oldBodyOffset n) 0); [lia|reflexivity].
Qed.

Lemma sizeForRawNode_layout (n : RevNode) :
  sizeForRawNode n
  = 8 + size (revID n) + size (PutUVarInt (sequence n)) + size (payload n).
Proof.
  unfold sizeForRawNode, payload, SizeOfVarInt.
  destruct (0 <? size (data n)); [reflexivity|].
  destruct (0 <? oldBodyOffset n); [reflexivity|]. unfold size; simpl; lia.
Qed.

Lemma writeRawNode_length (n : RevNode) :
  roundTrips seq n = true ->
  length (writeRawNode bodyOffset n) = Z.to_nat (sizeForRawNode n).
Proof.
  intros H. rewrite (writeRawNode_layout _ H), (sizeForRawNode_layout n).
  rewrite !length_app, header_length. unfold size. lia.
Qed.

Lemma nodeFromRawNode_written (n dst : RevNode) (rest : slice) :
  roundTrips seq n = true ->
  nodeFromRawNode (writeRawNode bodyOffset n ++ rest) dst
  = Ok (mkRevNode (revID n) (parentIndex n)
          (Z.land (flags n) kRevNodePublicPersistentFlags)
          (sequence n)
          (if 0 <? size (data n) then 0 else oldBodyOffset n)
          (data n)).
Proof.
  intros H. rewrite (writeRawNode_layout _ H).
  apply roundTrips_inv in H as (H1 & H2 & H3 & H4 & H5 & H6 & H7).
  destruct (rawFlags_facts n) as (F1 & F2 & F3 & F4).
  rewrite <- !app_assoc.
  rewrite nodeFromRawNode_record; try assumption; [|apply sizeForRawNode_layout].
  rewrite F2, F4. unfold payload.
  destruct (0 <? size (data n)) eqn:D; [reflexivity|].
  rewrite (F3 eq_refl).
  assert (data n = []) as ->.
  { apply Z.ltb_ge in D. unfold size in D. destruct (data n); [reflexivity|simpl in D; lia]. }
  destruct (Z.ltb_spec 0 (oldBodyOffset n)) as [O|O].
  - rewrite <- (app_nil_r (PutUVarInt (oldBodyOffset n))), GetUVarInt_Put by lia.
    reflexivity.
  - do 2 f_equal. lia.
Qed.

Lemma read_u32_written (n : RevNode) (rest : slice) :
  roundTrips seq n = true ->
  read_u32 (writeRawNode bodyOffset n ++ rest) 0 = Ok (sizeForRawNode n)
  /\ 0 < sizeForRawNode n.
Proof.
  intros H. rewrite (writeRawNode_layout _ H).
  apply roundTrips_inv in H as (H1 & H2 & H3 & H4 & H5 & H6 & H7).
  assert (0 < sizeForRawNode n) by (rewrite sizeForRawNode_layout; unfold size; lia).
  split; [|assumption].
  unfold header. rewrite <- !app_assoc. apply read_put_u32. lia.
Qed.

Lemma decode_nodes_written (ns : list RevNode) :
  forallb (roundTrips seq) ns = true ->
  forall fuel dsts, (length ns < fuel)%nat -> length dsts = length ns ->
  decode_nodes fuel (concat (map (writeRawNode bodyOffset) ns) ++ put_u32 0) seq dsts
  = Ok (map (decoded seq) ns, put_u32 0).
Proof.
  induction ns as [|n ns IH]; intros Hall fuel dsts Hf Hd;
    (destruct fuel as [|fuel]; [simpl in Hf; lia|]).
  - destruct dsts; [reflexivity|discriminate].
  - simpl in Hall. apply andb_true_iff in Hall as [Hn Hall].
    destruct dsts as [|dst dsts]; [discriminate|].
    cbn [map concat decode_nodes]. rewrite <- app_assoc.
    destruct (read_u32_written n
                (concat (map (writeRawNode bodyOffset) ns) ++ put_u32 0) Hn) as [-> Hpos].
    cbn [bind].
    assert ((0 <? sizeForRawNode n) = true) as -> by (apply Z.ltb_lt; exact Hpos).
    rewrite (nodeFromRawNode_written _ _ _ Hn). cbn [bind].
    rewrite <- (writeRawNode_length n Hn), skipn_length_app.
    rewrite IH; [|exact Hall|simpl in Hf; lia|simpl in Hd; lia].
    cbn [bind]. unfold decoded. cbn [sequence].
    destruct (sequence n =? 0); reflexivity.
Qed.

Lemma record_walk_written (ns : list RevNode) :
  forallb (roundTrips seq) ns = true ->
  exists recs, length recs = length ns /\
    record_walk (concat (map (writeRawNode bodyOffset) ns) ++ put_u32 0) recs (put_u32 0).
Proof.
  induction ns as [|n ns IH]; intros Hall.
  - exists []. split; [reflexivity|]. apply walk_end. reflexivity.
  - simpl in Hall. apply andb_true_iff in Hall as [Hn Hall].
    destruct (IH Hall) as (recs & L & W).
    cbn [map concat]. rewrite <- app_assoc.
    destruct (read_u32_written n
                (concat (map (writeRawNode bodyOffset) ns) ++ put_u32 0) Hn) as [R Hpos].
    eexists (_ :: recs). split; [simpl; rewrite L; reflexivity|].
    eapply walk_step; [exact R|exact Hpos|].
    rewrite <- (writeRawNode_length n Hn), skipn_length_app. exact W.
Qed.

Lemma writeRawNode_decoded (n : RevNode) :
  roundTrips seq n = true ->
  writeRawNode 0 (pruneBody 0 (decoded seq n)) = writeRawNode bodyOffset n.
Proof.
  intros H. pose proof (roundTrips_inv _ _ H) as (H1 & H2 & H3 & H4 & H5 & H6 & H7).
  assert (pruneBody 0 (decoded seq n) = decoded seq n) as ->.
  { unfold pruneBody. cbn [decoded data].
    destruct (Z.ltb_spec 0 (size (data n))) as [D|D]; [|reflexivity].
    unfold isLeaf at 1. cbn [decoded flags].
    rewrite (isLeaf_persistent n _ eq_refl), (H6 D). reflexivity. }
  assert ((if sequence n =? 0 then seq else sequence n) = sequence n) as S.
  { destruct (Z.eqb_spec (sequence n) 0) as [E|E]; [rewrite E; auto|reflexivity]. }
  unfold writeRawNode, sizeForRawNode, rawFlags.
  cbn [decoded revID parentIndex flags sequence oldBodyOffset data].
  rewrite S, <- Z.land_assoc, Z.land_diag.
  destruct (0 <? size (data n)) eqn:D;
    [destruct (land_persistent_cases (flags n)) as [E|[E|[E|E]]]; rewrite E; reflexivity|].
  destruct (Z.ltb_spec 0 (oldBodyOffset n)) as [O|O];
    [|destruct (land_persistent_cases (flags n)) as [E|[E|[E|E]]]; rewrite E; reflexivity].
  destruct (Z.eqb_spec (oldBodyOffset n) 0); [lia|].
  destruct (land_persistent_cases (flags n)) as [E|[E|[E|E]]]; rewrite E; reflexivity.
Qed.

End Written.

(** C4, as stated, fails: "1-aa" and its child "2-bb" were both inserted
    with a body since the tree was loaded, so [encode] keeps the body of
    "1-aa" although it is no leaf; once decoded the node is no longer
    new, and the second [encode] drops that body.  And the blob of the
    single new leaf "1-aa" holds the sequence 0, which [decode] replaces
    by the sequence it is given, here 7. *)
Lemma reencode_drops_new_internal_body :
  encode insertion_sort tree_2bb = Ok encoded_2bb /\
  (exists b', reencode insertion_sort (snd encoded_2bb) 0 0 = Ok b' /\
              b' <> snd encoded_2bb /\
              (length b' < length (snd encoded_2bb))%nat) /\
  encode insertion_sort tree_1aa = Ok encoded_1aa /\
  (exists b', reencode insertion_sort (snd encoded_1aa) 7 0 = Ok b' /\
              b' <> snd encoded_1aa).
Proof.
  split; [vm_compute; reflexivity|]. split.
  - exists (reencoded (snd encoded_2bb) 0).
    split; [vm_compute; reflexivity|]. split; vm_compute; [discriminate|lia].
  - split; [vm_compute; reflexivity|].
    exists (reencoded (snd encoded_1aa) 7).
    split; vm_compute; [reflexivity|discriminate].
Qed.

(** C4, amended: a blob that [encode] produced from at most 65535 nodes
    that all satisfy [roundTrips] (in particular, no node other than a
    leaf kept an inline body) decodes, with the constructor, to a tree
    whose encoding is the same blob. *)
Theorem encode_decode_encode (std_sort : list RevNode -> list RevNode)
    (t t' : RevTree) (b : slice) (seq docOffset : Z) :
  encode std_sort t = Ok (t', b) ->
  size (_nodes t') <= 65535 ->
  forallb (roundTrips seq) (_nodes t') = true ->
  reencode std_sort b seq docOffset = Ok b.
Proof.
  intros E Hsz Hall. unfold encode in E.
  destruct (sort std_sort t) as [ts|f]; cbn [bind] in E; [|discriminate].
  injection E as <- <-. cbn [set_nodes _nodes] in Hsz, Hall.
  set (ns := map (pruneBody (_bodyOffset ts)) (_nodes ts)) in *.
  set (bo := _bodyOffset ts).
  destruct (record_walk_written bo seq ns Hall) as (recs & L & W).
  pose proof (record_walk_bound _ _ _ W) as [B _].
  unfold reencode, RevTree_of, decode.
  rewrite (countRawNodes_of_walk _ _ _ W). cbn [bind].
  assert (size recs = size ns) as Hrecs by (unfold size; rewrite L; reflexivity).
  rewrite Hrecs, Z.mod_small by (unfold size in *; lia).
  assert ((65535 <? size ns) = false) as -> by (apply Z.ltb_ge; exact Hsz).
  rewrite (decode_nodes_written bo seq ns Hall);
    [|lia|rewrite resize_length; unfold size; lia].
  cbn [bind]. change (negb (size (put_u32 0) =? 4)) with false. cbv iota.
  unfold encode, sort. cbn [set_nodes empty_tree _sorted _nodes _bodyOffset bind].
  do 2 f_equal. rewrite !map_map. f_equal. apply map_ext_in.
  intros n Hn. apply writeRawNode_decoded.
  rewrite forallb_forall in Hall. apply Hall. exact Hn.
Qed.

(** The tree "1-aa" <- "2-bb" saved with sequence 7, loaded and saved
    again: the second blob decodes and encodes to itself. *)
Lemma encode_decode_encode_witness :
  encode insertion_sort reloaded_2bb = Ok encoded_reloaded_2bb /\
  size (_nodes (fst encoded_reloaded_2bb)) <= 65535 /\
  forallb (roundTrips 7) (_nodes (fst encoded_reloaded_2bb)) = true /\
  reencode insertion_sort (snd encoded_reloaded_2bb) 7 0 = Ok (snd encoded_reloaded_2bb).
Proof.
  split; [reflexivity|]. split; [vm_compute; discriminate|]. split; [reflexivity|].
  apply (encode_decode_encode insertion_sort reloaded_2bb (fst encoded_reloaded_2bb)).
  - reflexivity.
  - vm_compute; discriminate.
  - reflexivity.
Defined.

(** ** More on revision IDs *)

Lemma memchr_split (s : slice) (c : Z) (k : nat) :
  memchr s c = Some k ->
  exists x, byte.unsigned x = c /\ s = firstn k s ++ x :: skipn (S k) s /\ (k < length s)%nat.
Proof.
  revert k; induction s as [|y s IH]; intros k; simpl; [discriminate|].
  destruct (Z.eqb_spec (byte.unsigned y) c) as [E|E].
  - intros [= <-]. exists y. simpl. repeat split; [exact E|lia].
  - destruct (memchr s c) as [k'|]; [|discriminate]. simpl. intros [= <-].
    destruct (IH k' eq_refl) as (x & Hx & Hs & Hk).
    exists x. split; [exact Hx|]. split; [|simpl; lia].
    cbn [firstn skipn app]. f_equal. exact Hs.
Qed.

Lemma memchr_digits (ds tail : slice) (x : byte) (c : Z) :
  all_digits ds = true -> byte.unsigned x = c -> c < 48 ->
  memchr (ds ++ x :: tail) c = Some (length ds).
Proof.
  intros Hd Hx Hc. induction ds as [|y ds IH]; simpl.
  - rewrite Hx, Z.eqb_refl. reflexivity.
  - simpl in Hd. apply andb_true_iff in Hd as [Hy Hd].
    unfold isdigit in Hy. apply andb_true_iff in Hy as [Hy _]. apply Z.leb_le in Hy.
    destruct (Z.eqb_spec (byte.unsigned y) c); [lia|].
    rewrite (IH Hd). reflexivity.
Qed.

Lemma parseDigits_from_digits (s : slice) (acc : Z) :
  all_digits s = true -> 0 <= acc -> (acc + 1) * 10 ^ Z.of_nat (length s) <= 2 ^ 32 ->
  parseDigits_from s acc = decimal_from s acc /\
  acc * 10 ^ Z.of_nat (length s) <= decimal_from s acc < (acc + 1) * 10 ^ Z.of_nat (length s).
Proof.
  revert acc; induction s as [|x s IH]; intros acc Hd Ha Hb.
  - simpl. split; [reflexivity|]. lia.
  - cbn [all_digits forallb] in Hd. apply andb_true_iff in Hd as [Hx Hd].
    cbn [parseDigits_from decimal_from]. rewrite Hx.
    unfold isdigit in Hx. apply andb_true_iff in Hx as [H1 H2].
    apply Z.leb_le in H1, H2.
    cbn [length] in *. rewrite Nat2Z.inj_succ, Z.pow_succ_r in * by lia.
    assert (0 < 10 ^ Z.of_nat (length s)) by (apply Z.pow_pos_nonneg; lia).
    rewrite Z.mod_small by nia.
    destruct (IH (10 * acc + (byte.unsigned x - 48)) Hd) as [E B]; [lia|nia|].
    split; [exact E|]. nia.
Qed.

Lemma parseDigits_from_nonzero (s : slice) (acc : Z) :
  parseDigits_from s acc <> 0 -> all_digits s = true.
Proof.
  revert acc; induction s as [|x s IH]; intros acc; simpl; [reflexivity|].
  destruct (isdigit (byte.unsigned x)); [|congruence].
  intros H. simpl. apply (IH _ H).
Qed.

Lemma pow10_le (n : nat) : (n <= 8)%nat -> 10 ^ Z.of_nat n <= 100000000.
Proof.
  intros H. change 100000000 with (10 ^ 8). apply Z.pow_le_mono_r; lia.
Qed.

Lemma parseDigits_decimal (ds : slice) :
  all_digits ds = true -> (length ds <= 8)%nat ->
  parseDigits ds = decimal ds /\ 0 <= decimal ds < 100000000.
Proof.
  intros Hd Hl. pose proof (pow10_le _ Hl).
  assert (0 < 10 ^ Z.of_nat (length ds)) by (apply Z.pow_pos_nonneg; lia).
  destruct (parseDigits_from_digits ds 0 Hd) as [E B]; [lia|change (2 ^ 32) with 4294967296; lia|].
  unfold parseDigits, decimal. split; [exact E|lia].
Qed.

(** X1: [RevIDParse] accepts exactly the IDs made of one to eight digits
    that denote a generation above zero, a dash, and a digest that is
    not empty; the generation it returns is that number, below 10^8, and
    the digest is everything after the first dash. *)
Theorem RevIDParse_iff (rev : slice) (gen : Z) (digest : slice) :
  RevIDParse rev = Some (gen, digest) <->
  exists ds, rev = ds ++ dash :: digest /\ all_digits ds = true /\
             (1 <= length ds <= 8)%nat /\ digest <> [] /\
             gen = decimal ds /\ 0 < gen < 100000000.
Proof.
  unfold RevIDParse. split.
  - destruct (memchr rev 45) as [[|k]|] eqn:M; try discriminate.
    destruct (memchr_split _ _ _ M) as (x & Hx & Hs & Hk).
    destruct (Z.ltb_spec 8 (Z.of_nat (S k))) as [L|L]; [discriminate|].
    destruct (Z.leb_spec (size rev - 1) (Z.of_nat (S k))) as [L'|L']; [discriminate|].
    cbn [orb].
    destruct (Z.eqb_spec (parseDigits (firstn (S k) rev)) 0) as [E|E]; [discriminate|].
    intros H.
    assert (gen = parseDigits (firstn (S k) rev)) as -> by congruence.
    assert (digest = skipn (S (S k)) rev) as Hdg by congruence.
    rewrite Hdg. clear H Hdg.
    assert (x = dash) as -> by (apply byte.unsigned_inj; rewrite Hx; reflexivity).
    assert (length (firstn (S k) rev) = S k) as Hlen by (rewrite length_firstn; lia).
    pose proof (parseDigits_from_nonzero _ _ E) as Hd.
    destruct (parseDigits_decimal _ Hd) as [P B]; [lia|].
    exists (firstn (S k) rev). repeat split; try assumption; try lia.
    intros Hnil. unfold size in L'.
    assert (length (skipn (S (S k)) rev) = 0%nat) as Z0 by (rewrite Hnil; reflexivity).
    rewrite length_skipn in Z0. lia.
  - intros (ds & -> & Hd & Hl & Hne & -> & Hg).
    rewrite (memchr_digits ds digest dash 45 Hd eq_refl) by lia.
    destruct (length ds) as [|k] eqn:Ek; [lia|]. rewrite <- Ek.
    destruct (Z.ltb_spec 8 (Z.of_nat (length ds))) as [L|L]; [lia|].
    destruct (Z.leb_spec (size (ds ++ dash :: digest) - 1) (Z.of_nat (length ds))) as [L'|L'].
    { unfold size in L'. rewrite length_app in L'. cbn [length] in L'.
      destruct digest; [congruence|cbn [length] in L'; lia]. }
    cbn [orb].
    rewrite firstn_app, Nat.sub_diag, firstn_all, firstn_O, app_nil_r.
    destruct (parseDigits_decimal ds Hd) as [-> _]; [lia|].
    destruct (Z.eqb_spec (decimal ds) 0) as [E|E]; [lia|].
    replace (S (length ds)) with (length (ds ++ [dash])) by (rewrite length_app; simpl; lia).
    replace (ds ++ dash :: digest) with ((ds ++ [dash]) ++ digest)
      by (rewrite <- app_assoc; reflexivity).
    rewrite skipn_app, Nat.sub_diag, skipn_all. reflexivity.
Qed.

(** ** The sort order of nodes *)

Lemma RevNode_compare_antisym (a b : RevNode) :
  RevNode_compare a b = - RevNode_compare b a.
Proof.
  unfold RevNode_compare.
  destruct (isLeaf a), (isLeaf b), (isDeleted a), (isDeleted b); simpl;
    try reflexivity; apply compareRevIDs_antisym.
Qed.

(** X2: [RevNode::compare] changes sign when its arguments are swapped and
    is -1, 0 or +1; a leaf compares below every node that is no leaf,
    and among leaves a live one below every deleted one, whatever the
    revision IDs. *)
Theorem RevNode_compare_order (a b : RevNode) :
  RevNode_compare a b = - RevNode_compare b a /\
  (RevNode_compare a b = -1 \/ RevNode_compare a b = 0 \/ RevNode_compare a b = 1) /\
  (if isLeaf a && negb (isLeaf b) then RevNode_compare a b = -1 else True) /\
  (if isLeaf a && isLeaf b && negb (isDeleted a) && isDeleted b
   then RevNode_compare a b = -1 else True).
Proof.
  split; [apply RevNode_compare_antisym|].
  unfold RevNode_compare.
  destruct (isLeaf a), (isLeaf b), (isDeleted a), (isDeleted b); simpl;
    repeat split; auto; apply compareRevIDs_range.
Qed.

(** ** Insertion: proofs *)

Lemma slice_equal_eq (a b : slice) : slice_equal a b = true <-> a = b.
Proof.
  unfold slice_equal. destruct (list_eq_dec Byte.byte_eq_dec a b); split; congruence.
Qed.

Lemma slice_equal_refl (a : slice) : slice_equal a a = true.
Proof. apply slice_equal_eq. reflexivity. Qed.

Lemma get_from_bound (ns : list RevNode) (r : slice) (i k : nat) :
  get_from ns r i = Some k -> (i <= k < i + length ns)%nat.
Proof.
  revert i; induction ns as [|n ns IH]; intros i; simpl; [discriminate|].
  destruct (slice_equal (revID n) r).
  - intros [= <-]. lia.
  - intros H. apply IH in H. lia.
Qed.

Lemma get_from_nth (ns : list RevNode) (r : slice) (i k : nat) :
  get_from ns r i = Some k ->
  exists n, nth_error ns (k - i) = Some n /\ revID n = r.
Proof.
  revert i; induction ns as [|n ns IH]; intros i; simpl; [discriminate|].
  destruct (slice_equal (revID n) r) eqn:E.
  - intros [= <-]. rewrite Nat.sub_diag. exists n. split; [reflexivity|].
    apply slice_equal_eq. exact E.
  - intros H. pose proof (get_from_bound _ _ _ _ H) as B.
    destruct (IH _ H) as (m & Hm & Hr). exists m. split; [|exact Hr].
    replace (k - i)%nat with (S (k - S i)) by lia. exact Hm.
Qed.

Lemma get_from_app_Some (ns l : list RevNode) (r : slice) (i k : nat) :
  get_from ns r i = Some k -> get_from (ns ++ l) r i = Some k.
Proof.
  revert i; induction ns as [|n ns IH]; intros i; simpl; [discriminate|].
  destruct (slice_equal (revID n) r); [auto|apply IH].
Qed.

Lemma get_from_app_None (ns : list RevNode) (n : RevNode) (r : slice) (i : nat) :
  get_from ns r i = None ->
  get_from (ns ++ [n]) r i
  = if slice_equal (revID n) r then Some (i + length ns)%nat else None.
Proof.
  revert i; induction ns as [|m ns IH]; intros i; simpl.
  - intros _. rewrite Nat.add_0_r. reflexivity.
  - destruct (slice_equal (revID m) r); [discriminate|].
    intros H. rewrite (IH _ H). destruct (slice_equal (revID n) r); [f_equal; lia|reflexivity].
Qed.

Lemma update_inv {A : Type} (l l' : list A) (i : nat) (f : A -> A) :
  update l i f = Ok l' ->
  exists x, nth_error l i = Some x /\ length l' = length l /\
            nth_error l' i = Some (f x) /\
            forall j, j <> i -> nth_error l' j = nth_error l j.
Proof.
  revert l' i; induction l as [|y l IH]; intros l' i; [destruct i; discriminate|].
  destruct i as [|i]; simpl.
  - intros [= <-]. exists y. repeat split. intros [|j] Hj; [congruence|reflexivity].
  - destruct (update l i f) as [l''|] eqn:E; [|discriminate]. simpl. intros [= <-].
    destruct (IH _ _ E) as (x & H1 & H2 & H3 & H4).
    exists x. repeat split; simpl; auto.
    intros [|j] Hj; [reflexivity|]. apply H4. congruence.
Qed.

Lemma update_ok {A : Type} (l : list A) (i : nat) (f : A -> A) :
  (i < length l)%nat -> exists l', update l i f = Ok l'.
Proof.
  revert i; induction l as [|y l IH]; intros i H; [simpl in H; lia|].
  destruct i as [|i]; simpl; [eauto|].
  destruct (IH i) as [l' ->]; [simpl in H; lia|]. simpl. eauto.
Qed.

Lemma update_map {A B : Type} (g : A -> B) (l l' : list A) (i : nat) (f : A -> A) :
  (forall x, g (f x) = g x) -> update l i f = Ok l' -> map g l' = map g l.
Proof.
  intros Hg. revert l' i; induction l as [|y l IH]; intros l' i; [destruct i; discriminate|].
  destruct i as [|i]; simpl.
  - intros [= <-]. simpl. rewrite Hg. reflexivity.
  - destruct (update l i f) as [l''|] eqn:E; [|discriminate]. simpl. intros [= <-].
    simpl. rewrite (IH _ _ E). reflexivity.
Qed.

Lemma get_from_map_revID (ns ns' : list RevNode) (r : slice) (i : nat) :
  map revID ns' = map revID ns -> get_from ns' r i = get_from ns r i.
Proof.
  revert ns' i; induction ns as [|n ns IH]; intros [|n' ns'] i; simpl; try discriminate;
    [reflexivity|].
  intros [= E1 E2]. rewrite E1, (IH _ _ E2). reflexivity.
Qed.

(** What [_insert] does, read off a successful call. *)
Lemma _insert_inv (cfg : build) (t t' : RevTree) (rev body : slice)
    (parentNode : option nat) (deleted : bool) (p : nat) :
  _insert cfg t rev body parentNode deleted = Ok (t', p) ->
  exists ns newParent,
    _nodes t' = ns ++ [mkRevNode rev newParent
                         (if deleted then Z.lor (Z.lor kLeaf kNew) kDeleted
                          else Z.lor kLeaf kNew) 0 0 body] /\
    p = length (_nodes t) /\ length ns = length (_nodes t) /\
    _changed t' = true /\ _bodyOffset t' = _bodyOffset t /\
    match parentNode with
    | None => ns = _nodes t /\ newParent = kNoParent
    | Some pi => update (_nodes t) pi clearLeaf = Ok ns /\
                 newParent = Z.of_nat pi mod 2 ^ 32 mod 2 ^ 16
    end.
Proof.
  unfold _insert. destruct parentNode as [pi|].
  - unfold indexOf.
    destruct (assert cfg _) as [[]|]; cbn [bind]; [|discriminate].
    destruct (update (_nodes t) pi clearLeaf) as [ns|] eqn:U; cbn [bind]; [|discriminate].
    intros [= <- <-]. cbn [_nodes _changed _bodyOffset].
    destruct (update_inv _ _ _ _ U) as (x & _ & L & _).
    exists ns, (Z.of_nat pi mod 2 ^ 32 mod 2 ^ 16).
    rewrite length_app. cbn [length]. repeat split; try assumption; try lia.
  - cbn [bind]. intros [= <- <-]. cbn [_nodes _changed _bodyOffset].
    exists (_nodes t), kNoParent. rewrite length_app. cbn [length].
    repeat split; try lia.
Qed.

(** What the checks of [insert] have established when it returns a
    node. *)
Lemma insert_node_inv (cfg : build) (t t' : RevTree) (rev body : slice) (deleted : bool)
    (parent : option nat) (allowConflict : bool) (p : nat) :
  insert_node cfg t rev body deleted parent allowConflict = Ok (t', Some p) ->
  _insert cfg t rev body parent deleted = Ok (t', p) /\
  exists newGen d parentGen,
    RevIDParseCompacted rev = Ok (Some (newGen, d)) /\
    newGen = (parentGen + 1) mod 2 ^ 32 /\
    match parent with
    | None => parentGen = 0 /\ (allowConflict = false -> _nodes t = [])
    | Some pi => exists pn pd, nth_error (_nodes t) pi = Some pn /\
                   RevIDParseCompacted (revID pn) = Ok (Some (parentGen, pd)) /\
                   (allowConflict = false -> isLeaf pn = true)
    end.
Proof.
  unfold insert_node.
  destruct (RevIDParseCompacted rev) as [[[newGen d]|]|] eqn:P; cbn [bind]; try discriminate.
  destruct (if DEBUG cfg then _ else _) as [[]|]; cbn [bind]; [|discriminate].
  destruct parent as [pi|].
  - unfold at_index. destruct (Z.ltb_spec (Z.of_nat pi) 0); [lia|].
    rewrite Nat2Z.id.
    destruct (nth_error (_nodes t) pi) as [pn|] eqn:N; cbn [bind]; [|discriminate].
    destruct (negb allowConflict && negb (has_flag (flags pn) kLeaf)) eqn:C;
      cbn [bind]; [discriminate|].
    destruct (RevIDParseCompacted (revID pn)) as [[[pg pd]|]|] eqn:PP; cbn [bind];
      try discriminate.
    destruct (Z.eqb_spec newGen ((pg + 1) mod 2 ^ 32)) as [E|E]; cbn [negb]; [|discriminate].
    destruct (_insert cfg t rev body (Some pi) deleted) as [[t1 p1]|] eqn:I; cbn [bind];
      [|discriminate].
    intros [= <- <-]. split; [reflexivity|].
    exists newGen, d, pg. repeat split; try assumption.
    exists pn, pd. repeat split; try assumption.
    intros ->. unfold isLeaf. simpl in C. destruct (has_flag (flags pn) kLeaf); [reflexivity|discriminate].
  - destruct (negb allowConflict && (0 <? size (_nodes t))) eqn:C; cbn [bind]; [discriminate|].
    destruct (Z.eqb_spec newGen ((0 + 1) mod 2 ^ 32)) as [E|E]; cbn [negb]; [|discriminate].
    destruct (_insert cfg t rev body None deleted) as [[t1 p1]|] eqn:I; cbn [bind];
      [|discriminate].
    intros [= <- <-]. split; [reflexivity|].
    exists newGen, d, 0. repeat split; try assumption.
    intros ->. simpl in C. apply Z.ltb_ge in C. unfold size in C.
    destruct (_nodes t); [reflexivity|simpl in C; lia].
Qed.

Lemma insert_inv (cfg : build) (t t' : RevTree) (rev body : slice) (deleted : bool)
    (parentRevID : option slice) (allowConflict : bool) (p : nat) :
  insert cfg t rev body deleted parentRevID allowConflict = Ok (t', Some p) ->
  get t rev = None /\
  exists parent,
    insert_node cfg t rev body deleted parent allowConflict = Ok (t', Some p) /\
    match parentRevID with
    | None => parent = None
    | Some pr => exists pi, parent = Some pi /\ get t pr = Some pi
    end.
Proof.
  unfold insert. destruct (get t rev); [discriminate|].
  destruct parentRevID as [pr|].
  - destruct (get t pr) as [pi|] eqn:G; [|discriminate].
    intros H. split; [reflexivity|]. exists (Some pi). split; [exact H|]. eauto.
  - intros H. split; [reflexivity|]. exists None. split; [exact H|reflexivity].
Qed.

Lemma new_flags (deleted : bool) (n : RevNode) :
  flags n = (if deleted then Z.lor (Z.lor kLeaf kNew) kDeleted else Z.lor kLeaf kNew) ->
  isLeaf n = true /\ isNew n = true /\ isDeleted n = deleted.
Proof.
  unfold isLeaf, isNew, isDeleted. intros ->. destruct deleted; repeat split.
Qed.

(** X3: A revision that [insert] accepted is found by [get] at the end of
    the vector, as a new leaf with the given body and no sequence; every
    revision that was in the tree is still found at its index, and no
    other ID has become present. *)
Theorem insert_then_get (cfg : build) (t t' : RevTree) (rev body : slice) (deleted : bool)
    (parentRevID : option slice) (allowConflict : bool) (p : nat) :
  insert cfg t rev body deleted parentRevID allowConflict = Ok (t', Some p) ->
  p = length (_nodes t) /\ length (_nodes t') = S (length (_nodes t)) /\
  get t' rev = Some p /\
  (forall r, r <> rev -> get t' r = get t r) /\
  exists n, nth_error (_nodes t') p = Some n /\ revID n = rev /\ data n = body /\
            sequence n = 0 /\ oldBodyOffset n = 0 /\
            isLeaf n = true /\ isNew n = true /\ isDeleted n = deleted.
Proof.
  intros H. apply insert_inv in H as (G & parent & H & _).
  apply insert_node_inv in H as (H & _).
  apply _insert_inv in H as (ns & newParent & Hn & -> & L & _ & _ & Hp).
  assert (map revID ns = map revID (_nodes t)) as M.
  { destruct parent as [pi|]; [|destruct Hp as [-> _]; reflexivity].
    destruct Hp as [U _]. eapply update_map; [|exact U]. intros x; reflexivity. }
  unfold get in *. rewrite Hn.
  split; [reflexivity|]. split; [rewrite length_app, L; cbn [length]; lia|].
  assert (get_from ns rev 0 = None) as G' by (rewrite (get_from_map_revID _ _ _ _ M); exact G).
  split.
  { rewrite (get_from_app_None _ _ _ _ G'). cbn [revID]. rewrite slice_equal_refl, L.
    reflexivity. }
  split.
  { intros r Hr. rewrite <- (get_from_map_revID _ _ r 0 M).
    destruct (get_from ns r 0) as [k|] eqn:E; [apply get_from_app_Some; exact E|].
    rewrite (get_from_app_None _ _ _ _ E). cbn [revID].
    destruct (slice_equal rev r) eqn:S; [|reflexivity].
    apply slice_equal_eq in S. congruence. }
  eexists. rewrite <- L, nth_error_app2, Nat.sub_diag by lia. cbn [nth_error].
  split; [reflexivity|]. cbn [revID data sequence oldBodyOffset].
  repeat split; eapply new_flags; reflexivity.
Qed.

(** "2-bb" goes in below "1-aa" and is then found at index 1. *)
Lemma insert_then_get_witness :
  insert checked tree_1aa (bytes "2-bb") (bytes "y") false (Some (bytes "1-aa")) false
  = Ok (tree_2bb, Some 1%nat) /\
  get tree_2bb (bytes "2-bb") = Some 1%nat.
Proof.
  split; [reflexivity|].
  apply (insert_then_get checked tree_1aa tree_2bb (bytes "2-bb") (bytes "y") false
           (Some (bytes "1-aa")) false 1).
  reflexivity.
Defined.

(** X4: When [insert] returns a node, the new ID was not in the tree and
    parses; with a parent ID, the parent is in the tree, its generation
    is one below the new one, it was a leaf unless conflicts are
    allowed, it has lost its [Leaf] flag, and the new node names its
    index; without one, the generation is 1 and the tree was empty
    unless conflicts are allowed. *)
Theorem insert_checks (cfg : build) (t t' : RevTree) (rev body : slice) (deleted : bool)
    (parentRevID : option slice) (allowConflict : bool) (p : nat) :
  insert cfg t rev body deleted parentRevID allowConflict = Ok (t', Some p) ->
  get t rev = None /\
  exists newGen d n, RevIDParseCompacted rev = Ok (Some (newGen, d)) /\
    nth_error (_nodes t') p = Some n /\
    match parentRevID with
    | None => newGen = 1 /\ parentIndex n = kNoParent /\
              (allowConflict = false -> _nodes t = [])
    | Some pr =>
        exists pi pn parentGen pd,
          get t pr = Some pi /\ nth_error (_nodes t) pi = Some pn /\
          RevIDParseCompacted (revID pn) = Ok (Some (parentGen, pd)) /\
          newGen = (parentGen + 1) mod 2 ^ 32 /\
          (allowConflict = false -> isLeaf pn = true) /\
          nth_error (_nodes t') pi = Some (clearLeaf pn) /\
          parentIndex n = Z.of_nat pi mod 2 ^ 32 mod 2 ^ 16
    end.
Proof.
  intros H. apply insert_inv in H as (G & parent & H & Hpar). split; [exact G|].
  apply insert_node_inv in H as (H & newGen & d & pg & P & E & Hc).
  apply _insert_inv in H as (ns & newParent & Hn & -> & L & _ & _ & Hp).
  exists newGen, d. eexists. split; [exact P|].
  rewrite Hn, <- L, nth_error_app2, Nat.sub_diag by lia. cbn [nth_error].
  split; [reflexivity|]. cbn [parentIndex].
  destruct parentRevID as [pr|].
  - destruct Hpar as (pi & -> & Gp). destruct Hc as (pn & pd & N & PP & C).
    destruct Hp as [U ->].
    destruct (update_inv _ _ _ _ U) as (x & Hx & _ & Hx' & _).
    assert (x = pn) as -> by congruence.
    exists pi, pn, pg, pd. repeat split; try assumption.
    rewrite nth_error_app1; [exact Hx'|]. rewrite L. apply nth_error_Some. congruence.
  - subst parent. destruct Hc as [-> C]. destruct Hp as [_ ->].
    repeat split; assumption.
Qed.

(** "3-cc" is accepted below "2-bb": generation 3 after 2. *)
Lemma insert_checks_witness :
  insert checked tree_2bb (bytes "3-cc") (bytes "c") true (Some (bytes "2-bb")) false
  = Ok (tree_3cc, Some 2%nat) /\
  get tree_2bb (bytes "3-cc") = None.
Proof.
  split; [reflexivity|].
  apply (insert_checks checked tree_2bb tree_3cc (bytes "3-cc") (bytes "c") true
           (Some (bytes "2-bb")) false 2).
  reflexivity.
Defined.

(** X5: When either overload of [insert] returns null, the tree is as it
    was. *)
Theorem insert_null_unchanged (cfg : build) (t t' : RevTree) (rev body : slice)
    (deleted : bool) (allowConflict : bool) :
  (exists parent, insert_node cfg t rev body deleted parent allowConflict = Ok (t', None)) \/
  (exists parentRevID, insert cfg t rev body deleted parentRevID allowConflict = Ok (t', None)) ->
  t' = t.
Proof.
  assert (forall parent,
            insert_node cfg t rev body deleted parent allowConflict = Ok (t', None) -> t' = t)
    as Hnode.
  { intros parent. unfold insert_node.
    destruct (RevIDParseCompacted rev) as [[[newGen d]|]|]; cbn [bind];
      [|intros [= <-]; reflexivity|discriminate].
    destruct (if DEBUG cfg then _ else _) as [[]|]; cbn [bind]; [|discriminate].
    destruct (match parent with Some _ => _ | None => _ end) as [[pg|]|]; cbn [bind];
      [|intros [= <-]; reflexivity|discriminate].
    destruct (negb (newGen =? (pg + 1) mod 2 ^ 32)); [intros [= <-]; reflexivity|].
    destruct (_insert cfg t rev body parent deleted) as [[t1 p1]|]; cbn [bind]; discriminate. }
  intros [[parent H]|[parentRevID H]]; [exact (Hnode _ H)|].
  revert H. unfold insert.
  destruct (get t rev); [intros [= <-]; reflexivity|].
  destruct parentRevID as [pr|]; [|apply Hnode].
  destruct (get t pr); [apply Hnode|intros [= <-]; reflexivity].
Qed.

(** "3-cc" is refused below "1-aa", whose generation is 1. *)
Lemma insert_null_unchanged_witness :
  insert checked tree_2bb (bytes "3-cc") (bytes "c") false (Some (bytes "1-aa")) true
  = Ok (tree_2bb, None) /\ tree_2bb = tree_2bb.
Proof.
  split; [reflexivity|].
  apply (insert_null_unchanged checked tree_2bb tree_2bb (bytes "3-cc") (bytes "c") false true).
  right. exists (Some (bytes "1-aa")). reflexivity.
Defined.

(** ** Insertion keeps the invariants *)

Lemma parentsValid_iff (t : RevTree) :
  parentsValid t = true <->
  forall n, In n (_nodes t) ->
            parentIndex n = kNoParent \/ 0 <= parentIndex n < size (_nodes t).
Proof.
  unfold parentsValid. rewrite forallb_forall.
  split; intros H n Hn; specialize (H n Hn).
  - apply orb_true_iff in H as [H|H]; [left; apply Z.eqb_eq; exact H|right].
    apply andb_true_iff in H as [H1 H2]. apply Z.leb_le in H1. apply Z.ltb_lt in H2. lia.
  - apply orb_true_iff. destruct H as [H|H]; [left; apply Z.eqb_eq; exact H|right].
    apply andb_true_iff. split; [apply Z.leb_le|apply Z.ltb_lt]; lia.
Qed.

Lemma in_map_parentIndex (ns ns' : list RevNode) (n' : RevNode) :
  map parentIndex ns' = map parentIndex ns -> In n' ns' ->
  exists n, In n ns /\ parentIndex n = parentIndex n'.
Proof.
  intros M Hin. apply (in_map parentIndex) in Hin. rewrite M in Hin.
  apply in_map_iff in Hin as (n & E & Hn). eauto.
Qed.

(** X6: A successful [insert] into a tree whose parent indexes are all
    [kNoParent] or inside the vector leaves a tree of the same kind. *)
Theorem insert_keeps_parentsValid (cfg : build) (t t' : RevTree) (rev body : slice)
    (deleted : bool) (parentRevID : option slice) (allowConflict : bool) (p : nat) :
  parentsValid t = true ->
  insert cfg t rev body deleted parentRevID allowConflict = Ok (t', Some p) ->
  parentsValid t' = true.
Proof.
  intros V H. apply insert_inv in H as (G & parent & H & Hpar).
  apply insert_node_inv in H as (H & _).
  apply _insert_inv in H as (ns & newParent & Hn & -> & L & _ & _ & Hp).
  rewrite parentsValid_iff in *. unfold size in *. rewrite Hn, length_app. cbn [length].
  assert (map parentIndex ns = map parentIndex (_nodes t)) as M.
  { destruct parent as [pi|]; [|destruct Hp as [-> _]; reflexivity].
    destruct Hp as [U _]. eapply update_map; [|exact U]. intros x; reflexivity. }
  intros n Hin. apply in_app_iff in Hin as [Hin|[<-|[]]].
  - destruct (in_map_parentIndex _ _ _ M Hin) as (m & Hm & <-).
    destruct (V m Hm) as [E|B]; [left; exact E|right; lia].
  - cbn [parentIndex]. destruct parent as [pi|]; [|left; apply Hp].
    destruct Hp as [U ->]. right.
    destruct (update_inv _ _ _ _ U) as (x & Hx & _).
    assert (pi < length (_nodes t))%nat by (apply nth_error_Some; congruence).
    pose proof (Z.mod_pos_bound (Z.of_nat pi) (2 ^ 32) eq_refl).
    pose proof (Z.mod_pos_bound (Z.of_nat pi mod 2 ^ 32) (2 ^ 16) eq_refl).
    pose proof (Z.mod_le (Z.of_nat pi) (2 ^ 32)).
    pose proof (Z.mod_le (Z.of_nat pi mod 2 ^ 32) (2 ^ 16)). lia.
Qed.

Lemma insert_keeps_parentsValid_witness :
  parentsValid tree_2bb = true /\
  insert checked tree_2bb (bytes "3-cc") (bytes "c") true (Some (bytes "2-bb")) false
  = Ok (tree_3cc, Some 2%nat) /\
  parentsValid tree_3cc = true.
Proof.
  split; [reflexivity|]. split; [reflexivity|].
  apply (insert_keeps_parentsValid checked tree_2bb tree_3cc (bytes "3-cc") (bytes "c") true
           (Some (bytes "2-bb")) false 2); reflexivity.
Defined.

Lemma leafFlags_from_iff (all ns : list RevNode) (i : Z) :
  leafFlags_from all ns i = true <->
  forall k n, nth_error ns k = Some n ->
              isLeaf n = negb (hasChild all (i + Z.of_nat k)).
Proof.
  revert i; induction ns as [|m ns IH]; intros i; cbn [leafFlags_from].
  - split; [intros _ [|k] n; discriminate|reflexivity].
  - rewrite andb_true_iff, IH. split.
    + intros [H1 H2] [|k] n; cbn [nth_error].
      * intros [= <-]. rewrite Z.add_0_r. apply eqb_prop. exact H1.
      * intros Hk. rewrite (H2 k n Hk). do 2 f_equal. lia.
    + intros H. split.
      * rewrite (H 0%nat m eq_refl), Z.add_0_r. apply eqb_reflx.
      * intros k n Hk. rewrite (H (S k) n Hk). do 2 f_equal. lia.
Qed.

Lemma leafFlagsExact_iff (t : RevTree) :
  leafFlagsExact t = true <->
  forall k n, nth_error (_nodes t) k = Some n ->
              isLeaf n = negb (hasChild (_nodes t) (Z.of_nat k)).
Proof. unfold leafFlagsExact. rewrite leafFlags_from_iff. reflexivity. Qed.

Lemma hasChild_map (ns ns' : list RevNode) (i : Z) :
  map parentIndex ns' = map parentIndex ns -> hasChild ns' i = hasChild ns i.
Proof.
  unfold hasChild. revert ns'; induction ns as [|n ns IH]; intros [|n' ns']; simpl;
    try discriminate; [reflexivity|].
  intros [= E1 E2]. rewrite E1, (IH _ E2). reflexivity.
Qed.

Lemma hasChild_false (ns : list RevNode) (i : Z) :
  (forall n, In n ns -> parentIndex n <> i) -> hasChild ns i = false.
Proof.
  intros H. unfold hasChild. apply not_true_is_false. intros E.
  apply existsb_exists in E as (n & Hn & En). apply Z.eqb_eq in En. exact (H n Hn En).
Qed.

Lemma isLeaf_clearLeaf (n : RevNode) : isLeaf (clearLeaf n) = false.
Proof.
  unfold isLeaf, clearLeaf, has_flag. cbn [flags set_flags].
  rewrite <- Z.land_assoc. change (Z.land (Z.lnot kLeaf mod 256) kLeaf) with 0.
  rewrite Z.land_0_r. reflexivity.
Qed.

(** X7: A successful [insert] into a tree of fewer than 65535 nodes in
    which the parent indexes are valid and exactly the nodes that are
    nobody's parent are flagged [Leaf] leaves a tree with the same
    property. *)
Theorem insert_keeps_leafFlags (cfg : build) (t t' : RevTree) (rev body : slice)
    (deleted : bool) (parentRevID : option slice) (allowConflict : bool) (p : nat) :
  size (_nodes t) < 65535 -> parentsValid t = true -> leafFlagsExact t = true ->
  insert cfg t rev body deleted parentRevID allowConflict = Ok (t', Some p) ->
  leafFlagsExact t' = true.
Proof.
  intros Hsz V F H. apply insert_inv in H as (G & parent & H & Hpar).
  apply insert_node_inv in H as (H & _).
  apply _insert_inv in H as (ns & newParent & Hn & -> & L & _ & _ & Hp).
  rewrite parentsValid_iff in V. rewrite leafFlagsExact_iff in *.
  unfold size in *. rewrite Hn.
  assert (map parentIndex ns = map parentIndex (_nodes t)) as M.
  { destruct parent as [pi|]; [|destruct Hp as [-> _]; reflexivity].
    destruct Hp as [U _]. eapply update_map; [|exact U]. intros x; reflexivity. }
  assert (forall i, hasChild (ns ++ [mkRevNode rev newParent
                       (if deleted then Z.lor (Z.lor kLeaf kNew) kDeleted
                        else Z.lor kLeaf kNew) 0 0 body]) i
                    = hasChild (_nodes t) i || (newParent =? i)) as HC.
  { intros i. unfold hasChild at 1. rewrite existsb_app. cbn [existsb parentIndex].
    rewrite orb_false_r. f_equal. apply hasChild_map. exact M. }
  intros k n Hk. rewrite HC.
  destruct (Nat.lt_ge_cases k (length ns)) as [Lt|Ge].
  - rewrite nth_error_app1 in Hk by exact Lt.
    destruct parent as [pi|].
    + destruct Hp as [U ->].
      destruct (update_inv _ _ _ _ U) as (x & Hx & _ & Hx' & Hoth).
      assert (pi < length (_nodes t))%nat by (apply nth_error_Some; congruence).
      rewrite (Z.mod_small (Z.of_nat pi)), Z.mod_small by lia.
      destruct (Nat.eq_dec k pi) as [->|Ne].
      * assert (n = clearLeaf x) as -> by congruence.
        rewrite isLeaf_clearLeaf, Z.eqb_refl, orb_true_r. reflexivity.
      * rewrite (Hoth k Ne) in Hk. rewrite (F k n Hk).
        destruct (Z.eqb_spec (Z.of_nat pi) (Z.of_nat k)); [lia|].
        rewrite orb_false_r. reflexivity.
    + destruct Hp as [-> ->]. rewrite (F k n Hk).
      destruct (Z.eqb_spec kNoParent (Z.of_nat k)) as [E|E];
        [unfold kNoParent in E; lia|].
      rewrite orb_false_r. reflexivity.
  - assert (k = length ns) as ->.
    { assert (k < length (ns ++ [mkRevNode rev newParent
                (if deleted then Z.lor (Z.lor kLeaf kNew) kDeleted
                 else Z.lor kLeaf kNew) 0 0 body]))%nat as B
        by (apply nth_error_Some; congruence).
      rewrite length_app in B. cbn [length] in B. lia. }
    rewrite nth_error_app2, Nat.sub_diag in Hk by lia. cbn [nth_error] in Hk.
    assert (isLeaf n = true) as ->.
    { eapply new_flags. injection Hk as <-. reflexivity. }
    rewrite hasChild_false.
    + destruct (Z.eqb_spec newParent (Z.of_nat (length ns))) as [E|E]; [|reflexivity].
      exfalso. destruct parent as [pi|].
      * destruct Hp as [U ->].
        destruct (update_inv _ _ _ _ U) as (x & Hx & _).
        assert (pi < length (_nodes t))%nat by (apply nth_error_Some; congruence).
        rewrite (Z.mod_small (Z.of_nat pi)), Z.mod_small in E by lia. lia.
      * destruct Hp as [_ ->]. unfold kNoParent in E. lia.
    + intros m Hm. destruct (V m Hm) as [E|B]; [unfold kNoParent in E; lia|lia].
Qed.

Lemma insert_keeps_leafFlags_witness :
  size (_nodes tree_2bb) < 65535 /\ parentsValid tree_2bb = true /\
  leafFlagsExact tree_2bb = true /\
  insert checked tree_2bb (bytes "3-cc") (bytes "c") true (Some (bytes "2-bb")) false
  = Ok (tree_3cc, Some 2%nat) /\
  leafFlagsExact tree_3cc = true.
Proof.
  split; [reflexivity|]. split; [reflexivity|]. split; [reflexivity|]. split; [reflexivity|].
  apply (insert_keeps_leafFlags checked tree_2bb tree_3cc (bytes "3-cc") (bytes "c") true
           (Some (bytes "2-bb")) false 2); reflexivity.
Defined.

(** ** Compaction: proofs *)

Lemma compact_slide_inv (table : list Z) (ns ns' : list RevNode) :
  compact_slide table ns = Ok ns' ->
  Forall2 (fun n n' => exists p, at_index table (parentIndex n) = Ok p /\
                                 n' = set_parentIndex n p)
          (filter survives ns) ns'.
Proof.
  revert ns'; induction ns as [|n ns IH]; intros ns'; cbn [compact_slide filter].
  - intros [= <-]. constructor.
  - unfold survives at 1. destruct (0 <? size (revID n)); [|apply IH].
    destruct (at_index table (parentIndex n)) as [p|] eqn:E; cbn [bind]; [|discriminate].
    destruct (compact_slide table ns) as [rest|]; cbn [bind]; [|discriminate].
    intros [= <-]. constructor; [eauto|apply IH; reflexivity].
Qed.

(** Entry [i] of the table is the number of survivors before [i], for a
    survivor, and the sentinel for a node that goes. *)
Lemma compact_map_nth (ns : list RevNode) (j : Z) (i : nat) (n : RevNode) :
  nth_error ns i = Some n ->
  nth_error (compact_map ns j) i
  = Some (if survives n then (j + size (filter survives (firstn i ns))) mod 2 ^ 16
          else kNoParent).
Proof.
  revert j i; induction ns as [|m ns IH]; intros j i; [destruct i; discriminate|].
  destruct i as [|i]; cbn [nth_error compact_map firstn filter].
  - intros [= ->]. unfold survives. destruct (0 <? size (revID n)); cbn [nth_error];
      [|reflexivity].
    unfold size. cbn [length]. rewrite Z.add_0_r. reflexivity.
  - intros H. unfold survives at 2. destruct (0 <? size (revID m)); cbn [nth_error];
      rewrite (IH _ _ H); [|reflexivity].
    destruct (survives n); [|reflexivity]. do 2 f_equal. unfold size. cbn [length]. lia.
Qed.

Lemma filter_firstn_nth {A : Type} (f : A -> bool) (l : list A) (i : nat) (x : A) :
  nth_error l i = Some x -> f x = true ->
  nth_error (filter f l) (length (filter f (firstn i l))) = Some x.
Proof.
  revert i; induction l as [|y l IH]; intros i; [destruct i; discriminate|].
  destruct i as [|i]; cbn [nth_error firstn filter].
  - intros [= ->] ->. reflexivity.
  - intros H Hx. destruct (f y); cbn [length nth_error]; apply IH; assumption.
Qed.

Lemma Forall2_nth {A B : Type} (R : A -> B -> Prop) (l : list A) (l' : list B) (i : nat)
    (x : A) :
  Forall2 R l l' -> nth_error l i = Some x ->
  exists y, nth_error l' i = Some y /\ R x y.
Proof.
  intros F; revert i; induction F as [|a b l l' Hab F IH]; intros i;
    [destruct i; discriminate|].
  destruct i as [|i]; cbn [nth_error]; [intros [= <-]; eauto|apply IH].
Qed.

(** X8: When [compact] returns, it has set [changed], the nodes left are
    the ones whose revision ID was not emptied, in their order and with
    all their fields but the parent index; and in a tree of at most
    65535 nodes the new parent index of a node is [kNoParent] if its
    parent was dropped and otherwise the new place of its parent. *)
Theorem compact_relinks (t t' : RevTree) :
  size (_nodes t) <= 65535 ->
  compact t = Ok t' ->
  _changed t' = true /\ _sorted t' = _sorted t /\ _bodyOffset t' = _bodyOffset t /\
  map unlinked (_nodes t') = map unlinked (filter survives (_nodes t)) /\
  Forall2 (fun n n' =>
             exists pn, nth_error (_nodes t) (Z.to_nat (parentIndex n)) = Some pn /\
               if survives pn
               then exists pn', nth_error (_nodes t') (Z.to_nat (parentIndex n')) = Some pn'
                                /\ unlinked pn' = unlinked pn
               else parentIndex n' = kNoParent)
          (filter survives (_nodes t)) (_nodes t').
Proof.
  intros Hsz. unfold compact.
  destruct (compact_slide (compact_map (_nodes t) 0) (_nodes t)) as [ns'|] eqn:S;
    cbn [bind]; [|discriminate].
  intros [= <-]. cbn [_changed _sorted _bodyOffset _nodes].
  apply compact_slide_inv in S.
  repeat split.
  - induction S as [|n n' l l' (p & _ & ->) S IH]; [reflexivity|].
    cbn [map]. rewrite IH. reflexivity.
  - assert (forall k x, nth_error (filter survives (_nodes t)) k = Some x ->
              exists y, nth_error ns' k = Some y /\ unlinked y = unlinked x) as Hnth.
    { intros k x Hk. destruct (Forall2_nth _ _ _ _ _ S Hk) as (y & Hy & p & _ & ->).
      exists (set_parentIndex x p). split; [exact Hy|reflexivity]. }
    eapply Forall2_impl; [|exact S].
    intros n n' (p & Hp & ->). cbn [set_parentIndex parentIndex].
    unfold at_index in Hp. destruct (parentIndex n <? 0); [discriminate|].
    destruct (nth_error (compact_map (_nodes t) 0) (Z.to_nat (parentIndex n)))
      as [q|] eqn:Q; [|discriminate].
    assert (p = q) as -> by congruence. clear Hp.
    assert (Z.to_nat (parentIndex n) < length (_nodes t))%nat as B.
    { rewrite <- (compact_map_length (_nodes t) 0). apply nth_error_Some. congruence. }
    destruct (nth_error (_nodes t) (Z.to_nat (parentIndex n))) as [pn|] eqn:N;
      [|apply nth_error_None in N; lia].
    rewrite (compact_map_nth _ 0 _ _ N) in Q.
    assert (q = if survives pn
                then (0 + size (filter survives
                               (firstn (Z.to_nat (parentIndex n)) (_nodes t)))) mod 2 ^ 16
                else kNoParent) as -> by congruence.
    clear Q.
    exists pn. split; [reflexivity|].
    destruct (survives pn) eqn:Sv; [|reflexivity].
    pose proof (filter_length_le survives (firstn (Z.to_nat (parentIndex n)) (_nodes t))) as F.
    rewrite length_firstn in F. unfold size in *.
    rewrite Z.add_0_l, Z.mod_small, Nat2Z.id by (change (2 ^ 16) with 65536; lia).
    apply Hnth. apply filter_firstn_nth; assumption.
Qed.

(** "1-aa" marked and dropped from under "2-bb". *)
Lemma compact_relinks_witness :
  size (_nodes tree_2bb_marked) <= 65535 /\
  compact tree_2bb_marked = Ok tree_2bb_compacted /\
  map unlinked (_nodes tree_2bb_compacted)
  = map unlinked (filter survives (_nodes tree_2bb_marked)).
Proof.
  split; [vm_compute; discriminate|]. split; [reflexivity|].
  apply (compact_relinks tree_2bb_marked tree_2bb_compacted);
    [vm_compute; discriminate|reflexivity].
Defined.

(** ** Purging what cannot be purged *)

Lemma purge_pass_nothing (ns : list RevNode) (revIDs : list slice) :
  forallb (notPurgeable ns) revIDs = true ->
  forall n mp fnl, exists fnl',
    purge_pass revIDs (mkPurge ns n mp fnl) = Ok (revIDs, mkPurge ns n mp fnl').
Proof.
  induction revIDs as [|r revIDs IH]; intros H n mp fnl; cbn [purge_pass].
  - eauto.
  - cbn [forallb] in H. apply andb_true_iff in H as [Hr H].
    unfold notPurgeable in Hr. cbn [pNodes numPurged madeProgress foundNonLeaf].
    destruct (get_from ns r 0) as [i|] eqn:G; cbn [bind].
    + destruct (get_from_nth _ _ _ _ G) as (m & Hm & _). rewrite Nat.sub_0_r in Hm.
      unfold at_index. destruct (Z.ltb_spec (Z.of_nat i) 0); [lia|].
      rewrite Nat2Z.id, Hm in *. cbn [bind].
      destruct (isLeaf m); [discriminate|]. cbn [bind].
      destruct (IH H n mp true) as [f ->]. cbn [bind]. eauto.
    + destruct (IH H n mp fnl) as [f ->]. cbn [bind]. eauto.
Qed.

(** X9: [purge] of IDs none of which names a leaf of the tree (each is
    absent or names an inner node) returns 0 and leaves the tree as it
    was: nothing is marked, [compact] is not called, [changed] is not
    set. *)
Theorem purge_nothing (fuel : nat) (t : RevTree) (revIDs : list slice) :
  forallb (notPurgeable (_nodes t)) revIDs = true ->
  purge (S fuel) t revIDs = Ok (t, 0).
Proof.
  intros H. unfold purge. cbn [purge_loop].
  destruct (purge_pass_nothing _ _ H 0 false false) as [f ->]. cbn [bind madeProgress].
  cbn [andb pNodes numPurged bind]. change (0 <? 0) with false. cbv iota.
  destruct t; reflexivity.
Qed.

(** "9-zz" is not in the tree and "1-aa" has a child. *)
Lemma purge_nothing_witness :
  forallb (notPurgeable (_nodes tree_2bb)) [bytes "9-zz"; bytes "1-aa"] = true /\
  purge 1 tree_2bb [bytes "9-zz"; bytes "1-aa"] = Ok (tree_2bb, 0).
Proof.
  split; [reflexivity|].
  apply (purge_nothing 0 tree_2bb [bytes "9-zz"; bytes "1-aa"]). reflexivity.
Defined.

(** ** The size of the blob *)

Lemma writeRawNode_size (bodyOffset : Z) (n : RevNode) :
  size (writeRawNode bodyOffset n) = sizeForRawNode n.
Proof.
  destruct (rawFlags_facts n) as (_ & F2 & F3 & _).
  unfold writeRawNode, sizeForRawNode, SizeOfVarInt. rewrite F2.
  unfold size in *. rewrite !length_app. cbn [put_u32 put_u16 length].
  destruct (0 <? Z.of_nat (length (data n))) eqn:D; [lia|].
  rewrite (F3 eq_refl).
  destruct (Z.ltb_spec 0 (oldBodyOffset n)) as [O|O]; [|cbn [length]; lia].
  destruct (Z.eqb_spec (oldBodyOffset n) 0); lia.
Qed.

Lemma concat_writeRawNode_size (bodyOffset : Z) (ns : list RevNode) :
  size (concat (map (writeRawNode bodyOffset) ns)) = sumSizes ns.
Proof.
  induction ns as [|n ns IH]; [reflexivity|].
  cbn [map concat sumSizes fold_right]. unfold size in *. rewrite length_app.
  rewrite Nat2Z.inj_add, IH. f_equal. apply writeRawNode_size.
Qed.

Lemma sort_sorted (std_sort : list RevNode -> list RevNode) (t t' : RevTree) :
  sort std_sort t = Ok t' -> _sorted t' = true.
Proof.
  unfold sort. destruct (_sorted t) eqn:S; [intros [= <-]; exact S|].
  destruct (65535 <? size (_nodes t)); [discriminate|].
  destruct (fillOldToNew _ _ _) as [o|]; cbn [bind]; [|discriminate].
  destruct (fixParents _ _ _) as [ns|]; cbn [bind]; [|discriminate].
  intros [= <-]. reflexivity.
Qed.

(** X10: The blob [encode] returns has the size the code allocates for it,
    four bytes more than the record sizes of the nodes add up to, and
    ends with the four zero bytes of the terminator (the assertion at
    the end of [encode] holds); the tree is left flagged sorted, and
    with an inline body only on nodes that are leaves or new. *)
Theorem encode_blob_size (std_sort : list RevNode -> list RevNode)
    (t t' : RevTree) (b : slice) :
  encode std_sort t = Ok (t', b) ->
  size b = 4 + sumSizes (_nodes t') /\
  skipn (length b - 4) b = put_u32 0 /\
  _sorted t' = true /\
  forall n, In n (_nodes t') -> 0 < size (data n) -> isLeaf n || isNew n = true.
Proof.
  unfold encode. destruct (sort std_sort t) as [ts|] eqn:S; cbn [bind]; [|discriminate].
  intros [= <- <-]. cbn [set_nodes _nodes _sorted].
  split.
  { unfold size. rewrite length_app, Nat2Z.inj_add.
    fold (size (concat (map (writeRawNode (_bodyOffset ts))
                          (map (pruneBody (_bodyOffset ts)) (_nodes ts))))).
    rewrite concat_writeRawNode_size. cbn [put_u32 length]. lia. }
  split.
  { rewrite length_app. cbn [put_u32 length].
    replace (length (concat (map (writeRawNode (_bodyOffset ts))
                               (map (pruneBody (_bodyOffset ts)) (_nodes ts)))) + 4 - 4)%nat
      with (length (concat (map (writeRawNode (_bodyOffset ts))
                              (map (pruneBody (_bodyOffset ts)) (_nodes ts)))) + 0)%nat by lia.
    rewrite skipn_app, Nat.add_0_r, skipn_all, Nat.sub_diag. reflexivity. }
  split; [exact (sort_sorted _ _ _ S)|].
  intros n Hn Hd. apply in_map_iff in Hn as (m & <- & _).
  unfold pruneBody in *.
  destruct ((0 <? size (data m)) && negb (isLeaf m || isNew m)) eqn:C.
  - cbn [data] in Hd. unfold size in Hd. cbn [length] in Hd. lia.
  - apply Z.ltb_lt in Hd. rewrite Hd in C. cbn [andb] in C.
    apply negb_false_iff in C. exact C.
Qed.

Lemma encode_blob_size_witness :
  encode insertion_sort tree_2bb = Ok encoded_2bb /\
  size (snd encoded_2bb) = 4 + sumSizes (_nodes (fst encoded_2bb)).
Proof.
  split; [vm_compute; reflexivity|].
  apply (encode_blob_size insertion_sort tree_2bb (fst encoded_2bb) (snd encoded_2bb)).
  vm_compute; reflexivity.
Defined.

(** ** Decoding what was encoded *)

Lemma encodable_inv (n : RevNode) :
  encodable n = true ->
  size (revID n) <= 255 /\ 0 <= parentIndex n < 2 ^ 16 /\ 0 <= sequence n < 2 ^ 64 /\
  0 <= oldBodyOffset n < 2 ^ 64 /\ 0 < sizeForRawNode n < 2 ^ 32.
Proof.
  unfold encodable. rewrite !andb_true_iff.
  intros ((((H1 & H2 & H3) & H4 & H5) & H6 & H7) & H8).
  apply Z.leb_le in H1, H2, H4, H6. apply Z.ltb_lt in H3, H5, H7, H8.
  assert (0 < sizeForRawNode n) by (rewrite sizeForRawNode_layout; unfold size; lia).
  lia.
Qed.

Lemma writeRawNode_layout_encodable (bodyOffset : Z) (n : RevNode) :
  encodable n = true ->
  writeRawNode bodyOffset n
  = header (sizeForRawNode n) (parentIndex n) (rawFlags n) (size (revID n))
    ++ revID n ++ PutUVarInt (sequence n) ++ payload n.
Proof.
  intros H. apply encodable_inv in H as (H1 & H2 & H3 & H4 & H5).
  destruct (rawFlags_facts n) as (F1 & F2 & F3 & F4).
  unfold writeRawNode, header, payload. rewrite <- !app_assoc.
  rewrite !Z.mod_small by (unfold size in *; lia).
  rewrite F2. do 5 f_equal.
  destruct (0 <? size (data n)) eqn:D; [reflexivity|].
  rewrite (F3 eq_refl).
  destruct (Z.ltb_spec 0 (oldBodyOffset n)) as [O|O]; [|reflexivity].
  destruct (Z.eqb_spec (oldBodyOffset n) 0); [lia|reflexivity].
Qed.

Lemma nodeFromRawNode_encodable (bodyOffset : Z) (n dst : RevNode) (rest : slice) :
  encodable n = true ->
  read_u32 (writeRawNode bodyOffset n ++ rest) 0 = Ok (sizeForRawNode n) /\
  nodeFromRawNode (writeRawNode bodyOffset n ++ rest) dst
  = Ok (mkRevNode (revID n) (parentIndex n)
          (Z.land (flags n) kRevNodePublicPersistentFlags)
          (sequence n)
          (if 0 <? size (data n) then 0 else oldBodyOffset n)
          (data n)).
Proof.
  intros H. rewrite (writeRawNode_layout_encodable _ _ H).
  apply encodable_inv in H as (H1 & H2 & H3 & H4 & H5).
  destruct (rawFlags_facts n) as (F1 & F2 & F3 & F4).
  rewrite <- !app_assoc. split.
  { unfold header. rewrite <- !app_assoc. apply read_put_u32. lia. }
  rewrite nodeFromRawNode_record; try assumption; try lia; [|apply sizeForRawNode_layout].
  rewrite F2, F4. unfold payload.
  destruct (0 <? size (data n)) eqn:D; [reflexivity|].
  rewrite (F3 eq_refl).
  assert (data n = []) as ->.
  { apply Z.ltb_ge in D. unfold size in D. destruct (data n); [reflexivity|simpl in D; lia]. }
  destruct (Z.ltb_spec 0 (oldBodyOffset n)) as [O|O].
  - rewrite <- (app_nil_r (PutUVarInt (oldBodyOffset n))), GetUVarInt_Put by lia.
    reflexivity.
  - do 2 f_equal. lia.
Qed.

Lemma skipn_written (bodyOffset : Z) (n : RevNode) (rest : slice) :
  skipn (Z.to_nat (sizeForRawNode n)) (writeRawNode bodyOffset n ++ rest) = rest.
Proof.
  rewrite <- (writeRawNode_size bodyOffset n). unfold size. rewrite Nat2Z.id.
  apply skipn_length_app.
Qed.

Lemma decode_nodes_encodable (bodyOffset seq : Z) (ns : list RevNode) :
  forallb encodable ns = true ->
  forall fuel dsts, (length ns < fuel)%nat -> length dsts = length ns ->
  decode_nodes fuel (concat (map (writeRawNode bodyOffset) ns) ++ put_u32 0) seq dsts
  = Ok (map (decoded seq) ns, put_u32 0).
Proof.
  induction ns as [|n ns IH]; intros Hall fuel dsts Hf Hd;
    (destruct fuel as [|fuel]; [simpl in Hf; lia|]).
  - destruct dsts; [reflexivity|discriminate].
  - simpl in Hall. apply andb_true_iff in Hall as [Hn Hall].
    destruct dsts as [|dst dsts]; [discriminate|].
    cbn [map concat decode_nodes]. rewrite <- app_assoc.
    destruct (nodeFromRawNode_encodable bodyOffset n dst
                (concat (map (writeRawNode bodyOffset) ns) ++ put_u32 0) Hn) as [-> ->].
    cbn [bind].
    apply encodable_inv in Hn as (_ & _ & _ & _ & Hpos).
    assert ((0 <? sizeForRawNode n) = true) as -> by (apply Z.ltb_lt; lia).
    rewrite skipn_written.
    rewrite IH; [|exact Hall|simpl in Hf; lia|simpl in Hd; lia].
    cbn [bind]. unfold decoded. cbn [sequence].
    destruct (sequence n =? 0); reflexivity.
Qed.

Lemma record_walk_encodable (bodyOffset : Z) (ns : list RevNode) :
  forallb encodable ns = true ->
  exists recs, length recs = length ns /\
    record_walk (concat (map (writeRawNode bodyOffset) ns) ++ put_u32 0) recs (put_u32 0).
Proof.
  induction ns as [|n ns IH]; intros Hall.
  - exists []. split; [reflexivity|]. apply walk_end. reflexivity.
  - simpl in Hall. apply andb_true_iff in Hall as [Hn Hall].
    destruct (IH Hall) as (recs & L & W).
    cbn [map concat]. rewrite <- app_assoc.
    destruct (nodeFromRawNode_encodable bodyOffset n zeroNode
                (concat (map (writeRawNode bodyOffset) ns) ++ put_u32 0) Hn) as [R _].
    apply encodable_inv in Hn as (_ & _ & _ & _ & Hpos).
    eexists (_ :: recs). split; [simpl; rewrite L; reflexivity|].
    eapply walk_step; [exact R|lia|]. rewrite skipn_written. exact W.
Qed.

(** X11: A tree built from a blob that [encode] wrote for at most 65535
    nodes, each of which fits its record, holds those very nodes in the
    same order: revision IDs, parent indexes, bodies and sequences as
    written (a zero sequence replaced by the one given), the flags cut
    down to [Leaf] and [Deleted], and the body offset kept only by nodes
    without an inline body.  The tree is flagged sorted and
    unchanged. *)
Theorem decode_encode_nodes (std_sort : list RevNode -> list RevNode)
    (t t' : RevTree) (b : slice) (seq docOffset : Z) :
  encode std_sort t = Ok (t', b) ->
  size (_nodes t') <= 65535 ->
  forallb encodable (_nodes t') = true ->
  RevTree_of b seq docOffset
  = Ok (mkRevTree (map (decoded seq) (_nodes t')) 0 true false).
Proof.
  intros E Hsz Hall. unfold encode in E.
  destruct (sort std_sort t) as [ts|f]; cbn [bind] in E; [|discriminate].
  injection E as <- <-. cbn [set_nodes _nodes] in Hsz, Hall |- *.
  set (ns := map (pruneBody (_bodyOffset ts)) (_nodes ts)) in *.
  destruct (record_walk_encodable (_bodyOffset ts) ns Hall) as (recs & L & W).
  pose proof (record_walk_bound _ _ _ W) as [B _].
  unfold RevTree_of, decode.
  rewrite (countRawNodes_of_walk _ _ _ W). cbn [bind].
  assert (size recs = size ns) as Hrecs by (unfold size; rewrite L; reflexivity).
  rewrite Hrecs, Z.mod_small by (unfold size in *; lia).
  assert ((65535 <? size ns) = false) as -> by (apply Z.ltb_ge; exact Hsz).
  rewrite (decode_nodes_encodable _ seq ns Hall);
    [|lia|rewrite resize_length; unfold size; lia].
  cbn [bind]. change (negb (size (put_u32 0) =? 4)) with false. cbv iota.
  reflexivity.
Qed.

(** The blob of "1-aa" <- "2-bb": the body of "1-aa", kept by [encode],
    comes back, and both nodes get the sequence 7. *)
Lemma decode_encode_nodes_witness :
  encode insertion_sort tree_2bb = Ok encoded_2bb /\
  size (_nodes (fst encoded_2bb)) <= 65535 /\
  forallb encodable (_nodes (fst encoded_2bb)) = true /\
  RevTree_of (snd encoded_2bb) 7 0
  = Ok (mkRevTree (map (decoded 7) (_nodes (fst encoded_2bb))) 0 true false).
Proof.
  split; [vm_compute; reflexivity|]. split; [vm_compute; discriminate|].
  split; [vm_compute; reflexivity|].
  apply (decode_encode_nodes insertion_sort tree_2bb (fst encoded_2bb)).
  - vm_compute; reflexivity.
  - vm_compute; discriminate.
  - vm_compute; reflexivity.
Defined.

(** ** What a decoded tree looks like *)

Lemma read_u16_range (p : slice) (i : nat) (v : Z) :
  read_u16 p i = Ok v -> 0 <= v < 2 ^ 16.
Proof.
  unfold read_u16.
  destruct (read_u8 p i) as [b0|] eqn:E0; cbn [bind]; [|discriminate].
  destruct (read_u8 p (i + 1)) as [b1|] eqn:E1; cbn [bind]; [|discriminate].
  intros [= <-]. apply read_u8_inv in E0, E1. lia.
Qed.

Lemma subslice_length (p s : slice) (start len : nat) :
  subslice p start len = Ok s -> length s = len.
Proof.
  unfold subslice. destruct (Nat.leb_spec (start + len) (length p)); [|discriminate].
  intros [= <-]. rewrite length_firstn, length_skipn. lia.
Qed.

Lemma land_persistent_range (f : Z) :
  0 <= Z.land f kRevNodePublicPersistentFlags <= 3.
Proof. destruct (land_persistent_cases f) as [E|[E|[E|E]]]; rewrite E; lia. Qed.

Lemma nodeFromRawNode_shape (p : slice) (dst n : RevNode) :
  nodeFromRawNode p dst = Ok n ->
  0 <= flags n <= 3 /\ 0 <= parentIndex n < 2 ^ 16 /\ size (revID n) <= 255 /\
  (data n = [] \/ oldBodyOffset n = 0).
Proof.
  unfold nodeFromRawNode.
  destruct (read_u32 p 0) as [sz|f0] eqn:E0; cbn [bind]; [|discriminate].
  destruct (read_u8 p 7) as [len|f1] eqn:E1; cbn [bind]; [|discriminate].
  destruct (subslice p 8 (Z.to_nat len)) as [rev|f2] eqn:E2; cbn [bind]; [|discriminate].
  destruct (read_u8 p 6) as [fl|f3]; cbn [bind]; [|discriminate].
  destruct (read_u16 p 4) as [par|f4] eqn:E4; cbn [bind]; [|discriminate].
  destruct (upToEnd p (8 + Z.to_nat len) (Z.to_nat sz)) as [buf|f5]; cbn [bind];
    [|discriminate].
  destruct (getVarInt buf) as [r|f6]; cbn [bind]; [|discriminate].
  apply read_u8_inv in E1 as [_ Hlen]. apply subslice_length in E2.
  apply read_u16_range in E4. pose proof (land_persistent_range fl) as Hfl.
  assert (size rev <= 255) by (unfold size; lia).
  destruct (match r with
            | Some (nBytes, v) => (nBytes, v)
            | None => (0%nat, sequence dst)
            end) as [nBytes sq].
  destruct (has_flag fl kRevNodeHasData).
  - destruct (upToEnd p _ _) as [body|f7]; cbn [bind]; [|discriminate].
    intros [= <-]. cbn [flags parentIndex revID data oldBodyOffset]. auto.
  - destruct (has_flag fl kRevNodeHasBodyOffset).
    + destruct (upToEnd p _ _) as [body|f7]; cbn [bind]; [|discriminate].
      destruct (getVarInt body) as [r'|f8]; cbn [bind]; [|discriminate].
      intros [= <-]. cbn [flags parentIndex revID data oldBodyOffset]. auto.
    + intros [= <-]. cbn [flags parentIndex revID data oldBodyOffset]. auto.
Qed.

Lemma decodedShape_intro (seq : Z) (n : RevNode) :
  0 <= flags n <= 3 -> 0 <= parentIndex n < 2 ^ 16 -> size (revID n) <= 255 ->
  (data n = [] \/ oldBodyOffset n = 0) -> (sequence n = 0 -> seq = 0) ->
  decodedShape seq n = true.
Proof.
  intros Hf Hp Hr Hd Hs. unfold decodedShape. rewrite !andb_true_iff. repeat split.
  - apply Z.leb_le; lia.
  - apply Z.leb_le; lia.
  - unfold isNew, has_flag. apply negb_true_iff, negb_false_iff, Z.eqb_eq.
    assert (flags n = 0 \/ flags n = 1 \/ flags n = 2 \/ flags n = 3) as HH by lia.
    destruct HH as [E|[E|[E|E]]]; rewrite E; reflexivity.
  - apply Z.leb_le; lia.
  - apply Z.ltb_lt; lia.
  - apply Z.leb_le; lia.
  - apply orb_true_iff. destruct Hd as [E | E]; rewrite E; [left | right]; reflexivity.
  - destruct (Z.eqb_spec (sequence n) 0) as [E|E]; [|reflexivity].
    cbn [implb]. apply Z.eqb_eq. auto.
Qed.

(** The nodes [decode_nodes] returns: one per record, each of the shape
    above, then the destination nodes the walk did not reach. *)
Lemma decode_nodes_shape (fuel : nat) (p : slice) (seq : Z) (dsts ns : list RevNode)
    (e : slice) :
  decode_nodes fuel p seq dsts = Ok (ns, e) ->
  exists recs filled rest,
    record_walk p recs e /\ ns = filled ++ rest /\ length filled = length recs /\
    (length filled + length rest = length dsts)%nat /\
    forallb (decodedShape seq) filled = true.
Proof.
  revert p dsts ns; induction fuel as [|fuel IH]; intros p dsts ns; cbn [decode_nodes];
    [discriminate|].
  destruct (read_u32 p 0) as [sz|f0] eqn:E0; cbn [bind]; [|discriminate].
  destruct (Z.ltb_spec 0 sz) as [Hsz|Hsz].
  - destruct dsts as [|dst dsts]; [discriminate|].
    destruct (nodeFromRawNode p dst) as [n|f1] eqn:E1; cbn [bind]; [|discriminate].
    destruct (decode_nodes fuel (skipn (Z.to_nat sz) p) seq dsts) as [[ns' e']|f2] eqn:E2;
      cbn [bind]; [|discriminate].
    intros [= <- <-]. apply IH in E2 as (recs & filled & rest & W & -> & L1 & L2 & F).
    exists (p :: recs), ((if sequence n =? 0 then set_sequence n seq else n) :: filled), rest.
    split; [eapply walk_step; eauto|]. split; [reflexivity|].
    split; [simpl; lia|]. split; [simpl; lia|].
    cbn [forallb]. rewrite F, andb_true_r.
    destruct (nodeFromRawNode_shape _ _ _ E1) as (S1 & S2 & S3 & S4).
    destruct (Z.eqb_spec (sequence n) 0) as [E|E];
      apply decodedShape_intro; cbn [set_sequence flags parentIndex revID data
                                     oldBodyOffset sequence]; auto; lia.
  - intros [= <- <-]. exists [], [], dsts.
    split; [|repeat split].
    apply walk_end. apply read_u32_inv in E0 as H'. replace sz with 0 in E0 by lia. exact E0.
Qed.

Lemma record_walk_suffix (p : slice) (recs : list slice) (e : slice) :
  record_walk p recs e -> exists k, e = skipn k p.
Proof.
  induction 1 as [p H|p sz recs e H Hsz W [k ->]].
  - exists 0%nat. reflexivity.
  - exists (k + Z.to_nat sz)%nat. rewrite skipn_skipn. reflexivity.
Qed.

Lemma terminator_bytes (e : slice) :
  read_u32 e 0 = Ok 0 -> size e = 4 -> e = put_u32 0.
Proof.
  intros R S. unfold size in S.
  destruct e as [|a [|b [|c [|d [|x e]]]]]; simpl in S; try lia.
  revert R. unfold read_u32, read_u8. cbn [nth_error Nat.add bind]. intros [= R].
  pose proof (byte.unsigned_range a). pose proof (byte.unsigned_range b).
  pose proof (byte.unsigned_range c). pose proof (byte.unsigned_range d).
  assert (byte.unsigned a = 0 /\ byte.unsigned b = 0 /\ byte.unsigned c = 0
          /\ byte.unsigned d = 0) as (Ea & Eb & Ec & Ed) by lia.
  unfold put_u32. repeat f_equal; apply byte.unsigned_inj; assumption.
Qed.

Lemma record_walk_end (p : slice) (recs : list slice) (e : slice) :
  record_walk p recs e -> read_u32 e 0 = Ok 0.
Proof. induction 1; assumption. Qed.

(** X12: When [decode] returns a tree, the blob ends with the four zero
    bytes of the terminator, the tree has one node for each record and
    at most 65535 of them, and every node has the shape [decodedShape]:
    in particular none is flagged new, and none has both an inline body
    and a body offset.  The other fields of the tree are as they
    were. *)
Theorem decode_shape (t t' : RevTree) (raw_tree : slice) (seq docOffset : Z) :
  decode t raw_tree seq docOffset = Ok t' ->
  skipn (length raw_tree - 4) raw_tree = put_u32 0 /\
  countRawNodes raw_tree = Ok (size (_nodes t')) /\
  size (_nodes t') <= 65535 /\
  forallb (decodedShape seq) (_nodes t') = true /\
  _sorted t' = _sorted t /\ _changed t' = _changed t /\ _bodyOffset t' = _bodyOffset t.
Proof.
  unfold decode.
  destruct (countRawNodes raw_tree) as [count|f] eqn:C; cbn [bind]; [|discriminate].
  destruct (walk_of_count _ _ _ _ C) as (recs & e & W).
  rewrite (countRawNodes_of_walk _ _ _ W) in C.
  assert (count = size recs mod 2 ^ 32) as -> by congruence.
  destruct (Z.ltb_spec 65535 (size recs mod 2 ^ 32)) as [Hc|Hc]; [discriminate|].
  destruct (decode_nodes (S (length raw_tree)) raw_tree seq
              (resize (_nodes t) (Z.to_nat (size recs mod 2 ^ 32)))) as [[ns e']|f] eqn:D;
    cbn [bind]; [|discriminate].
  destruct (Z.eqb_spec (size e') 4) as [He|He]; cbn [negb]; [|discriminate].
  intros [= <-]. cbn [set_nodes _nodes _sorted _changed _bodyOffset].
  apply decode_nodes_shape in D as (recs' & filled & rest & W' & -> & L1 & L2 & F).
  destruct (record_walk_det _ _ _ _ _ W W') as [<- <-].
  rewrite resize_length in L2.
  assert (0 <= size recs mod 2 ^ 32 <= size recs) as M.
  { split; [apply Z.mod_pos_bound; lia|apply Z.mod_le; unfold size; lia]. }
  assert (size recs mod 2 ^ 32 = size recs /\ rest = []) as [Em ->].
  { unfold size in *. split; [lia|]. destruct rest; [reflexivity|simpl in L2; lia]. }
  rewrite app_nil_r. rewrite Em in *.
  assert (size filled = size recs) as Ef by (unfold size; rewrite L1; reflexivity).
  rewrite Ef. repeat split; try assumption; try reflexivity.
  destruct (record_walk_suffix _ _ _ W) as [k Hk].
  pose proof (record_walk_end _ _ _ W) as R.
  rewrite <- (terminator_bytes e R He).
  assert (length e = 4%nat) as Le by (unfold size in He; lia).
  rewrite Hk in Le |- *. rewrite length_skipn in Le. f_equal. lia.
Qed.

(** The blob of "1-aa" <- "2-bb" decodes. *)
Lemma decode_shape_witness :
  decode empty_tree (snd encoded_2bb) 7 0 = Ok reloaded_2bb /\
  forallb (decodedShape 7) (_nodes reloaded_2bb) = true.
Proof.
  split; [vm_compute; reflexivity|].
  apply (decode_shape empty_tree reloaded_2bb (snd encoded_2bb) 7 0).
  vm_compute; reflexivity.
Defined.

(** ** Sorting keeps the parent links *)

Lemma tagIndexes_nth (ns : list RevNode) (i : Z) (k : nat) :
  nth_error (tagIndexes ns i) k
  = option_map (fun n => set_parentIndex n (i + Z.of_nat k)) (nth_error ns k).
Proof.
  revert i k; induction ns as [|n ns IH]; intros i k; [destruct k; reflexivity|].
  destruct k as [|k]; cbn [tagIndexes nth_error option_map].
  - rewrite Z.add_0_r. reflexivity.
  - rewrite IH. destruct (nth_error ns k); [|reflexivity]. cbn [option_map].
    do 2 f_equal. lia.
Qed.

Lemma tagIndexes_length (ns : list RevNode) (i : Z) :
  length (tagIndexes ns i) = length ns.
Proof. revert i; induction ns as [|n ns IH]; intros i; simpl; [|rewrite IH]; reflexivity. Qed.

Lemma tagIndexes_In (ns : list RevNode) (i : Z) (s : RevNode) :
  In s (tagIndexes ns i) ->
  exists k n, nth_error ns k = Some n /\ s = set_parentIndex n (i + Z.of_nat k).
Proof.
  intros H. apply In_nth_error in H as [k Hk]. rewrite tagIndexes_nth in Hk.
  destruct (nth_error ns k) as [n|] eqn:E; [|discriminate]. injection Hk as <-. eauto.
Qed.

Lemma tagIndexes_NoDup (ns : list RevNode) (i : Z) :
  NoDup (map parentIndex (tagIndexes ns i)).
Proof.
  revert i; induction ns as [|n ns IH]; intros i; cbn [tagIndexes map]; constructor;
    [|apply IH].
  cbn [set_parentIndex parentIndex]. intros H. apply in_map_iff in H as (s & E & Hs).
  apply tagIndexes_In in Hs as (k & m & _ & ->). cbn [set_parentIndex parentIndex] in E. lia.
Qed.

Lemma update_replace_len {A : Type} (l l' : list A) (i : nat) (f : A -> A) :
  update l i f = Ok l' -> length l' = length l.
Proof. intros H. apply update_inv in H as (x & _ & L & _). exact L. Qed.

(** The second loop of [sort], on nodes whose tags are distinct indexes
    into the table. *)
Lemma fillOldToNew_spec (ns : list RevNode) :
  forall (i : Z) (o : list (option Z)),
  NoDup (map parentIndex ns) ->
  (forall s, In s ns -> 0 <= parentIndex s < size o) ->
  exists o', fillOldToNew ns i o = Ok o' /\ length o' = length o /\
    (forall j s, nth_error ns j = Some s ->
                 nth_error o' (Z.to_nat (parentIndex s)) = Some (Some (i + Z.of_nat j))) /\
    (forall k, ~ In (Z.of_nat k) (map parentIndex ns) -> nth_error o' k = nth_error o k).
Proof.
  induction ns as [|n ns IH]; intros i o ND Hin; cbn [fillOldToNew].
  - exists o. split; [reflexivity|]. split; [reflexivity|].
    split; [intros [|j] s; discriminate|reflexivity].
  - inversion ND as [|x l Hx ND']; subst.
    assert (0 <= parentIndex n < size o) as B by (apply Hin; left; reflexivity).
    destruct (Z.ltb_spec (parentIndex n) 0); [lia|].
    destruct (update_ok o (Z.to_nat (parentIndex n)) (fun _ => Some i)) as [o1 U];
      [unfold size in B; lia|].
    rewrite U. cbn [bind].
    destruct (update_inv _ _ _ _ U) as (x & _ & L1 & Hset & Hoth).
    destruct (IH (i + 1) o1 ND') as (o' & -> & L' & Hj & Hk).
    { intros s Hs. unfold size. rewrite L1. apply Hin. right. exact Hs. }
    exists o'. split; [reflexivity|]. split; [lia|]. split.
    + intros [|j] s; cbn [nth_error].
      * intros [= <-]. rewrite Hk, Hset, Z.add_0_r; [reflexivity|].
        rewrite Z2Nat.id by lia. exact Hx.
      * intros Hs. rewrite (Hj j s Hs). do 2 f_equal. lia.
    + intros k Hk'. cbn [map] in Hk'. rewrite Hk by (intros C; apply Hk'; right; exact C).
      apply Hoth. intros ->. apply Hk'. left. rewrite Z2Nat.id by lia. reflexivity.
Qed.

(** The third loop. *)
Lemma fixParents_spec (oldParents : list Z) (oldToNew : list (option Z))
    (ns : list RevNode) :
  (forall s, In s ns ->
     exists parent, nth_error oldParents (Z.to_nat (parentIndex s)) = Some parent /\
       0 <= parentIndex s /\
       (parent = kNoParent \/
        0 <= parent /\ exists j, nth_error oldToNew (Z.to_nat parent) = Some (Some j))) ->
  exists ns', fixParents oldParents oldToNew ns = Ok ns' /\
    Forall2 (fun s n' =>
               exists parent, nth_error oldParents (Z.to_nat (parentIndex s)) = Some parent /\
                 if parent =? kNoParent then n' = set_parentIndex s kNoParent
                 else exists j, nth_error oldToNew (Z.to_nat parent) = Some (Some j) /\
                                n' = set_parentIndex s j)
            ns ns'.
Proof.
  induction ns as [|s ns IH]; intros H; cbn [fixParents].
  - exists []. split; [reflexivity|constructor].
  - destruct (H s (or_introl eq_refl)) as (parent & Hp & Hs0 & Hpar).
    unfold at_index at 1. destruct (Z.ltb_spec (parentIndex s) 0); [lia|].
    rewrite Hp. cbn [bind].
    destruct IH as (ns' & E & F); [intros x Hx; apply H; right; exact Hx|].
    destruct (Z.eqb_spec parent kNoParent) as [Ek|Ek]; cbn [negb bind].
    + rewrite E. cbn [bind]. eexists. split; [reflexivity|].
      constructor; [|exact F]. exists parent. split; [exact Hp|].
      rewrite (proj2 (Z.eqb_eq _ _) Ek). subst parent. reflexivity.
    + destruct Hpar as [C|(Hp0 & j & Hj)]; [contradiction|].
      unfold at_index. destruct (Z.ltb_spec parent 0); [lia|]. rewrite Hj. cbn [bind].
      rewrite E. cbn [bind]. eexists. split; [reflexivity|].
      constructor; [|exact F]. exists parent. split; [exact Hp|].
      rewrite (proj2 (Z.eqb_neq _ _) Ek). eauto.
Qed.

(** What [sort] does to a tree that is not flagged sorted. *)
Lemma sort_spec (std_sort : list RevNode -> list RevNode) (t : RevTree) :
  _sorted t = false -> size (_nodes t) <= 65535 -> parentsValid t = true ->
  Permutation (std_sort (tagIndexes (_nodes t) 0)) (tagIndexes (_nodes t) 0) ->
  exists t', sort std_sort t = Ok t' /\ _sorted t' = true /\
    _changed t' = _changed t /\ _bodyOffset t' = _bodyOffset t /\
    map unlinked (_nodes t') = map unlinked (std_sort (tagIndexes (_nodes t) 0)) /\
    Forall2 (fun tag n' =>
               exists n, nth_error (_nodes t) (Z.to_nat tag) = Some n /\
                 unlinked n' = unlinked n /\
                 if parentIndex n =? kNoParent then parentIndex n' = kNoParent
                 else nth_error (map parentIndex (std_sort (tagIndexes (_nodes t) 0)))
                        (Z.to_nat (parentIndex n')) = Some (parentIndex n))
            (map parentIndex (std_sort (tagIndexes (_nodes t) 0))) (_nodes t').
Proof.
  intros Hs Hsz V P. unfold sort. rewrite Hs.
  assert ((65535 <? size (_nodes t)) = false) as -> by (apply Z.ltb_ge; exact Hsz).
  set (sorted := std_sort (tagIndexes (_nodes t) 0)) in *.
  rewrite parentsValid_iff in V.
  assert (forall s, In s sorted ->
            exists k n, nth_error (_nodes t) k = Some n /\
                        s = set_parentIndex n (Z.of_nat k)) as Hel.
  { intros s Hin. apply (Permutation_in _ P) in Hin.
    apply tagIndexes_In in Hin as (k & n & Hk & ->). rewrite Z.add_0_l. eauto. }
  assert (NoDup (map parentIndex sorted)) as ND.
  { eapply Permutation_NoDup; [|apply (tagIndexes_NoDup (_nodes t) 0)].
    apply Permutation_map, Permutation_sym, P. }
  destruct (fillOldToNew_spec sorted 0 (repeat None (length (_nodes t))) ND)
    as (o & -> & Lo & Hj & _).
  { intros s Hin. destruct (Hel s Hin) as (k & n & Hk & ->).
    cbn [set_parentIndex parentIndex]. unfold size. rewrite repeat_length.
    assert (k < length (_nodes t))%nat by (apply nth_error_Some; congruence). lia. }
  cbn [bind].
  assert (forall k, (k < length (_nodes t))%nat ->
            exists j s, nth_error sorted j = Some s /\ parentIndex s = Z.of_nat k) as Hall.
  { intros k Hk. destruct (nth_error (_nodes t) k) as [n|] eqn:N;
      [|apply nth_error_None in N; lia].
    assert (In (set_parentIndex n (Z.of_nat k)) sorted) as Hin.
    { apply (Permutation_in _ (Permutation_sym P)).
      apply (nth_error_In _ k). rewrite tagIndexes_nth, N. reflexivity. }
    apply In_nth_error in Hin as [j Hjn]. eauto. }
  destruct (fixParents_spec (map parentIndex (_nodes t)) o sorted) as (ns' & -> & F).
  { intros s Hin. destruct (Hel s Hin) as (k & n & Hk & ->).
    cbn [set_parentIndex parentIndex]. rewrite Nat2Z.id.
    exists (parentIndex n). rewrite nth_error_map, Hk. split; [reflexivity|].
    split; [lia|].
    destruct (V n (nth_error_In _ _ Hk)) as [E|B]; [left; exact E|right].
    split; [lia|]. destruct (Hall (Z.to_nat (parentIndex n))) as (j & s & Hjs & Es);
      [unfold size in B; lia|].
    exists (0 + Z.of_nat j). rewrite <- (Hj j s Hjs), Es, Nat2Z.id. reflexivity. }
  cbn [bind]. eexists. split; [reflexivity|].
  cbn [_sorted _changed _bodyOffset _nodes]. repeat split.
  - clear - F. induction F as [|s n' l l' (parent & _ & H) F IH]; [reflexivity|].
    cbn [map]. rewrite IH. f_equal.
    destruct (parent =? kNoParent); [subst n'; reflexivity|].
    destruct H as (j & _ & ->). reflexivity.
  - assert (forall s n', In s sorted ->
              (exists parent,
                  nth_error (map parentIndex (_nodes t)) (Z.to_nat (parentIndex s))
                  = Some parent /\
                  if parent =? kNoParent then n' = set_parentIndex s kNoParent
                  else exists j, nth_error o (Z.to_nat parent) = Some (Some j) /\
                                 n' = set_parentIndex s j) ->
              exists n, nth_error (_nodes t) (Z.to_nat (parentIndex s)) = Some n /\
                unlinked n' = unlinked n /\
                if parentIndex n =? kNoParent then parentIndex n' = kNoParent
                else nth_error (map parentIndex sorted) (Z.to_nat (parentIndex n'))
                     = Some (parentIndex n)) as Step.
    { intros s n' Hin (parent & Hp & H).
      destruct (Hel s Hin) as (k & n & Hk & ->).
      cbn [set_parentIndex parentIndex] in *. rewrite Nat2Z.id in *.
      rewrite nth_error_map, Hk in Hp. injection Hp as <-.
      exists n. split; [exact Hk|].
      destruct (Z.eqb_spec (parentIndex n) kNoParent) as [E|E].
      - subst n'. split; reflexivity.
      - destruct H as (j & Ho & ->). split; [reflexivity|]. cbn [parentIndex].
        destruct (V n (nth_error_In _ _ Hk)) as [C|B]; [contradiction|].
        destruct (Hall (Z.to_nat (parentIndex n))) as (j' & s' & Hjs & Es);
          [unfold size in B; lia|].
        pose proof (Hj j' s' Hjs) as Ho'. rewrite Es, Nat2Z.id, Ho in Ho'.
        assert (j = 0 + Z.of_nat j') as -> by congruence.
        cbn [set_parentIndex parentIndex].
        rewrite Z.add_0_l, Nat2Z.id, nth_error_map, Hjs. cbn [option_map].
        rewrite Es. f_equal. lia. }
    assert (forall l l',
              Forall2 (fun s n' =>
                 exists parent,
                   nth_error (map parentIndex (_nodes t)) (Z.to_nat (parentIndex s))
                   = Some parent /\
                   if parent =? kNoParent then n' = set_parentIndex s kNoParent
                   else exists j, nth_error o (Z.to_nat parent) = Some (Some j) /\
                                  n' = set_parentIndex s j) l l' ->
              (forall s, In s l -> In s sorted) ->
              Forall2 (fun tag n' =>
                 exists n, nth_error (_nodes t) (Z.to_nat tag) = Some n /\
                   unlinked n' = unlinked n /\
                   if parentIndex n =? kNoParent then parentIndex n' = kNoParent
                   else nth_error (map parentIndex sorted) (Z.to_nat (parentIndex n'))
                        = Some (parentIndex n))
                (map parentIndex l) l') as Gen.
    { intros l l' F2. induction F2 as [|s n' l l' H F2 IH]; intros Sub; cbn [map];
        constructor.
      - apply Step; [apply Sub; left; reflexivity|exact H].
      - apply IH. intros x Hx. apply Sub. right. exact Hx. }
    apply (Gen sorted ns' F). auto.
Qed.

(** X13: On a tree that is not flagged sorted, has at most 65535 nodes and
    valid parent indexes, and whenever [std::sort] returns a permutation
    of what it is given, [sort] returns: the nodes come out in the order
    [std::sort] chose, with all their fields but the parent index, and
    the parent index of each is [kNoParent] if it was, and otherwise
    the new place of the node that was its parent ([tags] gives, for
    each new place, the old index of the node now there). *)
Theorem sort_relinks (std_sort : list RevNode -> list RevNode) (t : RevTree) :
  _sorted t = false -> size (_nodes t) <= 65535 -> parentsValid t = true ->
  Permutation (std_sort (tagIndexes (_nodes t) 0)) (tagIndexes (_nodes t) 0) ->
  exists t', sort std_sort t = Ok t' /\ _sorted t' = true /\
    _changed t' = _changed t /\ _bodyOffset t' = _bodyOffset t /\
    map unlinked (_nodes t') = map unlinked (std_sort (tagIndexes (_nodes t) 0)) /\
    Forall2 (fun tag n' =>
               exists n, nth_error (_nodes t) (Z.to_nat tag) = Some n /\
                 unlinked n' = unlinked n /\
                 if parentIndex n =? kNoParent then parentIndex n' = kNoParent
                 else nth_error (map parentIndex (std_sort (tagIndexes (_nodes t) 0)))
                        (Z.to_nat (parentIndex n')) = Some (parentIndex n))
            (map parentIndex (std_sort (tagIndexes (_nodes t) 0))) (_nodes t').
Proof. exact (sort_spec std_sort t). Qed.

Lemma sorted_insert_perm (x : RevNode) (l : list RevNode) :
  Permutation (sorted_insert x l) (x :: l).
Proof.
  induction l as [|y l IH]; cbn [sorted_insert]; [reflexivity|].
  destruct (RevNode_lt y x); [|reflexivity].
  rewrite IH. apply perm_swap.
Qed.

Lemma insertion_sort_perm (l : list RevNode) : Permutation (insertion_sort l) l.
Proof.
  induction l as [|x l IH]; [reflexivity|].
  unfold insertion_sort in *. cbn [fold_right]. rewrite sorted_insert_perm, IH. reflexivity.
Qed.

(** The fork "1-aa" <- {"2-bb", "2-cc"}, sorted by insertion. *)
Lemma sort_relinks_witness :
  _sorted tree_fork = false /\ size (_nodes tree_fork) <= 65535 /\
  parentsValid tree_fork = true /\
  exists t', sort insertion_sort tree_fork = Ok t' /\ _sorted t' = true.
Proof.
  split; [reflexivity|]. split; [vm_compute; discriminate|]. split; [reflexivity|].
  destruct (sort_relinks insertion_sort tree_fork) as (t' & H1 & H2 & _).
  - reflexivity.
  - vm_compute; discriminate.
  - reflexivity.
  - apply insertion_sort_perm.
  - exists t'. split; assumption.
Defined.

(** ** The current revision *)

Lemma RevNode_lt_unlinked (a b a' b' : RevNode) :
  unlinked a = unlinked a' -> unlinked b = unlinked b' -> RevNode_lt a b = RevNode_lt a' b'.
Proof.
  intros Ha Hb. change (RevNode_lt (unlinked a) (unlinked b) = RevNode_lt (unlinked a') (unlinked b')).
  rewrite Ha, Hb. reflexivity.
Qed.

Lemma cons_eq_inv {A : Type} (x y : A) (l l' : list A) :
  x :: l = y :: l' -> x = y /\ l = l'.
Proof. intros H. split; [exact (f_equal (hd x) H)|exact (f_equal (@tl A) H)]. Qed.

Lemma is_sorted_unlinked (l l' : list RevNode) :
  map unlinked l = map unlinked l' -> is_sorted l = is_sorted l'.
Proof.
  revert l'; induction l as [|x l IH]; intros [|x' l']; cbn [map]; try discriminate;
    [reflexivity|].
  intros H. apply cons_eq_inv in H as [Hx Hl]. cbn [is_sorted].
  destruct l as [|y l], l' as [|y' l']; try discriminate; [reflexivity|].
  pose proof Hl as Hl'. cbn [map] in Hl'. apply cons_eq_inv in Hl' as [Hy _].
  rewrite (RevNode_lt_unlinked y x y' x' Hy Hx). f_equal.
  apply IH. exact Hl.
Qed.

Lemma isActive_unlinked (a b : RevNode) : unlinked a = unlinked b -> isActive a = isActive b.
Proof.
  intros H. change (isActive (unlinked a) = isActive (unlinked b)). rewrite H. reflexivity.
Qed.

Lemma sorted_head_active (h : RevNode) (l : list RevNode) (x : RevNode) :
  is_sorted (h :: l) = true -> In x (h :: l) -> isActive x = true -> isActive h = true.
Proof.
  revert h; induction l as [|y l IH]; intros h Hs [->|Hin] Hx; try assumption.
  - destruct Hin.
  - cbn [is_sorted] in Hs. apply andb_true_iff in Hs as [Hyh Hs].
    apply negb_true_iff in Hyh.
    apply (not_lt_active h y Hyh). apply (IH y Hs Hin Hx).
Qed.

(** X14: On a tree that is not flagged sorted, has at most 65535 nodes and
    valid parent indexes, and whenever [std::sort] returns its input
    permuted into sorted order, [currentNode] returns, leaves the vector
    in sorted order, and the node it returns is a live leaf if the tree
    has any. *)
Theorem currentNode_active (std_sort : list RevNode -> list RevNode) (t : RevTree) :
  _sorted t = false -> size (_nodes t) <= 65535 -> parentsValid t = true ->
  Permutation (std_sort (tagIndexes (_nodes t) 0)) (tagIndexes (_nodes t) 0) ->
  is_sorted (std_sort (tagIndexes (_nodes t) 0)) = true ->
  (exists m, In m (_nodes t) /\ isActive m = true) ->
  exists t' n, currentNode std_sort t = Ok (t', n) /\
               is_sorted (_nodes t') = true /\ isActive n = true.
Proof.
  intros Hs Hsz V P S (m & Hm & Am).
  destruct (sort_spec std_sort t Hs Hsz V P) as (t' & E & _ & _ & _ & M & _).
  unfold currentNode. rewrite E. cbn [bind].
  assert (is_sorted (_nodes t') = true) as S' by (rewrite (is_sorted_unlinked _ _ M); exact S).
  assert (exists n', In n' (_nodes t') /\ isActive n' = true) as (n' & Hn' & An').
  { apply In_nth_error in Hm as [k Hk].
    assert (In (set_parentIndex m (Z.of_nat k)) (std_sort (tagIndexes (_nodes t) 0))) as Hin.
    { apply (Permutation_in _ (Permutation_sym P)).
      apply (nth_error_In _ k). rewrite tagIndexes_nth, Hk. reflexivity. }
    apply (in_map unlinked) in Hin. rewrite <- M in Hin.
    apply in_map_iff in Hin as (n' & En' & Hn'). exists n'. split; [exact Hn'|].
    rewrite (isActive_unlinked n' (set_parentIndex m (Z.of_nat k)) En'). exact Am. }
  destruct (_nodes t') as [|h l] eqn:N; [destruct Hn'|].
  exists t', h. rewrite N. split; [reflexivity|]. split; [exact S'|].
  apply (sorted_head_active h l n' S' Hn' An').
Qed.

Lemma currentNode_active_witness :
  _sorted tree_fork = false /\ size (_nodes tree_fork) <= 65535 /\
  parentsValid tree_fork = true /\
  is_sorted (insertion_sort (tagIndexes (_nodes tree_fork) 0)) = true /\
  exists t' n, currentNode insertion_sort tree_fork = Ok (t', n) /\ isActive n = true.
Proof.
  split; [reflexivity|]. split; [vm_compute; discriminate|]. split; [reflexivity|].
  split; [vm_compute; reflexivity|].
  destruct (currentNode_active insertion_sort tree_fork) as (t' & n & H1 & _ & H3).
  - reflexivity.
  - vm_compute; discriminate.
  - reflexivity.
  - apply insertion_sort_perm.
  - vm_compute; reflexivity.
  - exists (mkRevNode (bytes "2-bb") 0 5 0 0 (bytes "y")). split; [|reflexivity].
    right; left; reflexivity.
  - exists t', n. split; assumption.
Defined.

(** ** Splicing a history: proofs *)

Lemma assert_nonempty (cfg : build) {A : Type} (x : A) (l : list A) :
  assert cfg (0 <? size (x :: l)) = Ok tt.
Proof.
  unfold assert. destruct (NDEBUG cfg); [reflexivity|].
  assert ((0 <? size (x :: l)) = true) as ->; [|reflexivity].
  apply Z.ltb_lt. unfold size. cbn [length]. lia.
Qed.

(** X15: When the first revision of the history parses and is in the tree,
    [insertHistory] returns 0 and the tree is as it was, whatever
    follows in the history. *)
Theorem insertHistory_tip_known (cfg : build) (t : RevTree) (h : slice)
    (rest : list slice) (body : slice) (deleted : bool) :
  (exists r, RevIDParseCompacted h = Ok (Some r)) -> get t h <> None ->
  insertHistory cfg t (h :: rest) body deleted = Ok (t, 0).
Proof.
  intros [[g d] P] G. unfold insertHistory. rewrite assert_nonempty. cbn [bind].
  cbn [findCommonAncestor]. rewrite P. cbn [bind].
  change (0 <? 0) with false. cbn [andb].
  destruct (get t h); [reflexivity|congruence].
Qed.

(** "2-bb" is in [tree_2bb]; what comes after it is not looked at. *)
Lemma insertHistory_tip_known_witness :
  (exists r, RevIDParseCompacted (bytes "2-bb") = Ok (Some r)) /\
  get tree_2bb (bytes "2-bb") <> None /\
  insertHistory checked tree_2bb [bytes "2-bb"; bytes "junk"] (bytes "x") false
  = Ok (tree_2bb, 0).
Proof.
  split; [eexists; reflexivity|]. split; [vm_compute; discriminate|].
  apply (insertHistory_tip_known checked tree_2bb (bytes "2-bb") [bytes "junk"]).
  - eexists; reflexivity.
  - vm_compute; discriminate.
Defined.

(** X16: When the first two revisions of the history parse, the first
    is not in the tree and has a generation above 0 (the test is
    [lastGen > 0 && gen != lastGen - 1]), and the generation of the
    second is not one below that of the first, [insertHistory] returns
    -1 and the tree is as it was. *)
Theorem insertHistory_generation_gap (cfg : build) (t : RevTree) (h1 h2 : slice)
    (rest : list slice) (body : slice) (deleted : bool) (g1 g2 : Z) (d1 d2 : slice) :
  RevIDParseCompacted h1 = Ok (Some (g1, d1)) ->
  RevIDParseCompacted h2 = Ok (Some (g2, d2)) ->
  get t h1 = None -> 0 < g1 -> g2 <> g1 - 1 ->
  insertHistory cfg t (h1 :: h2 :: rest) body deleted = Ok (t, -1).
Proof.
  intros P1 P2 G Hg1 Hg. unfold insertHistory. rewrite assert_nonempty. cbn [bind].
  cbn [findCommonAncestor]. rewrite P1. cbn [bind].
  change (0 <? 0) with false. cbn [andb]. rewrite G, P2. cbn [bind].
  assert ((0 <? g1) = true) as -> by (apply Z.ltb_lt; exact Hg1).
  assert ((g2 =? g1 - 1) = false) as -> by (apply Z.eqb_neq; exact Hg).
  reflexivity.
Qed.

Lemma insertHistory_generation_gap_witness :
  get tree_1aa (bytes "4-dd") = None /\
  insertHistory checked tree_1aa [bytes "4-dd"; bytes "2-bb"; bytes "1-aa"] (bytes "x") false
  = Ok (tree_1aa, -1).
Proof.
  split; [reflexivity|].
  apply (insertHistory_generation_gap checked tree_1aa (bytes "4-dd") (bytes "2-bb")
           [bytes "1-aa"] (bytes "x") false 4 2 (bytes "dd") (bytes "bb"));
    try reflexivity; lia.
Defined.

Lemma findCommonAncestor_bound (t : RevTree) (history : list slice) (i lastGen r : Z) :
  findCommonAncestor t history i lastGen = Ok (Some r) ->
  i <= r <= i + size history.
Proof.
  revert i lastGen; induction history as [|h rest IH]; intros i lastGen;
    cbn [findCommonAncestor].
  - intros [= <-]. unfold size; simpl; lia.
  - destruct (RevIDParseCompacted h) as [[[g d]|]|]; cbn [bind]; try discriminate.
    destruct ((0 <? lastGen) && negb (g =? lastGen - 1)); [discriminate|].
    unfold size in *. cbn [length]. destruct (get t h).
    + intros [= <-]. lia.
    + intros H. apply IH in H. lia.
Qed.

(** X17: When the common ancestor is at a position of the history, other
    than the first, that is no index into the tree (or there is none and
    the history is at least as long as the tree), [insertHistory] does
    not return: the position is taken for the index of the parent of the
    first new node, where [indexOf] fails its assertion and, with
    assertions off, [_insert] writes the flags of a node outside the
    vector.  On an empty tree this is so for every history that passes
    the checks. *)
Theorem insertHistory_position_as_index (cfg : build) (t : RevTree)
    (history : list slice) (body : slice) (deleted : bool) (i : Z) :
  findCommonAncestor t history 0 0 = Ok (Some i) ->
  0 < i -> size (_nodes t) <= i ->
  insertHistory cfg t history body deleted
  = Stop (if NDEBUG cfg then OutOfBounds else AssertionFailure).
Proof.
  intros F Hi Hsz. pose proof (findCommonAncestor_bound _ _ _ _ _ F) as B.
  unfold insertHistory.
  assert (assert cfg (0 <? size history) = Ok tt) as ->.
  { unfold assert. destruct (NDEBUG cfg); [reflexivity|].
    assert ((0 <? size history) = true) as -> by (apply Z.ltb_lt; lia). reflexivity. }
  cbn [bind]. rewrite F. cbn [bind].
  assert ((0 <? i) = true) as -> by (apply Z.ltb_lt; exact Hi).
  destruct (Z.to_nat i) as [|k] eqn:Ek; [lia|]. cbn [insertNewRevisions].
  assert (exists rev, at_index history (Z.of_nat k) = Ok rev) as [rev ->].
  { unfold at_index. destruct (Z.ltb_spec (Z.of_nat k) 0); [lia|]. rewrite Nat2Z.id.
    destruct (nth_error history k) eqn:N; [eauto|].
    apply nth_error_None in N. unfold size in B. lia. }
  cbn [bind]. unfold _insert, indexOf, get_index, assert. rewrite Ek.
  assert (((0 <=? Z.of_nat (S k)) && (Z.of_nat (S k) <? size (_nodes t))) = false) as ->.
  { apply andb_false_iff. right. apply Z.ltb_ge. lia. }
  destruct (NDEBUG cfg); cbn [bind]; [|reflexivity].
  assert (update (_nodes t) (S k) clearLeaf = Stop OutOfBounds) as ->; [|reflexivity].
  assert (length (_nodes t) <= S k)%nat as L by (unfold size in Hsz; lia).
  clear - L. revert L. generalize (S k) as j. generalize (_nodes t) as l.
  induction l as [|x l IH]; intros j L; [destruct j; reflexivity|].
  destruct j as [|j]; [simpl in L; lia|]. cbn [update]. rewrite IH; [reflexivity|].
  simpl in L; lia.
Qed.

(** A history of one revision offered to the empty tree. *)
Lemma insertHistory_position_as_index_witness :
  findCommonAncestor empty_tree [bytes "1-aa"] 0 0 = Ok (Some 1) /\
  insertHistory checked empty_tree [bytes "1-aa"] (bytes "x") false
  = Stop AssertionFailure.
Proof.
  split; [reflexivity|].
  apply (insertHistory_position_as_index checked empty_tree [bytes "1-aa"] (bytes "x") false 1).
  - reflexivity.
  - lia.
  - vm_compute; discriminate.
Defined.

(** ** The history sent with a revision *)

Lemma append_assoc (a b c : string) :
  String.append (String.append a b) c = String.append a (String.append b c).
Proof. induction a as [|x a IH]; simpl; [reflexivity|rewrite IH; reflexivity]. Qed.

Lemma append_nil_r (a : string) : String.append a "" = a.
Proof. induction a as [|x a IH]; simpl; [reflexivity|rewrite IH; reflexivity]. Qed.

(** The rounds after the first: every ID goes out behind a comma. *)
Lemma sendRevision_history_rest (parents ancestors : list string) (maxHistory n : Z)
    (acc : string) :
  0 < n ->
  sendRevision_history parents ancestors maxHistory n acc
  = String.append acc
      (String.concat ""
         (map (String.append ",")
              (firstn (Z.to_nat (maxHistory - n)) (uptoKnown parents ancestors)))).
Proof.
  revert n acc; induction parents as [|r ps IH]; intros n acc Hn.
  - cbn [sendRevision_history uptoKnown]. rewrite firstn_nil. cbn [map String.concat].
    rewrite append_nil_r. destruct (n <? maxHistory); reflexivity.
  - cbn [sendRevision_history uptoKnown].
    destruct (Z.ltb_spec n maxHistory) as [L|L].
    + assert ((0 <? n) = true) as -> by (apply Z.ltb_lt; exact Hn).
      replace (Z.to_nat (maxHistory - n)) with (S (Z.to_nat (maxHistory - (n + 1)))) by lia.
      cbn [firstn map].
      destruct (existsb (String.eqb r) ancestors).
      * rewrite firstn_nil. cbn [map String.concat].
        rewrite append_assoc. reflexivity.
      * rewrite IH by lia. rewrite !append_assoc.
        destruct (firstn _ (uptoKnown ps ancestors)) as [|x l]; cbn [map String.concat];
          [rewrite !append_nil_r; reflexivity|].
        destruct (map (String.append ",") l); cbn [String.append];
          rewrite ?append_assoc; reflexivity.
    + replace (Z.to_nat (maxHistory - n)) with 0%nat by lia.
      cbn [firstn map String.concat]. rewrite append_nil_r. reflexivity.
Qed.

Lemma concat_comma (x : string) (l : list string) :
  String.concat "," (x :: l)
  = String.append x (String.concat "" (map (String.append ",") l)).
Proof.
  revert x; induction l as [|y l IH]; intros x.
  - cbn [map String.concat]. rewrite append_nil_r. reflexivity.
  - change (String.concat "," (x :: y :: l))
      with (String.append x (String.append "," (String.concat "," (y :: l)))).
    rewrite IH. f_equal. cbn [map].
    destruct (map (String.append ",") l) eqn:E.
    + cbn [String.concat]. rewrite append_nil_r. reflexivity.
    + change (String.concat "" (String.append "," y :: s :: l0))
        with (String.append (String.append "," y)
                (String.append "" (String.concat "" (s :: l0)))).
      rewrite append_assoc. reflexivity.
Qed.

Lemma uptoKnown_prefix (parents ancestors : list string) :
  uptoKnown parents ancestors = firstn (length (uptoKnown parents ancestors)) parents.
Proof.
  induction parents as [|r ps IH]; cbn [uptoKnown]; [reflexivity|].
  destruct (existsb (String.eqb r) ancestors); cbn [length firstn]; [reflexivity|].
  f_equal. exact IH.
Qed.

Lemma uptoKnown_unknown (parents ancestors : list string) (k : nat) (r : string) :
  (S k < length (uptoKnown parents ancestors))%nat ->
  nth_error (uptoKnown parents ancestors) k = Some r ->
  existsb (String.eqb r) ancestors = false.
Proof.
  revert k; induction parents as [|x ps IH]; intros k; cbn [uptoKnown];
    [cbn [length]; lia|].
  destruct (existsb (String.eqb x) ancestors) eqn:E; cbn [length]; [lia|].
  destruct k as [|k]; cbn [nth_error].
  - intros _ [= <-]. exact E.
  - intros L. apply IH. lia.
Qed.

(** X18: The history [_sendRevision] writes is the comma-separated list of
    the ancestors of the revision, from its parent on, cut off after the
    first one that is among [ancestors] and after [maxHistory] of them:
    the list is a prefix of the chain of ancestors, has at most
    [maxHistory] entries, and none but its last is among [ancestors].
    It is empty when the revision has no parent or [maxHistory] is not
    positive. *)
Theorem sendRevision_history_spec (parents ancestors : list string) (maxHistory : Z) :
  let sent := firstn (Z.to_nat maxHistory) (uptoKnown parents ancestors) in
  sendRevision_history parents ancestors maxHistory 0 "" = String.concat "," sent /\
  sent = firstn (length sent) parents /\
  Z.of_nat (length sent) <= Z.max 0 maxHistory /\
  forall k r, (S k < length sent)%nat -> nth_error sent k = Some r ->
              existsb (String.eqb r) ancestors = false.
Proof.
  intros sent. split; [|split; [|split]].
  - unfold sent. destruct parents as [|r ps]; cbn [sendRevision_history uptoKnown].
    + rewrite firstn_nil. destruct (0 <? maxHistory); reflexivity.
    + destruct (Z.ltb_spec 0 maxHistory) as [L|L].
      * change (0 <? 0) with false. cbv iota. cbn [String.append].
        replace (Z.to_nat maxHistory) with (S (Z.to_nat (maxHistory - 1))) by lia.
        cbn [firstn]. rewrite concat_comma.
        destruct (existsb (String.eqb r) ancestors).
        -- rewrite firstn_nil. cbn [map String.concat]. rewrite append_nil_r. reflexivity.
        -- rewrite sendRevision_history_rest by lia. reflexivity.
      * replace (Z.to_nat maxHistory) with 0%nat by lia. reflexivity.
  - unfold sent at 1. rewrite (uptoKnown_prefix parents ancestors), firstn_firstn.
    f_equal. unfold sent. rewrite length_firstn. reflexivity.
  - unfold sent. rewrite length_firstn. lia.
  - intros k r L N. unfold sent in *. rewrite length_firstn in L.
    rewrite nth_error_firstn in N. destruct (Nat.ltb_spec k (Z.to_nat maxHistory)); [|lia].
    apply (uptoKnown_unknown parents ancestors k r); [lia|exact N].
Qed.

(** ** The response to a "changes" message *)

Lemma writeZeros_spec (fuel : nat) (w i : Z) (enc : list written) :
  0 <= w -> w + 1 < 2 ^ 32 -> i < 2 ^ 32 -> i - w < Z.of_nat fuel -> (0 < fuel)%nat ->
  writeZeros fuel w i enc
  = Ok (Z.max (w + 1) i, enc ++ repeat WriteInt0 (Z.to_nat (i - 1 - w))).
Proof.
  revert w enc; induction fuel as [|fuel IH]; intros w enc Hw Hw1 Hi Hf Hpos; [lia|].
  cbn [writeZeros]. rewrite Z.mod_small by lia.
  destruct (Z.ltb_spec (w + 1) i) as [L|L].
  - rewrite IH by lia. f_equal. f_equal; [lia|].
    rewrite <- app_assoc. f_equal.
    replace (Z.to_nat (i - 1 - w)) with (S (Z.to_nat (i - 1 - (w + 1)))) by lia.
    reflexivity.
  - replace (Z.to_nat (i - 1 - w)) with 0%nat by lia. cbn [repeat].
    rewrite app_nil_r. f_equal. f_equal. lia.
Qed.

Lemma trimZeros_zeros (z : nat) : trimZeros (repeat WriteInt0 z) = [].
Proof. induction z as [|z IH]; cbn [repeat trimZeros]; [|rewrite IH]; reflexivity. Qed.

Lemma trimZeros_array (z : nat) (a : list slice) (l : list written) :
  trimZeros (repeat WriteInt0 z ++ WriteArray a :: l)
  = repeat WriteInt0 z ++ WriteArray a :: trimZeros l.
Proof.
  induction z as [|z IH]; cbn [repeat app trimZeros]; [reflexivity|].
  rewrite IH. destruct z; reflexivity.
Qed.

Lemma repeat_snoc {A : Type} (x : A) (z : nat) (l : list A) :
  repeat x z ++ x :: l = repeat x (S z) ++ l.
Proof. induction z as [|z IH]; cbn [repeat app]; [reflexivity|]. f_equal. exact IH. Qed.

Lemma count_unknown_le (changes : list change) :
  size (filter isUnknown changes) <= size changes.
Proof.
  unfold size. induction changes as [|c l IH]; cbn [filter length]; [lia|].
  destruct (isUnknown c); cbn [length]; lia.
Qed.

(** Once a zero has been left out: [itemsWritten] trails by one, and
    the zeros that are due are all written. *)
Lemma handleChanges_loop_late (fuel : nat) (changes : list change) :
  forall (i w req : Z) (enc : list written) (z : nat),
  existsb isInvalid changes = false ->
  0 <= w -> w = i - 1 - Z.of_nat z -> i + size changes < 2 ^ 32 ->
  i + size changes < Z.of_nat fuel ->
  0 <= req -> req + size changes < 2 ^ 32 ->
  handleChanges_loop fuel changes i w req enc
  = Ok (Some (enc ++ trimZeros (repeat WriteInt0 z ++ map entryFor changes),
              req + size (filter isUnknown changes))).
Proof.
  induction changes as [|c rest IH]; intros i w req enc z Hv Hw Ew Hi Hf Hr Hrs.
  - cbn [handleChanges_loop map filter]. rewrite app_nil_r, trimZeros_zeros, app_nil_r.
    unfold size; cbn [length]. do 3 f_equal. lia.
  - unfold size in Hi, Hf, Hrs; cbn [length] in Hi, Hf, Hrs.
    cbn [existsb] in Hv. apply orb_false_iff in Hv as [Hc Hv].
    destruct c as [| |a]; [discriminate| |]; cbn [handleChanges_loop map entryFor filter isUnknown].
    + rewrite Z.mod_small by lia.
      rewrite (IH (i + 1) w req enc (S z)); unfold size; try lia; [|exact Hv].
      rewrite repeat_snoc. reflexivity.
    + rewrite writeZeros_spec by lia. cbn [bind].
      rewrite !Z.mod_small by lia.
      rewrite (IH (i + 1) _ (req + 1) _ 0%nat); unfold size; try lia; [|exact Hv].
      cbn [repeat app length]. rewrite trimZeros_array.
      replace (Z.to_nat (i - 1 - w)) with z by lia.
      rewrite <- !app_assoc. cbn [app]. do 3 f_equal. lia.
Qed.

(** Before that: [itemsWritten] is the place of the first change that
    is not asked for, and the first zero that is due is not written. *)
Lemma handleChanges_loop_early (fuel : nat) (changes : list change) :
  forall (i w req : Z) (enc : list written) (z : nat),
  existsb isInvalid changes = false ->
  0 <= w -> w = i - Z.of_nat z -> i + size changes < 2 ^ 32 ->
  i + size changes < Z.of_nat fuel ->
  0 <= req -> req + size changes < 2 ^ 32 ->
  handleChanges_loop fuel changes i w req enc
  = Ok (Some (enc ++ dropFirstZero (trimZeros (repeat WriteInt0 z ++ map entryFor changes)),
              req + size (filter isUnknown changes))).
Proof.
  induction changes as [|c rest IH]; intros i w req enc z Hv Hw Ew Hi Hf Hr Hrs.
  - cbn [handleChanges_loop map filter]. rewrite app_nil_r, trimZeros_zeros.
    cbn [dropFirstZero]. rewrite app_nil_r.
    unfold size; cbn [length]. do 3 f_equal. lia.
  - unfold size in Hi, Hf, Hrs; cbn [length] in Hi, Hf, Hrs.
    cbn [existsb] in Hv. apply orb_false_iff in Hv as [Hc Hv].
    destruct c as [| |a]; [discriminate| |]; cbn [handleChanges_loop map entryFor filter isUnknown].
    + rewrite Z.mod_small by lia.
      rewrite (IH (i + 1) w req enc (S z)); unfold size; try lia; [|exact Hv].
      rewrite repeat_snoc. reflexivity.
    + rewrite writeZeros_spec by lia. cbn [bind].
      rewrite !Z.mod_small by lia.
      rewrite trimZeros_array.
      destruct z as [|z].
      * rewrite (IH (i + 1) _ (req + 1) _ 0%nat); unfold size; try lia; [|exact Hv].
        replace (Z.to_nat (i - 1 - w)) with 0%nat by lia.
        cbn [repeat app length dropFirstZero].
        rewrite <- !app_assoc. cbn [app]. do 3 f_equal. lia.
      * rewrite (handleChanges_loop_late fuel rest (i + 1) _ (req + 1) _ 0%nat);
          unfold size; try lia; [|exact Hv].
        replace (Z.to_nat (i - 1 - w)) with z by lia.
        cbn [repeat app length dropFirstZero].
        rewrite <- !app_assoc. cbn [app]. do 3 f_equal. lia.
Qed.

Lemma handleChanges_loop_invalid (fuel : nat) (changes : list change) :
  forall (i w req : Z) (enc : list written),
  existsb isInvalid changes = true ->
  0 <= w <= i -> i + size changes < 2 ^ 32 ->
  i + size changes < Z.of_nat fuel ->
  handleChanges_loop fuel changes i w req enc = Ok None.
Proof.
  induction changes as [|c rest IH]; intros i w req enc Hv Hw Hi Hf; [discriminate|].
  unfold size in Hi, Hf; cbn [length] in Hi, Hf.
  destruct c as [| |a]; cbn [handleChanges_loop]; [reflexivity| |].
  - rewrite Z.mod_small by lia. apply IH; unfold size; try lia. exact Hv.
  - rewrite writeZeros_spec by lia. cbn [bind]. rewrite (Z.mod_small (i + 1)) by lia.
    apply IH; unfold size; try lia. exact Hv.
Qed.

(** X19: [handleChanges] answers a body that is no array with the BLIP
    error 400, and sends nothing when the request wants no reply or an
    entry lacks a document or revision ID.  Otherwise it responds with
    the depth of the revision trees as "maxRevs" and an array that holds
    the known ancestors of the revisions asked for in order, but not at
    the places of their changes: it is the array that has each entry at
    the place of its change (and stops at the last revision asked for)
    with its first 0 left out, since the first run of zeros is written
    one short.  The count it keeps for the log is the number of
    revisions asked for. *)
Theorem handleChanges_response (fuel : nat) (changes : list change) (noReply : bool)
    (maxRevTreeDepth : Z)
    (Hsize : size changes < 2 ^ 32) (Hfuel : (length changes < fuel)%nat) :
  handleChanges fuel None noReply maxRevTreeDepth = Ok (RespondError "BLIP" 400) /\
  handleChanges fuel (Some changes) noReply maxRevTreeDepth
  = Ok (if noReply || existsb isInvalid changes then NoReply
        else RespondChanges maxRevTreeDepth
               (dropFirstZero (trimZeros (map entryFor changes)))) /\
  (existsb isInvalid changes = false ->
   exists encoder,
     handleChanges_loop fuel changes 0 0 0 []
     = Ok (Some (encoder, size (filter isUnknown changes)))).
Proof.
  split; [reflexivity|]. unfold handleChanges.
  destruct (existsb isInvalid changes) eqn:Hv.
  - split; [|discriminate]. destruct noReply; [reflexivity|]. cbn [orb].
    rewrite handleChanges_loop_invalid; unfold size in *; try lia; [reflexivity|exact Hv].
  - rewrite (handleChanges_loop_early fuel changes 0 0 0 [] 0%nat);
      unfold size in *; try lia; [|exact Hv].
    split; [destruct noReply; reflexivity|]. intros _. eauto.
Qed.

Lemma handleChanges_response_witness :
  handleChanges 4 (Some [KnownRev; UnknownRev [bytes "1-aa"]; KnownRev]) false 20
  = Ok (RespondChanges 20 [WriteArray [bytes "1-aa"]]).
Proof.
  apply (handleChanges_response 4 [KnownRev; UnknownRev [bytes "1-aa"]; KnownRev] false 20).
  - vm_compute. reflexivity.
  - cbn [length]. lia.
Defined.

(** ** Pruning: what is left *)

Lemma marks_refl (ns : list RevNode) : marks ns ns.
Proof. induction ns; constructor; auto. Qed.

Lemma marks_trans (a b c : list RevNode) : marks a b -> marks b c -> marks a c.
Proof.
  intros H; revert c; induction H as [|x y l l' Hxy H IH]; intros c Hc;
    inversion Hc as [|y' z l1 l2 Hyz Hc']; subst; constructor.
  - destruct Hxy as [->| ->]; destruct Hyz as [->| ->]; auto.
  - apply IH; assumption.
Qed.

Lemma update_marks (ns ns' : list RevNode) (i : nat) :
  update ns i markNode = Ok ns' ->
  marks ns ns' /\ size (filter gone ns') <= size (filter gone ns) + 1.
Proof.
  revert ns' i; induction ns as [|n ns IH]; intros ns' i; [destruct i; discriminate|].
  destruct i as [|i]; cbn [update].
  - intros [= <-]. split; [constructor; [auto|apply marks_refl]|].
    unfold size. cbn [filter]. destruct (gone (markNode n)), (gone n); cbn [length]; lia.
  - destruct (update ns i markNode) as [l|] eqn:U; cbn [bind]; [|discriminate].
    intros [= <-]. destruct (IH _ _ U) as [M C].
    split; [constructor; [auto|exact M]|].
    unfold size in *. cbn [filter]. destruct (gone n); cbn [length]; lia.
Qed.

Lemma prune_walk_marks (fuel : nat) (maxDepth : Z) :
  forall (ns ns' : list RevNode) (anc depth k k' : Z),
  prune_walk fuel maxDepth ns anc depth k = Ok (ns', k') ->
  marks ns ns' /\ k <= k' /\ (k' = k -> ns' = ns) /\
  size (filter gone ns') <= size (filter gone ns) + (k' - k).
Proof.
  induction fuel as [|fuel IH]; intros ns ns' anc depth k k'; cbn [prune_walk];
    [discriminate|].
  destruct (at_index ns anc) as [n|]; cbn [bind]; [|discriminate].
  destruct (maxDepth <? (depth + 1) mod 2 ^ 32).
  - destruct (update ns (Z.to_nat anc) markNode) as [m|] eqn:U; cbn [bind]; [|discriminate].
    destruct (update_marks _ _ _ U) as [M C].
    destruct (parentIndex n =? kNoParent).
    + intros [= <- <-]. repeat split; [exact M|lia|lia|lia].
    + intros W. destruct (IH _ _ _ _ _ _ W) as (M' & L & _ & C').
      repeat split; [eapply marks_trans; eassumption|lia|lia|lia].
  - cbn [bind]. destruct (parentIndex n =? kNoParent).
    + intros [= <- <-]. repeat split; [apply marks_refl|lia|lia].
    + apply IH.
Qed.

Lemma prune_scan_marks (fuel : nat) (sorted : bool) (maxDepth : Z) (todo : nat) :
  forall (i : Z) (ns ns' : list RevNode) (k k' : Z),
  prune_scan fuel sorted maxDepth todo i ns k = Ok (ns', k') ->
  marks ns ns' /\ k <= k' /\ (k' = k -> ns' = ns) /\
  size (filter gone ns') <= size (filter gone ns) + (k' - k).
Proof.
  induction todo as [|todo IH]; intros i ns ns' k k'; cbn [prune_scan].
  - intros [= <- <-]. repeat split; [apply marks_refl|lia|lia].
  - destruct (at_index ns i) as [n|]; cbn [bind]; [|discriminate].
    destruct (isLeaf n).
    + destruct (prune_walk fuel maxDepth ns i 0 k) as [[m j]|] eqn:W; cbn [bind];
        [|discriminate].
      destruct (prune_walk_marks _ _ _ _ _ _ _ _ W) as (M & L & E & C).
      intros S. destruct (IH _ _ _ _ _ S) as (M' & L' & E' & C').
      repeat split; [eapply marks_trans; eassumption|lia| |lia].
      intros ->. assert (j = k) as -> by lia. rewrite E', E; reflexivity.
    + destruct sorted; [|apply IH].
      intros [= <- <-]. repeat split; [apply marks_refl|lia|lia].
Qed.

Lemma survives_markNode (n : RevNode) : survives (markNode n) = false.
Proof. reflexivity. Qed.

Lemma marks_select (ns m : list RevNode) :
  marks ns m -> filter survives m = select (map survives m) ns.
Proof.
  unfold select. induction 1 as [|n n' l l' Hn M IH]; [reflexivity|].
  cbn [map combine filter fst]. destruct Hn as [->| ->].
  - destruct (survives n); cbn [map snd]; rewrite IH; reflexivity.
  - rewrite survives_markNode. exact IH.
Qed.

Lemma filter_gone_length (ns : list RevNode) :
  size (filter survives ns) = size ns - size (filter gone ns).
Proof.
  unfold size, gone. induction ns as [|n ns IH]; cbn [filter length]; [reflexivity|].
  destruct (survives n); cbn [negb length]; lia.
Qed.

(** X20: [prune] only takes nodes out.  When it returns, the nodes left
    are nodes of the tree it was given, in their order and with all
    their fields but the parent index; a result of 0 means the tree is
    as it was, a positive one that [changed] is set; and the result is
    at least the number of nodes taken out (a node above two leaves is
    counted once for each), if no node had an empty ID. *)
Theorem prune_only_removes (fuel : nat) (t t' : RevTree) (maxDepth numPruned : Z) :
  prune fuel t maxDepth = Ok (t', numPruned) ->
  0 <= numPruned /\ (numPruned = 0 -> t' = t) /\ (0 < numPruned -> _changed t' = true) /\
  _sorted t' = _sorted t /\ _bodyOffset t' = _bodyOffset t /\
  (exists kept, length kept = length (_nodes t) /\
                map unlinked (_nodes t') = map unlinked (select kept (_nodes t))) /\
  size (_nodes t) - size (_nodes t') <= numPruned + size (filter gone (_nodes t)).
Proof.
  assert (forall l : list RevNode, select (map (fun _ => true) l) l = l) as Hall.
  { unfold select. induction l as [|x l IH]; [reflexivity|].
    cbn [map combine filter fst snd]. rewrite IH. reflexivity. }
  assert (forall l : list RevNode, 0 <= size (filter gone l)) as Hpos by (intros; unfold size; lia).
  unfold prune. destruct ((maxDepth =? 0) || (size (_nodes t) <=? maxDepth)).
  - intros [= <- <-]. repeat split; try lia.
    + exists (map (fun _ => true) (_nodes t)). rewrite length_map, Hall. auto.
    + specialize (Hpos (_nodes t)). lia.
  - destruct (prune_scan fuel (_sorted t) maxDepth (length (_nodes t)) 0 (_nodes t) 0)
      as [[m k]|] eqn:S; cbn [bind]; [|discriminate].
    destruct (prune_scan_marks _ _ _ _ _ _ _ _ _ S) as (M & L & E & C).
    destruct (Z.ltb_spec 0 k) as [Hk|Hk].
    + unfold compact. cbn [_nodes set_nodes _bodyOffset _sorted].
      destruct (compact_slide (compact_map m 0) m) as [ns'|] eqn:Sl; cbn [bind];
        [|discriminate].
      intros [= <- <-]. cbn [_nodes _changed _sorted _bodyOffset].
      apply compact_slide_inv in Sl.
      assert (map unlinked ns' = map unlinked (filter survives m)) as Hmap.
      { clear -Sl. induction Sl as [|n n' l l' (p & _ & ->) Sl IH]; [reflexivity|].
        cbn [map]. rewrite IH. reflexivity. }
      repeat split; try lia.
      * exists (map survives m). split.
        -- rewrite length_map. symmetry. eapply Forall2_length. exact M.
        -- rewrite Hmap, (marks_select _ _ M). reflexivity.
      * assert (size ns' = size (filter survives m)) as ->.
        { unfold size. rewrite <- (length_map unlinked ns'), Hmap, length_map. reflexivity. }
        rewrite filter_gone_length.
        assert (size m = size (_nodes t)) as ->
          by (unfold size; f_equal; symmetry; eapply Forall2_length; exact M).
        lia.
    + assert (k = 0) as -> by lia. rewrite (E eq_refl).
      intros [= <- <-]. destruct t as [ns bo so ch]. cbn [set_nodes _nodes _bodyOffset _sorted _changed].
      repeat split; try lia.
      * exists (map (fun _ => true) ns). rewrite length_map, Hall. auto.
      * specialize (Hpos ns). lia.
Qed.

(** Pruning the tree with two forks to depth 2 marks the root from
    "3-dd" and again from "3-ee": the result is 2 for the one node that
    goes. *)
Lemma prune_only_removes_witness :
  prune 5 tree_two_forks 2 = Ok (tree_two_forks_pruned, 2) /\
  size (_nodes tree_two_forks) - size (_nodes tree_two_forks_pruned) = 1 /\
  size (_nodes tree_two_forks) - size (_nodes tree_two_forks_pruned)
  <= 2 + size (filter gone (_nodes tree_two_forks)).
Proof.
  split; [vm_compute; reflexivity|]. split; [vm_compute; reflexivity|].
  apply (prune_only_removes 5 tree_two_forks tree_two_forks_pruned 2 2).
  vm_compute. reflexivity.
Defined.

(** ** The replicator's database actor *)

Lemma getChanges_loop_spec {Rev : Type} (e : list Rev) :
  forall (limit : Z) (changes : list Rev),
  0 <= limit < 2 ^ 32 ->
  getChanges_loop e limit changes
  = (changes ++ firstn (Z.to_nat limit) e,
     skipn (S (Z.to_nat limit)) e,
     if Z.of_nat (length e) <=? limit then limit - Z.of_nat (length e)
     else 2 ^ 32 - 1).
Proof.
  induction e as [|info e IH]; intros limit changes H; cbn [getChanges_loop].
  - rewrite firstn_nil, app_nil_r. cbn [skipn length].
    destruct (Z.leb_spec (Z.of_nat 0) limit); [|lia].
    do 2 f_equal. lia.
  - destruct (Z.ltb_spec 0 limit) as [L|L].
    + rewrite Z.mod_small by lia. rewrite IH by lia.
      replace (Z.to_nat limit) with (S (Z.to_nat (limit - 1))) by lia.
      cbn [firstn skipn length]. rewrite <- app_assoc. cbn [app].
      f_equal.
      destruct (Z.leb_spec (Z.of_nat (length e)) (limit - 1));
        destruct (Z.leb_spec (Z.of_nat (S (length e))) limit); lia.
    + assert (limit = 0) as -> by lia. cbn [Z.to_nat firstn skipn].
      rewrite app_nil_r. reflexivity.
Qed.

(** X21: [_getChanges] passes the first [limit] changes of the
    enumeration on, and takes one more change out of the enumerator
    than it passes on when there is one.  In continuous mode it sets up
    a change observer whenever it passes nothing on, so also with a
    limit of 0 while changes are waiting. *)
Theorem getChanges_takes_limit {Rev : Type} (e : list Rev) (limit : Z)
    (continuous observing : bool) :
  0 <= limit < 2 ^ 32 ->
  _getChanges (Some e) limit continuous observing
  = (firstn (Z.to_nat limit) e,
     observing || continuous && ((limit =? 0) || (length e =? 0)%nat)) /\
  snd (fst (getChanges_loop e limit [])) = skipn (S (Z.to_nat limit)) e.
Proof.
  intros H. unfold _getChanges. rewrite getChanges_loop_spec by exact H.
  cbn [fst snd app]. split; [|reflexivity]. f_equal.
  destruct (Z.eqb_spec limit 0) as [->|N].
  - cbn [Z.to_nat firstn]. destruct continuous, observing; reflexivity.
  - replace (Z.to_nat limit) with (S (Z.to_nat (limit - 1))) by lia.
    destruct e as [|x e]; cbn [firstn length Nat.eqb];
      destruct continuous, observing; reflexivity.
Qed.

Lemma getChanges_takes_limit_witness :
  _getChanges (Some [1; 2; 3; 4]) 2 true false = ([1; 2], false) /\
  snd (fst (getChanges_loop [1; 2; 3; 4] 2 [])) = [4].
Proof.
  apply (getChanges_takes_limit [1; 2; 3; 4] 2 true false). lia.
Defined.

(** X22: [handleGetCheckpoint] answers a request without a "client"
    property with the BLIP error 400, a checkpoint that is found with
    its revision and body, and one that is not found with the HTTP
    error 404.  It never answers with the error 502 that its text
    names: when the lookup fails in another way, it does not answer at
    all. *)
Theorem handleGetCheckpoint_replies (LiteCoreDomain kC4ErrorNotFound : Z)
    (client : option slice) (c4raw_get : slice -> C4RawDocument + C4Error) :
  let r := handleGetCheckpoint LiteCoreDomain kC4ErrorNotFound client c4raw_get in
  (forall d, r <> RespondError d 502) /\
  (r = RespondError "BLIP" 400 <-> client = None) /\
  (forall rev b, r = Respond rev b <->
     exists checkpointID doc, client = Some checkpointID /\
       c4raw_get checkpointID = inl doc /\ rev = meta doc /\ b = body doc) /\
  (r = RespondError "HTTP" 404 <->
     exists checkpointID err, client = Some checkpointID /\
       c4raw_get checkpointID = inr err /\
       isNotFoundError LiteCoreDomain kC4ErrorNotFound err = true) /\
  (r = NoReply <->
     exists checkpointID err, client = Some checkpointID /\
       c4raw_get checkpointID = inr err /\
       isNotFoundError LiteCoreDomain kC4ErrorNotFound err = false) /\
  (forall m j, r <> RespondChanges m j).
Proof.
  cbv zeta. unfold handleGetCheckpoint.
  destruct client as [id|].
  - destruct (c4raw_get id) as [doc|err] eqn:G.
    + repeat split; try discriminate.
      * intros [= <- <-]. exists id, doc. auto.
      * intros (i & d & [= <-] & G' & -> & ->). congruence.
      * intros (i & e & [= <-] & G' & _). congruence.
      * intros (i & e & [= <-] & G' & _). congruence.
    + destruct (isNotFoundError LiteCoreDomain kC4ErrorNotFound err) eqn:N.
      * repeat split; try discriminate.
        -- intros (i & d & [= <-] & G' & _). congruence.
        -- intros _. exists id, err. auto.
        -- intros (i & e & [= <-] & G' & N'). congruence.
      * repeat split; try discriminate.
        -- intros (i & d & [= <-] & G' & _). congruence.
        -- intros (i & e & [= <-] & G' & N'). congruence.
        -- intros _. exists id, err. auto.
  - repeat split; try discriminate.
    + intros (i & d & D & _). discriminate.
    + intros (i & e & D & _). discriminate.
    + intros (i & e & D & _). discriminate.
Qed.
